(** * tXml: a shallow embedding of the parser, the serializer, the tree
    transforms and the streaming adapters, with the properties of the
    specification stated and settled against it.

    Source files embedded here: [src/tXml.ts] and [src/transformStream.ts].

    Conventions of the embedding.
    - A JavaScript string is the list of its UTF-16 code units ([jsstring]);
      positions are JavaScript numbers holding integers, so they are [Z]
      (the cursor [pos] does become [-1] in the source).
    - A JavaScript object used as a map (attributes, the output of
      [simplify]) is an association list in insertion order with unique
      keys; the members an object inherits from [Object.prototype] are not
      modelled.
    - [parseChildren] and [parseNode] are mutually recursive through a
      mutable cursor that may move backwards, so they are defined by
      recursion on a fuel argument and return [OutOfFuel] when it is
      exhausted.  [OutOfFuel] is never a result of the program. *)

From Stdlib Require Import List ZArith NArith Bool Lia.
From Stdlib Require Strings.String Strings.Ascii DecimalString.
Import ListNotations.
Import String.StringSyntax.
Open Scope string_scope.
Open Scope Z_scope.

(* ================================================================== *)
(** ** JavaScript strings *)
(* ================================================================== *)

Definition jsstring := list N.

(** String literals of the source, as code units. *)
Definition js (s : String.string) : jsstring :=
  map Ascii.N_of_ascii (String.list_ascii_of_string s).

Definition jslen (s : jsstring) : Z := Z.of_nat (length s).

(** [s.charCodeAt(i)] ([None] is [NaN]) and [s[i]] ([None] is [undefined]). *)
Definition charCodeAt (s : jsstring) (i : Z) : option N :=
  if i <? 0 then None else nth_error s (Z.to_nat i).

(** [s.charCodeAt(i) === c] *)
Definition codeIs (s : jsstring) (i : Z) (c : N) : bool :=
  match charCodeAt s i with
  | Some d => N.eqb d c
  | None => false
  end.

Fixpoint streq (a b : jsstring) : bool :=
  match a, b with
  | [], [] => true
  | x :: a', y :: b' => N.eqb x y && streq a' b'
  | _, _ => false
  end.

Fixpoint startsWith (pat l : jsstring) : bool :=
  match pat, l with
  | [], _ => true
  | _ :: _, [] => false
  | p :: pat', c :: l' => N.eqb p c && startsWith pat' l'
  end.

(** The suffix of [s] from position [i] on; empty when [i] is out of range. *)
Definition suffixFrom (s : jsstring) (i : Z) : jsstring :=
  if i <? 0 then [] else skipn (Z.to_nat i) s.

Definition clamp (s : jsstring) (i : Z) : Z := Z.min (Z.max i 0) (jslen s).

(** First occurrence of [pat] in [l], counted from [i]; [-1] when absent. *)
Fixpoint indexOfFrom (pat l : jsstring) (i : Z) : Z :=
  match l with
  | [] => if startsWith pat [] then i else -1
  | _ :: l' => if startsWith pat l then i else indexOfFrom pat l' (i + 1)
  end.

(** [s.indexOf(pat, from)] *)
Definition indexOf (s pat : jsstring) (from : Z) : Z :=
  let k := clamp s from in
  indexOfFrom pat (skipn (Z.to_nat k) s) k.

(** Last occurrence of [pat] in [l] (positions counted from [i]) that starts
    at or before [k]; [best] when there is none. *)
Fixpoint lastIndexOfUpto (pat l : jsstring) (i k best : Z) : Z :=
  match l with
  | [] => if startsWith pat [] && (i <=? k) then i else best
  | _ :: l' =>
      lastIndexOfUpto pat l' (i + 1) k
        (if startsWith pat l && (i <=? k) then i else best)
  end.

(** [s.lastIndexOf(pat, from)] *)
Definition lastIndexOf (s pat : jsstring) (from : Z) : Z :=
  lastIndexOfUpto pat s 0 (Z.max from 0) (-1).

(** [s.includes(pat)] *)
Definition includes (s pat : jsstring) : bool :=
  negb (indexOf s pat 0 =? -1).

(** [s.substring(a, b)]: both ends clamped to the string, then ordered. *)
Definition substring (s : jsstring) (a b : Z) : jsstring :=
  let a' := clamp s a in
  let b' := clamp s b in
  let lo := Z.min a' b' in
  let hi := Z.max a' b' in
  firstn (Z.to_nat (hi - lo)) (skipn (Z.to_nat lo) s).

(** [s.substring(a)] *)
Definition substringFrom (s : jsstring) (a : Z) : jsstring :=
  substring s a (jslen s).

(** [s.slice(a, b)]: a negative end counts from the end of the string. *)
Definition sliceIndex (s : jsstring) (i : Z) : Z :=
  if i <? 0 then Z.max (jslen s + i) 0 else Z.min i (jslen s).

Definition slice (s : jsstring) (a b : Z) : jsstring :=
  let a' := sliceIndex s a in
  let b' := sliceIndex s b in
  firstn (Z.to_nat (b' - a')) (skipn (Z.to_nat a') s).

(** [s.slice(a)] *)
Definition sliceFrom (s : jsstring) (a : Z) : jsstring :=
  slice s a (jslen s).

(** White space and line terminators of ECMAScript: what [trim] strips and
    what the pattern [\s] matches. *)
Definition isWhiteSpace (c : N) : bool :=
  ((9 <=? c) && (c <=? 13) || (c =? 32) || (c =? 160) || (c =? 5760)
   || (8192 <=? c) && (c <=? 8202) || (c =? 8232) || (c =? 8233)
   || (c =? 8239) || (c =? 8287) || (c =? 12288) || (c =? 65279))%N.

Fixpoint trimStart (s : jsstring) : jsstring :=
  match s with
  | c :: s' => if isWhiteSpace c then trimStart s' else s
  | [] => []
  end.

Definition trimEnd (s : jsstring) : jsstring := rev (trimStart (rev s)).

(** [s.trim()] *)
Definition trim (s : jsstring) : jsstring := trimEnd (trimStart s).

(** [s.toLowerCase()] on the letters A-Z; the source only compares the
    result with ["cdata"], and no other code unit lowers to one of its
    letters. *)
Definition toLowerCase (s : jsstring) : jsstring :=
  map (fun c => if (65 <=? c) && (c <=? 90) then c + 32 else c)%N s.

(** [a.join(sep)] *)
Fixpoint join (sep : jsstring) (l : list jsstring) : jsstring :=
  match l with
  | [] => []
  | [x] => x
  | x :: l' => x ++ sep ++ join sep l'
  end.

(** [s.split(sep)] for a separator of one code unit. *)
Fixpoint split (sep : N) (s : jsstring) : list jsstring :=
  match s with
  | [] => [[]]
  | c :: s' =>
      if N.eqb c sep then [] :: split sep s'
      else
        match split sep s' with
        | line :: lines => (c :: line) :: lines
        | [] => [[c]]
        end
  end.

(** A non-negative number in a template literal. *)
Definition numberToString (n : Z) : jsstring :=
  js (DecimalString.NilEmpty.string_of_uint (N.to_uint (Z.to_N n))).

(** [arr.includes(x)] for an array of strings. *)
Definition arrayIncludes (l : list jsstring) (x : jsstring) : bool :=
  existsb (streq x) l.

(* ================================================================== *)
(** ** Character codes and constants of [tXml.ts] *)
(* ================================================================== *)

Definition OPEN_BRACKET : N := 60.
Definition CLOSE_BRACKET : N := 62.
Definition SLASH : N := 47.
Definition EXCLAMATION : N := 33.
Definition MINUS : N := 45.
Definition SINGLE_QUOTE : N := 39.
Definition DOUBLE_QUOTE : N := 34.
Definition OPEN_SQUARE : N := 91.
Definition CLOSE_SQUARE : N := 93.
Definition QUESTION : N := 63.
Definition LINE_FEED : N := 10.

(** ["\r\n\t>/= "] *)
Definition NAME_END_CHARS : jsstring := [13; 10; 9; 62; 47; 61; 32]%N.

Definition isNameEnd (c : N) : bool := existsb (N.eqb c) NAME_END_CHARS.

(** The one-character string of a double quote. *)
Definition dq : jsstring := [DOUBLE_QUOTE].

Definition DEFAULT_SELF_CLOSING : list jsstring :=
  [js "img"; js "br"; js "input"; js "meta"; js "link"; js "hr"].

(** [(c > 64 && c < 91) || (c > 96 && c < 123)] *)
Definition isLetter (c : N) : bool :=
  ((64 <? c) && (c <? 91) || (96 <? c) && (c <? 123))%N.

(* ================================================================== *)
(** ** The data model: [TNode] and its children *)
(* ================================================================== *)

(** [Record<string, string | null>]: [None] is [null], the value of an
    attribute written without one. *)
Definition Attributes := list (jsstring * option jsstring).

(** [attributes[name] = value]: an existing key keeps its place. *)
Fixpoint setAttribute (a : Attributes) (name : jsstring) (v : option jsstring)
  : Attributes :=
  match a with
  | [] => [(name, v)]
  | (k, w) :: a' =>
      if streq k name then (k, v) :: a' else (k, w) :: setAttribute a' name v
  end.

(** [attributes[name]]; the outer [None] is [undefined]. *)
Fixpoint getAttribute (a : Attributes) (name : jsstring)
  : option (option jsstring) :=
  match a with
  | [] => None
  | (k, w) :: a' => if streq k name then Some w else getAttribute a' name
  end.

#[warnings="-register-all"]
Inductive Child : Type :=
| Str (s : jsstring)
| Elem (tagName : jsstring) (attributes : Attributes) (children : list Child).

(** A [TNode] is a [Child] built with [Elem]; the record view. *)
Module TNode.
Record t : Type := mk {
  tagName : jsstring;
  attributes : Attributes;
  children : list Child
}.
End TNode.
Abbreviation TNode := TNode.t.
Abbreviation mkTNode := TNode.mk.

Definition ofNode (n : TNode) : Child :=
  Elem (TNode.tagName n) (TNode.attributes n) (TNode.children n).

(* ================================================================== *)
(** ** Results of code that may throw or loop *)
(* ================================================================== *)

Inductive result (A : Type) : Type :=
| Done (a : A)
| Throw (message : jsstring)
| OutOfFuel.
Arguments Done {A} a.
Arguments Throw {A} message.
Arguments OutOfFuel {A}.

Definition bind {A B} (r : result A) (k : A -> result B) : result B :=
  match r with
  | Done a => k a
  | Throw m => Throw m
  | OutOfFuel => OutOfFuel
  end.

Notation "' p <- r ;; k" := (bind r (fun p => k))
  (at level 61, p pattern, r at next level, right associativity).

(* ================================================================== *)
(** ** [parse]: the scanner of [tXml.ts] *)
(* ================================================================== *)

Section Scanner.

(** The closure variables of [parse]: the text and the options read by
    the scanning functions. *)
Variable S : jsstring.
Variable keepComments keepWhitespace : bool.
Variable selfClosingTags : list jsstring.

(** [parseText]: returns the text up to the next ['<'] and leaves the
    cursor on the last character of the text. *)
Definition parseText (pos : Z) : jsstring * Z :=
  let start := pos in
  let pos := indexOf S [OPEN_BRACKET] pos - 1 in
  let pos := if pos =? -2 then jslen S else pos in
  (slice S start (pos + 1), pos).

(** The loop of [parseName], run over the text from the cursor on: it
    stops on a name-end character or at the end of the text. *)
Fixpoint parseNameLoop (rest : jsstring) (pos : Z) : Z :=
  match rest with
  | c :: rest' => if isNameEnd c then pos else parseNameLoop rest' (pos + 1)
  | [] => pos
  end.

Definition parseName (pos : Z) : jsstring * Z :=
  let start := pos in
  let pos := parseNameLoop (suffixFrom S pos) pos in
  (slice S start pos, pos).

(** [parseString]: the cursor is on the opening quote. *)
Definition parseString (pos : Z) : jsstring * Z :=
  match charCodeAt S pos with
  | Some quote =>
      let start := pos + 1 in
      let pos := indexOf S [quote] start in
      (slice S start pos, pos)
  | None => ([], pos)
  end.

(** The comment loop of [parseChildren]: jump from ['>'] to ['>'] until
    one closes the comment or none is left. *)
Fixpoint commentLoop (n : nat) (pos : Z) : result Z :=
  if (pos =? -1)
     || (codeIs S pos CLOSE_BRACKET && codeIs S (pos - 1) MINUS
         && codeIs S (pos - 2) MINUS)
  then Done pos
  else
    match n with
    | O => OutOfFuel
    | Datatypes.S n' => commentLoop n' (indexOf S [CLOSE_BRACKET] (pos + 1))
    end.

(** The doctype loop of [parseChildren], run over the text from the
    cursor on. *)
Fixpoint doctypeLoop (rest : jsstring) (pos : Z) (encapsulated : bool) : Z :=
  match rest with
  | c :: rest' =>
      if negb (N.eqb c CLOSE_BRACKET) || encapsulated then
        let encapsulated :=
          if N.eqb c OPEN_SQUARE then true
          else if encapsulated && N.eqb c CLOSE_SQUARE then false
          else encapsulated in
        doctypeLoop rest' (pos + 1) encapsulated
      else pos
  | [] => pos
  end.

(** The skip loop of [parseNode]: up to a quote, a letter, ['>'] or the
    end of the text ([code] is falsy there, and on the code unit 0). *)
Fixpoint skipToValue (rest : jsstring) (pos : Z) : Z :=
  match rest with
  | code :: rest' =>
      if negb (N.eqb code 0)
         && negb (N.eqb code SINGLE_QUOTE) && negb (N.eqb code DOUBLE_QUOTE)
         && negb (isLetter code) && negb (N.eqb code CLOSE_BRACKET)
      then skipToValue rest' (pos + 1)
      else pos
  | [] => pos
  end.

(** The attribute loop of [parseNode].  It ends with the attributes and
    the cursor, and says whether it left through the early [return] taken
    when a quoted value has no closing quote. *)
Fixpoint parseAttributes (n : nat) (pos : Z) (attributes : Attributes)
  : result (Attributes * Z * bool) :=
  match charCodeAt S pos with
  | None => Done (attributes, pos, false)
  | Some c =>
      if N.eqb c CLOSE_BRACKET then Done (attributes, pos, false)
      else
        match n with
        | O => OutOfFuel
        | Datatypes.S n' =>
            if isLetter c then
              let '(name, pos) := parseName pos in
              let pos := skipToValue (suffixFrom S pos) pos in
              if codeIs S pos SINGLE_QUOTE || codeIs S pos DOUBLE_QUOTE then
                let '(value, pos) := parseString pos in
                if pos =? -1 then Done (attributes, pos, true)
                else
                  parseAttributes n' (pos + 1)
                    (setAttribute attributes name (Some value))
              else
                let pos := pos - 1 in
                parseAttributes n' (pos + 1)
                  (setAttribute attributes name None)
            else parseAttributes n' (pos + 1) attributes
        end
  end.

(** The message of the only [throw] of the source. *)
Definition unexpectedCloseTag (pos : Z) : jsstring :=
  let lines := split LINE_FEED (substring S 0 pos) in
  js "Unexpected close tag" ++ [LINE_FEED]
    ++ js "Line: " ++ numberToString (Z.of_nat (length lines) - 1)
    ++ [LINE_FEED]
    ++ js "Column: " ++ numberToString (jslen (last lines []) + 1)
    ++ [LINE_FEED]
    ++ js "Char: "
    ++ match charCodeAt S pos with
       | Some c => [c]
       | None => js "undefined"
       end.

(** [parseChildren] and [parseNode] call each other and move a cursor
    that can go backwards, so the recursion is on a fuel argument.  Their
    bodies are written first, over the calls they make: [whileLoop] is the
    next turn of the [while] loop of [parseChildren] (with the array
    [children] built so far), [parseNodeCall] the call of [parseNode] and
    [parseChildrenCall] the call [parseChildren(tagName)] made by
    [parseNode].  Each returns the value of the source function together
    with the cursor it leaves. *)
Section Bodies.

Variable whileLoop : jsstring -> Z -> list Child -> result (list Child * Z).
Variable parseNodeCall : Z -> result (TNode * Z).

(** One turn of the [while] loop of [parseChildren]. *)
Definition parseChildrenBody (tagName : jsstring) (pos : Z)
    (children : list Child) : result (list Child * Z) :=
  match charCodeAt S pos with
  | None => Done (children, pos)
  | Some c =>
    if N.eqb c OPEN_BRACKET then
      if codeIs S (pos + 1) SLASH then
        (* close tag *)
        let closeStart := pos + 2 in
        let pos := indexOf S [CLOSE_BRACKET] pos in
        let closeTag := substring S closeStart pos in
        if negb (includes closeTag tagName) then
          Throw (unexpectedCloseTag pos)
        else
          let pos := if pos + 1 =? 0 then pos else pos + 1 in
          Done (children, pos)
      else if codeIs S (pos + 1) EXCLAMATION then
        if codeIs S (pos + 2) MINUS then
          (* comment *)
          let startCommentPos := pos in
          ' pos <- commentLoop (length S) pos ;;
          let pos := if pos =? -1 then jslen S else pos in
          let children :=
            if keepComments
            then children ++ [Str (substring S startCommentPos (pos + 1))]
            else children in
          whileLoop tagName (pos + 1) children
        else if codeIs S (pos + 2) OPEN_SQUARE
                && codeIs S (pos + 8) OPEN_SQUARE
                && streq (toLowerCase (substring S (pos + 3) (pos + 8)))
                         (js "cdata")
        then
          (* CDATA *)
          let cdataEndIndex :=
            indexOf S [CLOSE_SQUARE; CLOSE_SQUARE; CLOSE_BRACKET] pos in
          if cdataEndIndex =? -1 then
            whileLoop tagName (jslen S)
              (children ++ [Str (substringFrom S (pos + 9))])
          else
            whileLoop tagName (cdataEndIndex + 3)
              (children ++ [Str (substring S (pos + 9) cdataEndIndex)])
        else
          (* DOCTYPE *)
          let startDoctype := pos + 1 in
          let pos := pos + 2 in
          let pos := doctypeLoop (suffixFrom S pos) pos false in
          whileLoop tagName (pos + 1)
            (children ++ [Str (substring S startDoctype pos)])
      else
        ' (node, pos) <- parseNodeCall pos ;;
        let children :=
          if startsWith [QUESTION] (TNode.tagName node)
          then children
               ++ [Elem (TNode.tagName node) (TNode.attributes node) []]
               ++ TNode.children node
          else children ++ [ofNode node] in
        whileLoop tagName pos children
    else
      let '(text, pos) := parseText pos in
      let children :=
        if keepWhitespace then
          if 0 <? jslen text then children ++ [Str text] else children
        else
          let trimmed := trim text in
          if 0 <? jslen trimmed then children ++ [Str trimmed]
          else children in
      whileLoop tagName (pos + 1) children
  end.

Variable parseChildrenCall : jsstring -> Z -> result (list Child * Z).

Definition parseNodeBody (pos : Z) : result (TNode * Z) :=
  let pos := pos + 1 in
  let '(tagName, pos) := parseName pos in
  ' (attributes, pos, returned) <- parseAttributes (length S) pos [] ;;
  if returned then Done (mkTNode tagName attributes [], pos)
  else if negb (codeIs S (pos - 1) SLASH) then
    if streq tagName (js "script") then
      let start := pos + 1 in
      let pos := indexOf S (js "</script>") pos in
      Done (mkTNode tagName attributes [Str (slice S start pos)], pos + 9)
    else if streq tagName (js "style") then
      let start := pos + 1 in
      let pos := indexOf S (js "</style>") pos in
      Done (mkTNode tagName attributes [Str (slice S start pos)], pos + 8)
    else if negb (arrayIncludes selfClosingTags tagName) then
      let pos := pos + 1 in
      ' (children, pos) <- parseChildrenCall tagName pos ;;
      Done (mkTNode tagName attributes children, pos)
    else Done (mkTNode tagName attributes [], pos + 1)
  else Done (mkTNode tagName attributes [], pos + 1).

End Bodies.

Fixpoint parseChildren (fuel : nat) (tagName : jsstring) (pos : Z)
    (children : list Child) {struct fuel} : result (list Child * Z) :=
  match fuel with
  | O => OutOfFuel
  | Datatypes.S fuel' =>
      parseChildrenBody (parseChildren fuel') (parseNode fuel')
        tagName pos children
  end

with parseNode (fuel : nat) (pos : Z) {struct fuel} : result (TNode * Z) :=
  match fuel with
  | O => OutOfFuel
  | Datatypes.S fuel' =>
      parseNodeBody (fun tagName pos => parseChildren fuel' tagName pos []) pos
  end.

End Scanner.

(* ================================================================== *)
(** ** [filter] *)
(* ================================================================== *)

Definition Predicate := TNode -> Z -> Z -> jsstring -> bool.

Definition asNode (tag : jsstring) (attrs : Attributes) (ch : list Child)
  : TNode := mkTNode tag attrs ch.

(** [filterChild f depth path i child]: what one turn of the [forEach]
    of [filter] adds to [out]. *)
Fixpoint filterChild (f : Predicate) (depth : Z) (path : jsstring) (i : Z)
    (child : Child) {struct child} : list TNode :=
  match child with
  | Str _ => []
  | Elem tag attrs ch =>
      let node := asNode tag attrs ch in
      let newPath :=
        (if 0 <? jslen path then path ++ js "." else [])
          ++ numberToString i ++ js "." ++ tag in
      (if f node i depth path then [node] else [])
        ++ (fix forEach (l : list Child) (j : Z) {struct l} : list TNode :=
              match l with
              | [] => []
              | c :: l' =>
                  filterChild f (depth + 1) newPath j c ++ forEach l' (j + 1)
              end) ch 0
  end.

Fixpoint filterFrom (f : Predicate) (depth : Z) (path : jsstring) (i : Z)
    (children : list Child) : list TNode :=
  match children with
  | [] => []
  | c :: l => filterChild f depth path i c ++ filterFrom f depth path (i + 1) l
  end.

(** [filter(children, f, depth, path)] *)
Definition filter (children : list Child) (f : Predicate) (depth : Z)
    (path : jsstring) : list TNode :=
  filterFrom f depth path 0 children.

(* ================================================================== *)
(** ** [simplify] *)
(* ================================================================== *)

(** The values [simplify] builds: strings, objects keyed by tag name,
    arrays, and the attribute object stored under [_attributes]. *)
#[warnings="-register-all"]
Inductive value : Type :=
| VString (s : jsstring)
| VObject (fields : list (jsstring * value))
| VArray (items : list value)
| VAttributes (a : Attributes).

(** [out[key]] for the object under construction, whose values are all
    arrays. *)
Fixpoint getField {A} (out : list (jsstring * A)) (key : jsstring) : option A :=
  match out with
  | [] => None
  | (k, v) :: out' => if streq k key then Some v else getField out' key
  end.

(** [out[key] = v] *)
Fixpoint setField {A} (out : list (jsstring * A)) (key : jsstring) (v : A)
  : list (jsstring * A) :=
  match out with
  | [] => [(key, v)]
  | (k, w) :: out' =>
      if streq k key then (k, v) :: out' else (k, w) :: setField out' key v
  end.

(** [if (!out[tag]) out[tag] = []; out[tag].push(kids)] *)
Definition pushKids (out : list (jsstring * list value)) (tag : jsstring)
    (kids : value) : list (jsstring * list value) :=
  match getField out tag with
  | None => setField out tag [kids]
  | Some arr => setField out tag (arr ++ [kids])
  end.

(** [if (Object.keys(child.attributes).length && typeof kids === "object"
        && !Array.isArray(kids)) kids._attributes = child.attributes] *)
Definition attachAttributes (attrs : Attributes) (kids : value) : value :=
  match attrs, kids with
  | _ :: _, VObject fields =>
      VObject (setField fields (js "_attributes") (VAttributes attrs))
  | _, _ => kids
  end.

(** [for (const key in out) if (out[key].length === 1) out[key] = out[key][0]] *)
Definition collapse (out : list (jsstring * list value))
  : list (jsstring * value) :=
  map (fun '(key, arr) =>
         match arr with
         | [kid] => (key, kid)
         | _ => (key, VArray arr)
         end) out.

(** The body of [simplify], with the recursive call on the children of a
    child element passed as [kidsOf]. *)
Definition simplifyWith (kidsOf : Child -> value) (children : list Child)
  : value :=
  match children with
  | [] => VString []
  | [Str s] => VString s
  | _ =>
      VObject
        (collapse
           (fold_left
              (fun out child =>
                 match child with
                 | Str _ => out
                 | Elem tag attrs _ =>
                     pushKids out tag (attachAttributes attrs (kidsOf child))
                 end)
              children []))
  end.

(** [simplify(child.children)] for an element [child]. *)
Fixpoint simplifyKids (child : Child) {struct child} : value :=
  match child with
  | Str _ => VString []
  | Elem _ _ ch => simplifyWith simplifyKids ch
  end.

(** [simplify(children)] *)
Definition simplify (children : list Child) : value :=
  simplifyWith simplifyKids children.

(* ================================================================== *)
(** ** [toContentString] *)
(* ================================================================== *)

(** The argument of [toContentString]: an array, or one node or string. *)
Inductive TDom : Type :=
| DomList (l : list Child)
| DomChild (c : Child).

Fixpoint contentOfChild (c : Child) {struct c} : jsstring :=
  match c with
  | Str s => js " " ++ s
  | Elem _ _ ch => trim (join (js " ") (map contentOfChild ch))
  end.

Definition toContentString (tDom : TDom) : jsstring :=
  match tDom with
  | DomList l => trim (join (js " ") (map contentOfChild l))
  | DomChild c => contentOfChild c
  end.

(* ================================================================== *)
(** ** [stringify] *)
(* ================================================================== *)

Module StringifyOptions.
(** The three patterns are taken as the tests they perform. *)
Record t : Type := mk {
  skipTags : option (jsstring -> bool);
  stripParams : option (jsstring -> bool);
  compactTags : option (jsstring -> bool);
  indentSpaces : option Z
}.
Definition none : t := mk None None None None.
End StringifyOptions.

(** [re?.test(x)], falsy when the pattern is absent. *)
Definition test (re : option (jsstring -> bool)) (x : jsstring) : bool :=
  match re with
  | Some p => p x
  | None => false
  end.

(** [s.repeat(n)] *)
Fixpoint repeatString (s : jsstring) (n : nat) : jsstring :=
  match n with
  | O => []
  | Datatypes.S n' => s ++ repeatString s n'
  end.

Definition isElem (c : Child) : bool :=
  match c with
  | Elem _ _ _ => true
  | Str _ => false
  end.

Section Stringify.

Variable options : StringifyOptions.t.

Definition indent : jsstring :=
  match StringifyOptions.indentSpaces options with
  | Some n => if 0 <? n then repeatString (js " ") (Z.to_nat n) else []
  | None => []
  end.

Definition writeAttribute (kv : jsstring * option jsstring) : jsstring :=
  let '(k, v) := kv in
  if test (StringifyOptions.stripParams options) k then []
  else
    match v with
    | None => js " " ++ k
    | Some v =>
        if includes v [DOUBLE_QUOTE]
        then js " " ++ k ++ js "='" ++ trim v ++ js "'"
        else js " " ++ k ++ [61%N; DOUBLE_QUOTE] ++ trim v ++ [DOUBLE_QUOTE]
    end.

(** What one turn of the loop of [write] appends to [out]. *)
Fixpoint writeNode (depth : nat) (compact : bool) (node : Child) {struct node}
  : jsstring :=
  match node with
  | Str s =>
      let t := trim s in
      if 0 <? jslen t then
        if negb compact && (0 <? jslen indent)
        then [LINE_FEED] ++ repeatString indent depth ++ t
        else t
      else []
  | Elem tag attrs ch =>
      if test (StringifyOptions.skipTags options) tag then []
      else
        let isCompact :=
          compact || test (StringifyOptions.compactTags options) tag in
        (if negb compact && (0 <? jslen indent)
         then [LINE_FEED] ++ repeatString indent depth else [])
          ++ [OPEN_BRACKET] ++ tag
          ++ concat (map writeAttribute attrs)
          ++ (if startsWith [QUESTION] tag then [QUESTION; CLOSE_BRACKET]
              else
                [CLOSE_BRACKET]
                  ++ concat (map (writeNode (Datatypes.S depth) isCompact) ch)
                  ++ (if negb isCompact && (0 <? jslen indent)
                         && existsb isElem ch
                      then [LINE_FEED] ++ repeatString indent depth else [])
                  ++ [OPEN_BRACKET; SLASH] ++ tag ++ [CLOSE_BRACKET])
  end.

Definition write (nodes : list Child) (depth : nat) (compact : bool)
  : jsstring :=
  concat (map (writeNode depth compact) nodes).

(** [stringify(O, options)] for an array [O]. *)
Definition stringifyNodes (nodes : list Child) : jsstring :=
  let out := write nodes 0 false in
  match out with
  | c :: out' => if N.eqb c LINE_FEED then out' else out
  | [] => out
  end.

End Stringify.

(** [stringify(O)] with no options. *)
Definition stringify (O : list Child) : jsstring :=
  stringifyNodes StringifyOptions.none O.

(* ================================================================== *)
(** ** Patterns of the attribute search *)
(* ================================================================== *)

(** [attrName] and [attrValue] are pattern sources that [findElements]
    splices into one [RegExp].  They are taken here in parsed form; [exec]
    is only asked for the index of the leftmost match, which for these
    patterns is the least position where some word of the language
    starts. *)
Inductive regex : Type :=
| Void
| Eps
| Class (p : N -> bool)
| Seq (r1 r2 : regex)
| Alt (r1 r2 : regex)
| Star (r : regex).

(** A source without metacharacters. *)
Fixpoint literal (s : jsstring) : regex :=
  match s with
  | [] => Eps
  | c :: s' => Seq (Class (N.eqb c)) (literal s')
  end.

Fixpoint nullable (r : regex) : bool :=
  match r with
  | Void => false
  | Eps => true
  | Class _ => false
  | Seq r1 r2 => nullable r1 && nullable r2
  | Alt r1 r2 => nullable r1 || nullable r2
  | Star _ => true
  end.

Fixpoint deriv (r : regex) (c : N) : regex :=
  match r with
  | Void => Void
  | Eps => Void
  | Class p => if p c then Eps else Void
  | Seq r1 r2 =>
      if nullable r1 then Alt (Seq (deriv r1 c) r2) (deriv r2 c)
      else Seq (deriv r1 c) r2
  | Alt r1 r2 => Alt (deriv r1 c) (deriv r2 c)
  | Star r1 => Seq (deriv r1 c) (Star r1)
  end.

(** Some prefix of [l] matches [r]. *)
Fixpoint matchesPrefix (r : regex) (l : jsstring) : bool :=
  nullable r
  || match l with
     | [] => false
     | c :: l' => matchesPrefix (deriv r c) l'
     end.

(** [r.exec(S)?.index], [-1] when there is no match. *)
Fixpoint execIndexFrom (r : regex) (l : jsstring) (i : Z) : Z :=
  if matchesPrefix r l then i
  else
    match l with
    | [] => -1
    | _ :: l' => execIndexFrom r l' (i + 1)
    end.

Definition execIndex (r : regex) (s : jsstring) : Z := execIndexFrom r s 0.

(** A pattern source is falsy when it is the empty string. *)
Definition emptySource (r : regex) : bool :=
  match r with
  | Eps => true
  | _ => false
  end.

Definition isQuote (c : N) : bool :=
  N.eqb c SINGLE_QUOTE || N.eqb c DOUBLE_QUOTE.

(** [new RegExp(`\\s${attrName}\\s*=['"]${attrValue}['"]`)] *)
Definition attributePattern (attrName attrValue : regex) : regex :=
  Seq (Class isWhiteSpace)
    (Seq attrName
       (Seq (Star (Class isWhiteSpace))
          (Seq (Class (N.eqb 61))
             (Seq (Class isQuote) (Seq attrValue (Class isQuote)))))).

(* ================================================================== *)
(** ** [parse] *)
(* ================================================================== *)

Module ParseOptions.
Record t : Type := mk {
  pos : option Z;
  noChildNodes : option (list jsstring);
  selfClosingTags : option (list jsstring);
  setPos : bool;
  keepComments : bool;
  keepWhitespace : bool;
  simplify : bool;
  parseNode : bool;
  attrName : option regex;
  attrValue : option regex;
  filter : option Predicate
}.
(** [{}] *)
Definition default : t :=
  mk None None None false false false false false None None None.
End ParseOptions.

(** What [parse] returns: an array of nodes and strings; in [parseNode]
    mode one node, carrying [pos] when [setPos] is set; with [simplify] the
    simplified value. *)
Inductive ParseResult : Type :=
| Nodes (out : list Child)
| Node (out : TNode) (pos : option Z)
| Simplified (out : value).

Section Parse.

Variable options : ParseOptions.t.

Definition keepComments : bool := ParseOptions.keepComments options.
Definition keepWhitespace : bool := ParseOptions.keepWhitespace options.

(** [options.selfClosingTags || options.noChildNodes || DEFAULT_SELF_CLOSING] *)
Definition selfClosingTags : list jsstring :=
  match ParseOptions.selfClosingTags options with
  | Some l => l
  | None =>
      match ParseOptions.noChildNodes options with
      | Some l => l
      | None => DEFAULT_SELF_CLOSING
      end
  end.

(** [options.pos || 0] *)
Definition startPos : Z :=
  match ParseOptions.pos options with
  | Some p => p
  | None => 0
  end.

(** [options.attrName || "id"], evaluated once [attrValue] is known to be
    set. *)
Definition searchName : regex :=
  match ParseOptions.attrName options with
  | Some r => if emptySource r then literal (js "id") else r
  | None => literal (js "id")
  end.

(** [findElements] *)
Definition findElements (S : jsstring) : Z :=
  match ParseOptions.attrValue options with
  | None => -1
  | Some v =>
      if emptySource v then -1
      else execIndex (attributePattern searchName v) S
  end.

(** The loop of the attribute search; it replaces the text [S] on every
    turn. *)
Fixpoint searchLoop (fuel : nat) (S : jsstring) (out : list Child)
  : result (list Child * Z) :=
  match fuel with
  | O => OutOfFuel
  | Datatypes.S fuel' =>
      let pos := findElements S in
      if pos =? -1 then Done (out, pos)
      else
        let pos := lastIndexOf S [OPEN_BRACKET] pos in
        if negb (pos =? -1) then
          ' (node, pos) <-
              parseNode S keepComments keepWhitespace selfClosingTags fuel' pos ;;
          searchLoop fuel' (substringFrom S pos) (out ++ [ofNode node])
        else searchLoop fuel' (substringFrom S pos) out
  end.

Definition nodeChildren (l : list TNode) : list Child := map ofNode l.

(** [parse(S, options)] in [parseNode] mode, before [simplify] and
    [setPos] are looked at: the node and the cursor [pos]. *)
Definition parseSingleNode (fuel : nat) (S : jsstring) : result (TNode * Z) :=
  parseNode S keepComments keepWhitespace selfClosingTags fuel startPos.

(** [parse(S, options)] *)
Definition parse (fuel : nat) (S : jsstring) : result ParseResult :=
  match ParseOptions.attrValue options with
  | Some _ =>
      ' (out, pos) <- searchLoop fuel S [] ;;
      let out :=
        match ParseOptions.filter options with
        | Some f => nodeChildren (filter out f 0 [])
        | None => out
        end in
      if ParseOptions.simplify options then Done (Simplified (simplify out))
      else Done (Nodes out)
  | None =>
      if ParseOptions.parseNode options then
        ' (out, pos) <- parseSingleNode fuel S ;;
        if ParseOptions.simplify options
        then Done (Simplified (simplify [ofNode out]))
        else if ParseOptions.setPos options then Done (Node out (Some pos))
        else Done (Node out None)
      else
        ' (out, pos) <-
            parseChildren S keepComments keepWhitespace selfClosingTags fuel
              [] startPos [] ;;
        let out :=
          match ParseOptions.filter options with
          | Some f => nodeChildren (filter out f 0 [])
          | None => out
          end in
        if ParseOptions.simplify options then Done (Simplified (simplify out))
        else Done (Nodes out)
  end.

End Parse.

(* ================================================================== *)
(** ** The streaming adapters of [transformStream.ts] *)
(* ================================================================== *)

(** What an adapter pushes downstream: the text of a comment, or a node
    with the [pos] set by [parse]. *)
Inductive Item : Type :=
| Comment (text : jsstring)
| Parsed (res : TNode) (pos : Z).

(** The variables an adapter keeps between two chunks. *)
Record StreamState : Type := mkState {
  data : jsstring;
  position : Z
}.

(** [typeof offset === "string" ? offset.length : offset] *)
Definition initialState (offset : Z + jsstring) : StreamState :=
  mkState [] (match offset with inl n => n | inr s => jslen s end).

Section Streams.

(** [parseOptions].  Of its fields the adapters override [pos],
    [parseNode] and [setPos]; [simplify] and [attrValue], which would make
    [parse] return something else than a node, are left unset. *)
Variable keepComments keepWhitespace : bool.
Variable selfClosingTags : option (list jsstring).

(** [{...parseOptions, pos: position - 1, parseNode: true, setPos: true}] *)
Definition nodeOptions (position : Z) : ParseOptions.t :=
  ParseOptions.mk (Some (position - 1)) None selfClosingTags true
    keepComments keepWhitespace false true None None None.

(** The [while (true)] loop of [transformStream]; [pushed] collects the
    calls of [this.push].  The node and its [pos] are those of [parse] run
    with [nodeOptions] (lemma [parse_nodeOptions]). *)
Fixpoint transformStreamLoop (fuel : nat) (data : jsstring)
    (position lastPos : Z) (pushed : list Item)
  : result (list Item * StreamState) :=
  match fuel with
  | O => OutOfFuel
  | Datatypes.S fuel' =>
      let position := indexOf data [OPEN_BRACKET] position + 1 in
      if position =? 0 then Done (pushed, mkState data lastPos)
      else if codeIs data position SLASH then
        let position := position + 1 in
        transformStreamLoop fuel' data position position pushed
      else if codeIs data position EXCLAMATION
              && codeIs data (position + 1) MINUS
              && codeIs data (position + 2) MINUS then
        let commentEnd := indexOf data (js "-->") (position + 3) in
        if commentEnd =? -1 then
          Done (pushed, mkState (sliceFrom data lastPos) 0)
        else
          let pushed :=
            if keepComments
            then pushed
                 ++ [Comment (substring data (position - 1) (commentEnd + 3))]
            else pushed in
          transformStreamLoop fuel' data (commentEnd + 1) commentEnd pushed
      else
        ' (res, position) <- parseSingleNode (nodeOptions position) fuel' data ;;
        if (jslen data - 1 <? position) || (position <? lastPos) then
          Done (pushed, mkState (sliceFrom data lastPos) 0)
        else
          transformStreamLoop fuel' data position position
            (pushed ++ [Parsed res position])
  end.

(** [transform(chunk, _encoding, callback)] of [transformStream] *)
Definition transformStream (fuel : nat) (st : StreamState) (chunk : jsstring)
  : result (list Item * StreamState) :=
  let data := data st ++ chunk in
  let lastPos := 0 in
  transformStreamLoop fuel data (position st) lastPos [].

(** The [while (true)] loop of [transformWebStream]; [enqueued] collects
    the calls of [controller.enqueue]. *)
Fixpoint transformWebStreamLoop (fuel : nat) (data : jsstring)
    (position lastPos : Z) (enqueued : list Item)
  : result (list Item * StreamState) :=
  match fuel with
  | O => OutOfFuel
  | Datatypes.S fuel' =>
      let position := indexOf data [OPEN_BRACKET] position + 1 in
      if position =? 0 then Done (enqueued, mkState data lastPos)
      else if codeIs data position SLASH then
        let position := position + 1 in
        transformWebStreamLoop fuel' data position position enqueued
      else if codeIs data position EXCLAMATION
              && codeIs data (position + 1) MINUS
              && codeIs data (position + 2) MINUS then
        let commentEnd := indexOf data (js "-->") (position + 3) in
        if commentEnd =? -1 then
          Done (enqueued, mkState (sliceFrom data lastPos) 0)
        else
          let enqueued :=
            if keepComments
            then enqueued
                 ++ [Comment (substring data (position - 1) (commentEnd + 3))]
            else enqueued in
          transformWebStreamLoop fuel' data (commentEnd + 1) commentEnd enqueued
      else
        ' (res, position) <- parseSingleNode (nodeOptions position) fuel' data ;;
        if (jslen data - 1 <? position) || (position <? lastPos) then
          Done (enqueued, mkState (sliceFrom data lastPos) 0)
        else
          transformWebStreamLoop fuel' data position position
            (enqueued ++ [Parsed res position])
  end.

(** [transform(chunk, controller)] of [transformWebStream] *)
Definition transformWebStream (fuel : nat) (st : StreamState)
    (chunk : jsstring) : result (list Item * StreamState) :=
  let data := data st ++ chunk in
  let lastPos := 0 in
  transformWebStreamLoop fuel data (position st) lastPos [].

(** A whole stream: the chunks are handed to [transform] one after the
    other, and nothing is done when the stream ends (the adapters define no
    [flush]). *)
Fixpoint runStream
    (transform : nat -> StreamState -> jsstring
                 -> result (list Item * StreamState))
    (fuel : nat) (st : StreamState) (chunks : list jsstring)
  : result (list Item) :=
  match chunks with
  | [] => Done []
  | chunk :: chunks' =>
      ' (items, st) <- transform fuel st chunk ;;
      ' (rest) <- runStream transform fuel st chunks' ;;
      Done (items ++ rest)
  end.

End Streams.

(** [r'] is the result [r], if [r] is one. *)
Definition settled {A} (r r' : result A) : Prop := r <> OutOfFuel -> r' = r.

(** Position [p] of the text [S] is where [rest] starts. *)
Definition Splits (S : jsstring) (p : Z) (rest : jsstring) : Prop :=
  exists pre, S = pre ++ rest /\ p = jslen pre.

(* ================================================================== *)
(** ** [simplify] as the specification words it *)
(* ================================================================== *)


Definition memb (t : jsstring) (l : list jsstring) : bool :=
  existsb (streq t) l.

(** Each name once, at its first place. *)
Fixpoint distinct (l : list jsstring) : list jsstring :=
  match l with
  | [] => []
  | x :: l' => x :: List.filter (fun y => negb (streq y x)) (distinct l')
  end.

Section SimplifySpec.

Variable kidsOf : Child -> value.




End SimplifySpec.



(* ================================================================== *)
(** ** Documents in canonical form *)
(* ================================================================== *)

(** The documents for which the round trip is stated: every element is
    written with an open and a close tag, attributes with the value in
    double quotes (in single quotes when the value holds a double quote, or
    the name alone), and text without surrounding white space. *)

Definition nameChars (s : jsstring) : bool :=
  forallb (fun c => negb (isNameEnd c)) s.

Definition hasChar (c : N) (s : jsstring) : bool := existsb (N.eqb c) s.

(** A tag name the parser reads as the name of an element: not that of a
    processing instruction or of a declaration. *)
Definition elementName (tag : jsstring) : bool :=
  match tag with
  | [] => false
  | c :: _ =>
      negb (N.eqb c QUESTION) && negb (N.eqb c EXCLAMATION) && nameChars tag
  end.

(** A tag name the parser reads as the name of an ordinary element: not a
    processing instruction or declaration, not [script] or [style], not
    one of the default self-closing tags. *)
Definition canonicalTag (tag : jsstring) : bool :=
  match tag with
  | [] => false
  | c :: _ =>
      negb (N.eqb c QUESTION) && negb (N.eqb c EXCLAMATION)
      && nameChars tag
      && negb (streq tag (js "script")) && negb (streq tag (js "style"))
      && negb (arrayIncludes DEFAULT_SELF_CLOSING tag)
  end.

Definition canonicalName (name : jsstring) : bool :=
  match name with
  | [] => false
  | c :: _ => isLetter c && nameChars name
  end.

(** A value that can be written between quotes: it does not hold both
    kinds of quote. *)
Definition readableValue (value : option jsstring) : bool :=
  match value with
  | None => true
  | Some v => negb (hasChar DOUBLE_QUOTE v && hasChar SINGLE_QUOTE v)
  end.

Definition readableAttribute (kv : jsstring * option jsstring) : bool :=
  canonicalName (fst kv) && readableValue (snd kv).

Definition canonicalValue (value : option jsstring) : bool :=
  match value with
  | None => true
  | Some v => streq (trim v) v && readableValue value
  end.

Definition canonicalAttribute (kv : jsstring * option jsstring) : bool :=
  canonicalName (fst kv) && canonicalValue (snd kv).

Fixpoint uniqueNames (l : list jsstring) : bool :=
  match l with
  | [] => true
  | x :: l' => negb (memb x l') && uniqueNames l'
  end.

Definition canonicalText (s : jsstring) : bool :=
  (0 <? jslen s) && streq (trim s) s && negb (hasChar OPEN_BRACKET s).

(** No two text children in a row: they would be read back as one. *)
Fixpoint noAdjacentText (ch : list Child) : bool :=
  match ch with
  | [] => true
  | c :: ch' =>
      match c, ch' with
      | Str _, Str _ :: _ => false
      | _, _ => noAdjacentText ch'
      end
  end.

Fixpoint canonical (c : Child) {struct c} : bool :=
  match c with
  | Str s => canonicalText s
  | Elem tag attrs ch =>
      canonicalTag tag
      && forallb canonicalAttribute attrs
      && uniqueNames (map fst attrs)
      && forallb canonical ch
      && noAdjacentText ch
  end.

(** How a value is written after the name of its attribute. *)
Definition valueText (value : option jsstring) : jsstring :=
  match value with
  | None => []
  | Some v =>
      if hasChar DOUBLE_QUOTE v
      then [61%N; SINGLE_QUOTE] ++ v ++ [SINGLE_QUOTE]
      else [61%N; DOUBLE_QUOTE] ++ v ++ [DOUBLE_QUOTE]
  end.

Definition attributeText (kv : jsstring * option jsstring) : jsstring :=
  js " " ++ fst kv ++ valueText (snd kv).

(** [attributes[name] = value] for the attributes of a tag, in order. *)
Definition setAttributes (a attrs : Attributes) : Attributes :=
  fold_left (fun a kv => setAttribute a (fst kv) (snd kv)) attrs a.

Definition attributesText (attrs : Attributes) : jsstring :=
  concat (map attributeText attrs).

(** The close tag of an element. *)
Definition closeTagText (tag : jsstring) : jsstring :=
  [OPEN_BRACKET; SLASH] ++ tag ++ [CLOSE_BRACKET].

(** An open tag with its attributes. *)
Definition openTagText (tag : jsstring) (attrs : Attributes) : jsstring :=
  [OPEN_BRACKET] ++ tag ++ attributesText attrs ++ [CLOSE_BRACKET].

(** The text of a tree in canonical form. *)
Fixpoint documentText (c : Child) {struct c} : jsstring :=
  match c with
  | Str s => s
  | Elem tag attrs ch =>
      [OPEN_BRACKET] ++ tag ++ attributesText attrs ++ [CLOSE_BRACKET]
        ++ concat (map documentText ch)
        ++ [OPEN_BRACKET; SLASH] ++ tag ++ [CLOSE_BRACKET]
  end.

Definition childrenText (ch : list Child) : jsstring :=
  concat (map documentText ch).

(** Fuel that is enough to parse a tree, and a list of children up to the
    close tag of their parent. *)
Fixpoint fuelOf (c : Child) {struct c} : nat :=
  match c with
  | Str _ => 0
  | Elem _ _ ch =>
      Datatypes.S
        ((fix fuelOfList (l : list Child) : nat :=
            match l with
            | [] => 1%nat
            | c' :: l' => Datatypes.S (fuelOf c' + fuelOfList l')
            end) ch)
  end.

Fixpoint fuelOfList (l : list Child) : nat :=
  match l with
  | [] => 1%nat
  | c :: l' => Datatypes.S (fuelOf c + fuelOfList l')
  end.

(* ================================================================== *)
(** ** Declarations *)
(* ================================================================== *)



(* ================================================================== *)
(** ** Errors *)
(* ================================================================== *)






(* ================================================================== *)
(** ** Inputs on which [parse] does not return *)
(* ================================================================== *)

(** [{ attrValue: "x" }], the options [getElementById(S, "x")] passes. *)
Definition searchForX : ParseOptions.t :=
  ParseOptions.mk None None None false false false false false None
    (Some (literal (js "x"))) None.

(** A [script] element that is never closed, after eight characters. *)
Definition unclosedScript : jsstring := js "12345678<script>".

(** An attribute [id] with the value searched for, and no tag before it. *)
Definition attributeWithoutTag : jsstring :=
  js " id=" ++ dq ++ js "x" ++ dq.

(* ================================================================== *)
(** ** Comments pushed by the streaming adapters *)
(* ================================================================== *)

(** A comment with its two delimiters. *)
Definition TerminatedComment (text : jsstring) : Prop :=
  exists body, text = js "<!--" ++ body ++ js "-->".

(** An unterminated comment is not among the items. *)
Definition CommentsTerminated (items : list Item) : Prop :=
  forall text, In (Comment text) items -> TerminatedComment text.

(* ================================================================== *)
(** ** Documents with a wrong close tag *)
(* ================================================================== *)



Definition canonicalChildren (ch : list Child) : bool :=
  forallb canonical ch && noAdjacentText ch.



(* ================================================================== *)
(** ** [simplifyLostLess] *)
(* ================================================================== *)







(** An element whose content is empty or one text. *)
Definition textOnly (ch : list Child) : bool :=
  match ch with
  | [] => true
  | [Str _] => true
  | _ => false
  end.

(** The tree without the attributes of the elements whose content is
    empty or one text. *)
Fixpoint withoutLeafAttributes (c : Child) {struct c} : Child :=
  match c with
  | Str s => Str s
  | Elem tag attrs ch =>
      Elem tag (if textOnly ch then [] else attrs)
        (map withoutLeafAttributes ch)
  end.

(* ================================================================== *)
(** ** The elements of a tree *)
(* ================================================================== *)

(** The elements of a tree in document order, each one before the
    elements inside it. *)
Fixpoint elementsOf (c : Child) {struct c} : list TNode :=
  match c with
  | Str _ => []
  | Elem tag attrs ch => asNode tag attrs ch :: flat_map elementsOf ch
  end.

Definition descendants (l : list Child) : list TNode :=
  flat_map elementsOf l.

(** The element children of a list. *)
Definition elementChildren (l : list Child) : list TNode :=
  flat_map (fun c => match c with
                     | Elem tag attrs ch => [asNode tag attrs ch]
                     | Str _ => []
                     end) l.

(* ================================================================== *)
(** ** Trees before [stringify] *)
(* ================================================================== *)






(* ================================================================== *)
(** ** Pieces of a document *)
(* ================================================================== *)

(** What the text branch of [parseChildren] pushes for the text it read:
    the text itself with [keepWhitespace], and otherwise the trimmed text
    unless it is empty. *)
Definition keptText (keepWhitespace : bool) (text : jsstring) : list Child :=
  if keepWhitespace then
    if 0 <? jslen text then [Str text] else []
  else
    let trimmed := trim text in
    if 0 <? jslen trimmed then [Str trimmed] else [].

(** A processing instruction or XML declaration: its name starts with a
    question mark, and its text ends with [?>]. *)
Definition declarationTag (tag : jsstring) : bool :=
  startsWith [QUESTION] tag && nameChars tag.

Definition declarationText (tag : jsstring) (attrs : Attributes) : jsstring :=
  [OPEN_BRACKET] ++ tag ++ attributesText attrs ++ [QUESTION; CLOSE_BRACKET].

(** Every attribute has a value. *)
Definition valued (attrs : Attributes) : bool :=
  forallb (fun kv => match snd kv with
                     | Some _ => true
                     | None => false
                     end) attrs.

(** A tag that stops in an attribute value whose closing quote is
    missing: the name of the attribute, the opening quote [q] and what is
    left of the text. *)
Definition unclosedTagText (tag : jsstring) (attrs : Attributes)
    (name : jsstring) (q : N) (v : jsstring) : jsstring :=
  [OPEN_BRACKET] ++ tag ++ attributesText attrs
    ++ js " " ++ name ++ [61%N; q] ++ v.

(* ================================================================== *)
(** ** Elements in a stream *)
(* ================================================================== *)

(** Canonical elements that follow each other. *)
Definition canonicalElements (els : list Child) : bool :=
  forallb (fun c => isElem c && canonical c) els.

(** What an adapter pushes for elements that follow each other in its
    buffer from position [p] on: each element with the position behind
    it. *)
Fixpoint pushedElements (p : Z) (els : list Child) : list Item :=
  match els with
  | [] => []
  | c :: els' =>
      let p' := p + jslen (documentText c) in
      match c with
      | Elem tag attrs ch =>
          Parsed (mkTNode tag attrs ch) p' :: pushedElements p' els'
      | Str _ => pushedElements p' els'
      end
  end.

(* ================================================================== *)
(** ** [getElementById] and [getElementsByClassName] *)
(* ================================================================== *)










(** An open tag whose last attribute is written [name=word], the value
    without quotes. *)
Definition unquotedTagText (tag : jsstring) (attrs : Attributes)
    (name word : jsstring) : jsstring :=
  [OPEN_BRACKET] ++ tag ++ attributesText attrs
    ++ js " " ++ name ++ js "=" ++ word ++ [CLOSE_BRACKET].

(* ================================================================== *)
(** * Properties *)
(* ================================================================== *)

(** ** Strings *)

Lemma streq_refl (a : jsstring) : streq a a = true.
Proof.
  induction a as [|x a IH]; simpl; [reflexivity|].
  now rewrite N.eqb_refl, IH.
Qed.

Lemma streq_eq (a b : jsstring) : streq a b = true <-> a = b.
Proof.
  split; [|intros ->; apply streq_refl].
  revert b; induction a as [|x a IH]; intros [|y b]; simpl; try discriminate.
  - reflexivity.
  - intros H. apply andb_true_iff in H as [Hx Hab].
    apply N.eqb_eq in Hx. f_equal; auto.
Qed.

Lemma streq_neq (a b : jsstring) : streq a b = false <-> a <> b.
Proof.
  split.
  - intros H E. apply streq_eq in E. congruence.
  - intros H. destruct (streq a b) eqn:E; [|reflexivity].
    apply streq_eq in E. contradiction.
Qed.

(** ** Fuel *)

Lemma settled_refl {A} (r : result A) : settled r r.
Proof. intros _; reflexivity. Qed.

Lemma settled_bind {A B} (r r' : result A) (k k' : A -> result B) :
  settled r r' -> (forall a, settled (k a) (k' a)) ->
  settled (bind r k) (bind r' k').
Proof.
  intros Hr Hk H. destruct r as [a| |]; simpl in *.
  - rewrite Hr by discriminate. simpl. now apply Hk.
  - now rewrite Hr.
  - congruence.
Qed.

Section ScannerFuel.

Variable S : jsstring.
Variable keepComments keepWhitespace : bool.
Variable selfClosingTags : list jsstring.

Lemma parseChildrenBody_settled loop loop' node node' tagName pos children :
  (forall t p c, settled (loop t p c) (loop' t p c)) ->
  (forall p, settled (node p) (node' p)) ->
  settled
    (parseChildrenBody S keepComments keepWhitespace loop node
       tagName pos children)
    (parseChildrenBody S keepComments keepWhitespace loop' node'
       tagName pos children).
Proof.
  intros Hl Hn. unfold parseChildrenBody.
  repeat match goal with
         | |- settled (match ?x with _ => _ end) _ => destruct x
         | |- settled (if ?x then _ else _) _ => destruct x
         | |- settled (let '(_, _) := ?x in _) _ => destruct x
         | |- settled (bind _ _) _ =>
             apply settled_bind; [try apply settled_refl; auto | intros]
         | |- settled (Done _) _ => apply settled_refl
         | |- settled (Throw _) _ => apply settled_refl
         | |- settled (loop _ _ _) _ => apply Hl
         | |- _ => progress cbv zeta
         end.
Qed.

Lemma parseNodeBody_settled call call' pos :
  (forall t p, settled (call t p) (call' t p)) ->
  settled (parseNodeBody S selfClosingTags call pos)
          (parseNodeBody S selfClosingTags call' pos).
Proof.
  intros Hc. unfold parseNodeBody.
  repeat match goal with
         | |- settled (match ?x with _ => _ end) _ => destruct x
         | |- settled (if ?x then _ else _) _ => destruct x
         | |- settled (let '(_, _) := ?x in _) _ => destruct x
         | |- settled (bind _ _) _ =>
             apply settled_bind; [try apply settled_refl; auto | intros]
         | |- settled (Done _) _ => apply settled_refl
         | |- _ => progress cbv zeta
         end.
Qed.

Lemma fuel_step (fuel : nat) :
  (forall tagName pos children,
      settled
        (parseChildren S keepComments keepWhitespace selfClosingTags
           fuel tagName pos children)
        (parseChildren S keepComments keepWhitespace selfClosingTags
           (Datatypes.S fuel) tagName pos children))
  /\ (forall pos,
      settled
        (parseNode S keepComments keepWhitespace selfClosingTags fuel pos)
        (parseNode S keepComments keepWhitespace selfClosingTags
           (Datatypes.S fuel) pos)).
Proof.
  induction fuel as [|fuel [IHc IHn]].
  - split; intros; intros H; simpl in H; congruence.
  - split; intros.
    + apply parseChildrenBody_settled; auto.
    + apply parseNodeBody_settled; auto.
Qed.

(** More fuel does not change a result that was reached. *)
Lemma parseChildren_fuel (fuel fuel' : nat) tagName pos children r :
  parseChildren S keepComments keepWhitespace selfClosingTags
    fuel tagName pos children = r ->
  r <> OutOfFuel -> (fuel <= fuel')%nat ->
  parseChildren S keepComments keepWhitespace selfClosingTags
    fuel' tagName pos children = r.
Proof.
  intros H Hr Hle. induction Hle as [|m Hle IH]; [assumption|].
  destruct (fuel_step m) as [Hc _]. rewrite <- IH. apply Hc. now rewrite IH.
Qed.


End ScannerFuel.

Section ParseFuel.

Variable options : ParseOptions.t.

Lemma searchLoop_step (fuel : nat) :
  forall S out,
    settled (searchLoop options fuel S out)
            (searchLoop options (Datatypes.S fuel) S out).
Proof.
  induction fuel as [|fuel IH]; intros S out.
  - intros H; simpl in H; congruence.
  - change (searchLoop options (Datatypes.S fuel) S out) with
      (let pos := findElements options S in
       if pos =? -1 then Done (out, pos)
       else
         let pos := lastIndexOf S [OPEN_BRACKET] pos in
         if negb (pos =? -1) then
           ' (node, pos) <-
               parseNode S (keepComments options) (keepWhitespace options)
                 (selfClosingTags options) fuel pos ;;
           searchLoop options fuel (substringFrom S pos) (out ++ [ofNode node])
         else searchLoop options fuel (substringFrom S pos) out).
    change (searchLoop options (Datatypes.S (Datatypes.S fuel)) S out) with
      (let pos := findElements options S in
       if pos =? -1 then Done (out, pos)
       else
         let pos := lastIndexOf S [OPEN_BRACKET] pos in
         if negb (pos =? -1) then
           ' (node, pos) <-
               parseNode S (keepComments options) (keepWhitespace options)
                 (selfClosingTags options) (Datatypes.S fuel) pos ;;
           searchLoop options (Datatypes.S fuel) (substringFrom S pos)
             (out ++ [ofNode node])
         else searchLoop options (Datatypes.S fuel) (substringFrom S pos) out).
    cbv zeta.
    destruct (findElements options S =? -1); [apply settled_refl|].
    destruct (negb _); [|apply IH].
    apply settled_bind.
    + apply fuel_step.
    + intros [node pos]. apply IH.
Qed.

Lemma parse_step (fuel : nat) (S : jsstring) :
  settled (parse options fuel S) (parse options (Datatypes.S fuel) S).
Proof.
  unfold parse, parseSingleNode.
  destruct (ParseOptions.attrValue options).
  - apply settled_bind; [apply searchLoop_step|].
    intros [out pos]. apply settled_refl.
  - destruct (ParseOptions.parseNode options).
    + apply settled_bind; [apply fuel_step|].
      intros [out pos]. apply settled_refl.
    + apply settled_bind; [apply fuel_step|].
      intros [out pos]. apply settled_refl.
Qed.

(** More fuel does not change what [parse] returned or threw. *)
Lemma parse_fuel (fuel fuel' : nat) (S : jsstring) r :
  parse options fuel S = r -> r <> OutOfFuel -> (fuel <= fuel')%nat ->
  parse options fuel' S = r.
Proof.
  intros H Hr Hle. induction Hle as [|m Hle IH]; [assumption|].
  rewrite <- IH. apply parse_step. now rewrite IH.
Qed.

End ParseFuel.

(** ** The content extractor *)

(** C8.  [toContentString] gives, for a text leaf, one space followed by
    the raw text; for a list, the content strings of its elements joined by
    one space and trimmed; for an element, the content string of its
    children; and the parse of [<test>f<case number="2">f</case>f</test>]
    has the content string [f f  f], with its doubled space. *)
Theorem toContentString_cases :
  (forall s, toContentString (DomChild (Str s)) = js " " ++ s)
  /\ (forall l,
        toContentString (DomList l)
        = trim (join (js " ")
                  (map (fun e => toContentString (DomChild e)) l)))
  /\ (forall tag attrs ch,
        toContentString (DomChild (Elem tag attrs ch))
        = toContentString (DomList ch))
  /\ (exists out,
        (forall fuel, (20 <= fuel)%nat ->
           parse ParseOptions.default fuel
             (js "<test>f<case number=" ++ dq ++ js "2" ++ dq
                ++ js ">f</case>f</test>")
           = Done (Nodes out))
        /\ toContentString (DomList out) = js "f f  f").
Proof.
  split; [reflexivity|].
  split; [reflexivity|].
  split; [reflexivity|].
  eexists. split.
  - intros fuel Hf. eapply parse_fuel; [|discriminate|exact Hf].
    vm_compute. reflexivity.
  - vm_compute. reflexivity.
Qed.

(** ** Trees *)

(** Induction over a tree, with the hypothesis for every child. *)
Lemma Child_forall_ind (P : Child -> Prop) :
  (forall s, P (Str s)) ->
  (forall tag attrs ch, Forall P ch -> P (Elem tag attrs ch)) ->
  forall c, P c.
Proof.
  intros HS HE. fix IH 1. intros [s|tag attrs ch].
  - apply HS.
  - apply HE. induction ch as [|c ch IHch]; constructor; [apply IH|exact IHch].
Qed.

(** ** [simplify] against the grouping the specification describes *)

Lemma streq_sym (a b : jsstring) : streq a b = streq b a.
Proof.
  destruct (streq a b) eqn:E.
  - apply streq_eq in E. subst. symmetry. apply streq_refl.
  - apply streq_neq in E. symmetry. apply streq_neq. congruence.
Qed.


Lemma memb_filter (t x : jsstring) (l : list jsstring) :
  memb t (List.filter (fun y => negb (streq y x)) l)
  = memb t l && negb (streq t x).
Proof.
  induction l as [|y l IH]; simpl; [reflexivity|].
  destruct (streq y x) eqn:Eyx; simpl.
  - rewrite IH. apply streq_eq in Eyx. subst y.
    destruct (streq t x); simpl; [now rewrite andb_false_r|reflexivity].
  - rewrite IH. destruct (streq t y) eqn:Ety; simpl; [|reflexivity].
    apply streq_eq in Ety. subst y. now rewrite Eyx.
Qed.

Lemma memb_distinct (t : jsstring) (l : list jsstring) :
  memb t (distinct l) = memb t l.
Proof.
  induction l as [|x l IH]; [reflexivity|].
  simpl. change (existsb (streq t) ?l) with (memb t l).
  rewrite memb_filter, IH.
  destruct (streq t x); simpl; [reflexivity|now rewrite andb_true_r].
Qed.

Lemma distinct_snoc (l : list jsstring) (t : jsstring) :
  distinct (l ++ [t]) = if memb t l then distinct l else distinct l ++ [t].
Proof.
  induction l as [|x l IH]; [reflexivity|].
  simpl. rewrite IH. destruct (streq t x) eqn:Etx; simpl.
  - destruct (memb t l); [reflexivity|].
    rewrite filter_app. simpl. rewrite Etx. simpl. now rewrite app_nil_r.
  - destruct (memb t l); [reflexivity|].
    rewrite filter_app. simpl. now rewrite Etx.
Qed.


Section Grouping.

Variable kidsOf : Child -> value.










End Grouping.






(** ** Positions in a text *)

(** Lists of code units, right-nested. *)
Ltac norm_app :=
  repeat (rewrite <- app_assoc || rewrite <- app_comm_cons || rewrite app_nil_r
          || rewrite app_nil_l); cbn [app].
Ltac norm_app_in H :=
  repeat (rewrite <- app_assoc in H || rewrite <- app_comm_cons in H
          || rewrite app_nil_r in H || rewrite app_nil_l in H);
  cbn [app] in H.

Lemma jslen_nonneg (s : jsstring) : 0 <= jslen s.
Proof. unfold jslen. lia. Qed.

Lemma jslen_app (a b : jsstring) : jslen (a ++ b) = jslen a + jslen b.
Proof. unfold jslen. rewrite length_app. lia. Qed.

Lemma jslen_cons (c : N) (s : jsstring) : jslen (c :: s) = 1 + jslen s.
Proof. unfold jslen. simpl length. lia. Qed.

Lemma jslen_nil : jslen [] = 0.
Proof. reflexivity. Qed.

Lemma to_nat_jslen (s : jsstring) : Z.to_nat (jslen s) = length s.
Proof. unfold jslen. lia. Qed.

Lemma charCodeAt_app (pre rest : jsstring) (i : Z) :
  0 <= i -> charCodeAt (pre ++ rest) (jslen pre + i) = charCodeAt rest i.
Proof.
  intros Hi. unfold charCodeAt.
  pose proof (jslen_nonneg pre).
  destruct (Z.ltb_spec (jslen pre + i) 0) as [?|_]; [lia|].
  destruct (Z.ltb_spec i 0) as [?|_]; [lia|].
  replace (Z.to_nat (jslen pre + i)) with (length pre + Z.to_nat i)%nat
    by (unfold jslen; lia).
  rewrite nth_error_app2 by lia. f_equal. lia.
Qed.

Lemma charCodeAt_here (pre rest : jsstring) :
  charCodeAt (pre ++ rest) (jslen pre) = charCodeAt rest 0.
Proof.
  replace (jslen pre) with (jslen pre + 0) by lia.
  now apply charCodeAt_app.
Qed.

Lemma charCodeAt_cons (c : N) (s : jsstring) (i : Z) :
  0 <= i -> charCodeAt (c :: s) (1 + i) = charCodeAt s i.
Proof.
  intros Hi. change (c :: s) with ([c] ++ s).
  change 1 with (jslen [c]). now apply charCodeAt_app.
Qed.

Lemma charCodeAt_0 (c : N) (s : jsstring) : charCodeAt (c :: s) 0 = Some c.
Proof. reflexivity. Qed.

Lemma charCodeAt_outside (s : jsstring) (i : Z) :
  jslen s <= i -> charCodeAt s i = None.
Proof.
  intros Hi. unfold charCodeAt. pose proof (jslen_nonneg s).
  destruct (Z.ltb_spec i 0) as [?|?]; [reflexivity|].
  apply nth_error_None. unfold jslen in *. lia.
Qed.

Lemma charCodeAt_Some (s : jsstring) (i : Z) (c : N) :
  charCodeAt s i = Some c -> 0 <= i < jslen s.
Proof.
  unfold charCodeAt. destruct (Z.ltb_spec i 0) as [?|Hi]; [discriminate|].
  intros H. assert (Hn : nth_error s (Z.to_nat i) <> None) by congruence.
  apply nth_error_Some in Hn. unfold jslen. lia.
Qed.

Lemma suffixFrom_app (pre rest : jsstring) :
  suffixFrom (pre ++ rest) (jslen pre) = rest.
Proof.
  unfold suffixFrom. pose proof (jslen_nonneg pre).
  destruct (Z.ltb_spec (jslen pre) 0) as [?|_]; [lia|].
  rewrite to_nat_jslen.
  rewrite skipn_app, skipn_all, Nat.sub_diag. reflexivity.
Qed.

Lemma clamp_inside (s : jsstring) (i : Z) :
  0 <= i <= jslen s -> clamp s i = i.
Proof. unfold clamp. lia. Qed.

Lemma substring_app (pre mid rest : jsstring) :
  substring (pre ++ mid ++ rest) (jslen pre) (jslen pre + jslen mid) = mid.
Proof.
  unfold substring.
  pose proof (jslen_nonneg pre). pose proof (jslen_nonneg mid).
  pose proof (jslen_nonneg rest).
  rewrite !clamp_inside by (rewrite !jslen_app; lia).
  rewrite Z.min_l, Z.max_r by lia.
  replace (jslen pre + jslen mid - jslen pre) with (jslen mid) by lia.
  rewrite !to_nat_jslen.
  rewrite skipn_app, skipn_all, Nat.sub_diag. simpl.
  rewrite firstn_app, firstn_all, Nat.sub_diag. simpl. apply app_nil_r.
Qed.

Lemma sliceIndex_inside (s : jsstring) (i : Z) :
  0 <= i <= jslen s -> sliceIndex s i = i.
Proof.
  intros H. unfold sliceIndex. destruct (Z.ltb_spec i 0) as [?|?]; lia.
Qed.

Lemma slice_app (pre mid rest : jsstring) :
  slice (pre ++ mid ++ rest) (jslen pre) (jslen pre + jslen mid) = mid.
Proof.
  unfold slice.
  pose proof (jslen_nonneg pre). pose proof (jslen_nonneg mid).
  pose proof (jslen_nonneg rest).
  rewrite !sliceIndex_inside by (rewrite !jslen_app; lia).
  replace (jslen pre + jslen mid - jslen pre) with (jslen mid) by lia.
  rewrite !to_nat_jslen.
  rewrite skipn_app, skipn_all, Nat.sub_diag. simpl.
  rewrite firstn_app, firstn_all, Nat.sub_diag. simpl. apply app_nil_r.
Qed.

Lemma indexOf_app (pre l pat : jsstring) :
  indexOf (pre ++ l) pat (jslen pre) = indexOfFrom pat l (jslen pre).
Proof.
  unfold indexOf.
  pose proof (jslen_nonneg pre). pose proof (jslen_nonneg l).
  rewrite clamp_inside by (rewrite jslen_app; lia).
  rewrite to_nat_jslen, skipn_app, skipn_all, Nat.sub_diag. reflexivity.
Qed.

Lemma indexOfFrom_char_found (c : N) (mid rest : jsstring) (i : Z) :
  ~ In c mid -> indexOfFrom [c] (mid ++ c :: rest) i = i + jslen mid.
Proof.
  revert i. induction mid as [|x mid IH]; intros i Hc.
  - simpl. rewrite N.eqb_refl. simpl. rewrite jslen_nil. lia.
  - cbn [app indexOfFrom startsWith].
    destruct (N.eqb_spec c x) as [->|Hx]; [exfalso; apply Hc; now left|].
    simpl. rewrite IH by (intros H; apply Hc; now right).
    rewrite jslen_cons. lia.
Qed.

Lemma indexOfFrom_char_absent (c : N) (l : jsstring) (i : Z) :
  ~ In c l -> indexOfFrom [c] l i = -1.
Proof.
  revert i. induction l as [|x l IH]; intros i Hc; [reflexivity|].
  cbn [indexOfFrom startsWith].
  destruct (N.eqb_spec c x) as [->|Hx]; [exfalso; apply Hc; now left|].
  simpl. apply IH. intros H; apply Hc; now right.
Qed.

(** [Splits S p rest]: position [p] of [S] is where [rest] starts. *)

Lemma Splits_here (pre rest : jsstring) : Splits (pre ++ rest) (jslen pre) rest.
Proof. now exists pre. Qed.

Lemma Splits_start (S : jsstring) : Splits S 0 S.
Proof. now exists []. Qed.

Lemma Splits_nonneg S p rest : Splits S p rest -> 0 <= p.
Proof. intros [pre [-> ->]]. apply jslen_nonneg. Qed.

Lemma Splits_jslen S p rest : Splits S p rest -> jslen S = p + jslen rest.
Proof. intros [pre [-> ->]]. apply jslen_app. Qed.

Lemma Splits_skip S p a rest :
  Splits S p (a ++ rest) -> Splits S (p + jslen a) rest.
Proof.
  intros [pre [-> ->]]. exists (pre ++ a).
  now rewrite <- app_assoc, jslen_app.
Qed.

Lemma Splits_next S p c rest : Splits S p (c :: rest) -> Splits S (p + 1) rest.
Proof. intros H. apply (Splits_skip S p [c] rest H). Qed.

Lemma Splits_next_app S p c a rest :
  Splits S p ((c :: a) ++ rest) -> Splits S (p + 1) (a ++ rest).
Proof. intros H. apply (Splits_next S p c (a ++ rest) H). Qed.

Lemma Splits_char S p c rest : Splits S p (c :: rest) -> charCodeAt S p = Some c.
Proof. intros [pre [-> ->]]. now rewrite charCodeAt_here. Qed.


Lemma Splits_codeIs S p c rest d :
  Splits S p (c :: rest) -> codeIs S p d = N.eqb c d.
Proof. intros H. unfold codeIs. now rewrite (Splits_char _ _ _ _ H). Qed.

Lemma Splits_suffix S p rest : Splits S p rest -> suffixFrom S p = rest.
Proof. intros [pre [-> ->]]. apply suffixFrom_app. Qed.

Lemma Splits_slice S p mid rest :
  Splits S p (mid ++ rest) -> slice S p (p + jslen mid) = mid.
Proof. intros [pre [-> ->]]. apply slice_app. Qed.

Lemma Splits_substring S p mid rest :
  Splits S p (mid ++ rest) -> substring S p (p + jslen mid) = mid.
Proof. intros [pre [-> ->]]. apply substring_app. Qed.

Lemma Splits_indexOf S p l pat :
  Splits S p l -> indexOf S pat p = indexOfFrom pat l p.
Proof. intros [pre [-> ->]]. apply indexOf_app. Qed.

Lemma Splits_indexOf_char S p c mid rest :
  Splits S p (mid ++ c :: rest) -> ~ In c mid ->
  indexOf S [c] p = p + jslen mid.
Proof.
  intros H Hc. rewrite (Splits_indexOf _ _ _ _ H).
  now apply indexOfFrom_char_found.
Qed.

(** The character before the position. *)
Lemma Splits_before S p c rest :
  Splits S p (c :: rest) -> charCodeAt S (p + 1 - 1) = Some c.
Proof.
  intros H. replace (p + 1 - 1) with p by lia. eapply Splits_char; eauto.
Qed.

(** ** Reading back a canonical document *)

Lemma fuelOf_Elem tag attrs ch :
  fuelOf (Elem tag attrs ch) = Datatypes.S (fuelOfList ch).
Proof.
  reflexivity.
Qed.

Lemma hasChar_In (c : N) (s : jsstring) : hasChar c s = true <-> In c s.
Proof.
  unfold hasChar. rewrite existsb_exists. split.
  - intros [x [Hx E]]. apply N.eqb_eq in E. now subst.
  - intros H. exists c. split; [assumption|apply N.eqb_refl].
Qed.

Lemma hasChar_false (c : N) (s : jsstring) : hasChar c s = false -> ~ In c s.
Proof. intros H Hin. apply hasChar_In in Hin. congruence. Qed.

Lemma indexOfFrom_char (c : N) (l : jsstring) (i : Z) :
  0 <= i -> (indexOfFrom [c] l i =? -1) = negb (hasChar c l).
Proof.
  revert i. induction l as [|x l IH]; intros i Hi; [reflexivity|].
  cbn [indexOfFrom startsWith hasChar existsb].
  destruct (N.eqb c x); simpl.
  - apply Z.eqb_neq. lia.
  - apply IH. lia.
Qed.

Lemma includes_char (s : jsstring) (c : N) : includes s [c] = hasChar c s.
Proof.
  pose proof (jslen_nonneg s).
  unfold includes, indexOf. rewrite clamp_inside by lia.
  simpl skipn. rewrite indexOfFrom_char by lia. apply negb_involutive.
Qed.

Lemma includes_self (s : jsstring) : includes s s = true.
Proof.
  pose proof (jslen_nonneg s) as Hs.
  unfold includes, indexOf.
  rewrite clamp_inside by lia.
  simpl skipn. clear Hs.
  assert (H : startsWith s s = true).
  { induction s as [|c s IH]; simpl; [reflexivity|]. now rewrite N.eqb_refl. }
  destruct s as [|c s]; simpl in *; [reflexivity|]. now rewrite H.
Qed.

Lemma nameChars_In (s : jsstring) (c : N) :
  nameChars s = true -> isNameEnd c = true -> ~ In c s.
Proof.
  unfold nameChars. rewrite forallb_forall. intros H Hc Hin.
  apply H in Hin. now rewrite Hc in Hin.
Qed.

Lemma parseNameLoop_name (name : jsstring) (rest : jsstring) (p : Z) :
  nameChars name = true ->
  match rest with c :: _ => isNameEnd c = true | [] => True end ->
  parseNameLoop (name ++ rest) p = p + jslen name.
Proof.
  revert p. induction name as [|x name IH]; intros p Hn Hr.
  - simpl. rewrite jslen_nil. destruct rest as [|c rest]; simpl; [lia|].
    rewrite Hr. lia.
  - simpl in Hn. apply andb_true_iff in Hn as [Hx Hn].
    simpl. apply negb_true_iff in Hx. rewrite Hx.
    rewrite IH by assumption. rewrite jslen_cons. lia.
Qed.

Lemma parseName_name S p (name rest : jsstring) :
  Splits S p (name ++ rest) -> nameChars name = true ->
  match rest with c :: _ => isNameEnd c = true | [] => True end ->
  parseName S p = (name, p + jslen name).
Proof.
  intros H Hn Hr. unfold parseName.
  rewrite (Splits_suffix _ _ _ H), parseNameLoop_name by assumption.
  now rewrite (Splits_slice _ _ _ _ H).
Qed.

Section AttributeLoop.

Variable S : jsstring.

Lemma parseAttributes_end n p acc rest :
  Splits S p (CLOSE_BRACKET :: rest) ->
  parseAttributes S n p acc = Done (acc, p, false).
Proof.
  intros H. destruct n; simpl; now rewrite (Splits_char _ _ _ _ H).
Qed.

Lemma parseAttributes_other n p acc c rest :
  Splits S p (c :: rest) -> N.eqb c CLOSE_BRACKET = false ->
  isLetter c = false ->
  parseAttributes S (Datatypes.S n) p acc = parseAttributes S n (p + 1) acc.
Proof.
  intros H Hc Hl. simpl. now rewrite (Splits_char _ _ _ _ H), Hc, Hl.
Qed.

Lemma letter_not_close c : isLetter c = true -> N.eqb c CLOSE_BRACKET = false.
Proof.
  intros H. destruct (N.eqb_spec c CLOSE_BRACKET) as [->|]; [discriminate|].
  reflexivity.
Qed.

Lemma canonicalName_inv name :
  canonicalName name = true ->
  exists c name', name = c :: name' /\ isLetter c = true
                  /\ nameChars name = true.
Proof.
  destruct name as [|c name']; [discriminate|].
  unfold canonicalName. intros H. apply andb_true_iff in H as [Hc Hn].
  now exists c, name'.
Qed.

(** A quoted value. *)
Lemma parseAttributes_value n p acc name q v rest :
  Splits S p (name ++ [61%N; q] ++ v ++ q :: rest) ->
  canonicalName name = true -> isQuote q = true -> ~ In q v ->
  parseAttributes S (Datatypes.S n) p acc
  = parseAttributes S n (p + jslen (name ++ [61%N; q] ++ v ++ [q]))
      (setAttribute acc name (Some v)).
Proof.
  intros H Hname Hq Hv.
  destruct (canonicalName_inv _ Hname) as [c [name' [E [Hc Hn]]]].
  assert (Hchar : charCodeAt S p = Some c).
  { subst name. eapply Splits_char. exact H. }
  cbn [parseAttributes]. rewrite Hchar, (letter_not_close _ Hc), Hc.
  rewrite (parseName_name S p name _ H Hn) by reflexivity.
  pose proof (Splits_skip _ _ _ _ H) as H1.
  rewrite (Splits_suffix _ _ _ H1).
  assert (Hskip : skipToValue ([61%N; q] ++ v ++ q :: rest) (p + jslen name)
                  = p + jslen name + 1).
  { unfold isQuote in Hq. cbn [app skipToValue].
    change (N.eqb 61 0) with false. change (N.eqb 61 SINGLE_QUOTE) with false.
    change (N.eqb 61 DOUBLE_QUOTE) with false. change (isLetter 61) with false.
    change (N.eqb 61 CLOSE_BRACKET) with false. cbn [negb andb].
    apply orb_true_iff in Hq as [Hq|Hq]; rewrite Hq;
      rewrite ?andb_false_r; reflexivity. }
  rewrite Hskip.
  pose proof (Splits_next _ _ _ _ H1) as H2.
  assert (Hcode : codeIs S (p + jslen name + 1) SINGLE_QUOTE
                  || codeIs S (p + jslen name + 1) DOUBLE_QUOTE = true).
  { rewrite !(Splits_codeIs _ _ _ _ _ H2). exact Hq. }
  rewrite Hcode. unfold parseString.
  rewrite (Splits_char _ _ _ _ H2).
  pose proof (Splits_next _ _ _ _ H2) as H3.
  rewrite (Splits_indexOf_char _ _ _ _ _ H3 Hv).
  rewrite (Splits_slice _ _ _ _ H3).
  pose proof (Splits_nonneg _ _ _ H3). pose proof (jslen_nonneg v).
  destruct (Z.eqb_spec (p + jslen name + 1 + 1 + jslen v) (-1)); [lia|].
  f_equal. rewrite !jslen_app, !jslen_cons, jslen_nil.
  change (jslen [61%N; q]) with 2. lia.
Qed.

(** A name without a value, before the end of the tag. *)
Lemma parseAttributes_flag_end n p acc name rest :
  Splits S p (name ++ CLOSE_BRACKET :: rest) ->
  canonicalName name = true ->
  parseAttributes S (Datatypes.S n) p acc
  = parseAttributes S n (p + jslen name) (setAttribute acc name None).
Proof.
  intros H Hname.
  destruct (canonicalName_inv _ Hname) as [c [name' [E [Hc Hn]]]].
  assert (Hchar : charCodeAt S p = Some c).
  { subst name. eapply Splits_char. exact H. }
  cbn [parseAttributes]. rewrite Hchar, (letter_not_close _ Hc), Hc.
  rewrite (parseName_name S p name _ H Hn) by reflexivity.
  pose proof (Splits_skip _ _ _ _ H) as H1.
  rewrite (Splits_suffix _ _ _ H1). cbn [skipToValue].
  change (N.eqb CLOSE_BRACKET CLOSE_BRACKET) with true.
  rewrite !andb_false_r.
  rewrite !(Splits_codeIs _ _ _ _ _ H1).
  change (N.eqb CLOSE_BRACKET SINGLE_QUOTE) with false.
  change (N.eqb CLOSE_BRACKET DOUBLE_QUOTE) with false.
  cbn [orb]. f_equal. lia.
Qed.

(** A name without a value, before the next attribute. *)
Lemma parseAttributes_flag_more n p acc name c rest :
  Splits S p (name ++ 32%N :: c :: rest) ->
  canonicalName name = true -> isLetter c = true ->
  parseAttributes S (Datatypes.S n) p acc
  = parseAttributes S n (p + jslen name + 1) (setAttribute acc name None).
Proof.
  intros H Hname Hletter.
  destruct (canonicalName_inv _ Hname) as [c0 [name' [E [Hc Hn]]]].
  assert (Hchar : charCodeAt S p = Some c0).
  { subst name. eapply Splits_char. exact H. }
  cbn [parseAttributes]. rewrite Hchar, (letter_not_close _ Hc), Hc.
  rewrite (parseName_name S p name _ H Hn) by reflexivity.
  pose proof (Splits_skip _ _ _ _ H) as H1.
  rewrite (Splits_suffix _ _ _ H1). cbn [skipToValue].
  change (N.eqb 32 0) with false. change (N.eqb 32 SINGLE_QUOTE) with false.
  change (N.eqb 32 DOUBLE_QUOTE) with false. change (isLetter 32) with false.
  change (N.eqb 32 CLOSE_BRACKET) with false. cbn [negb andb].
  rewrite Hletter. rewrite !andb_false_r. cbn [negb andb].
  pose proof (Splits_next _ _ _ _ H1) as H2.
  rewrite !(Splits_codeIs _ _ _ _ _ H2).
  assert (Hq : N.eqb c SINGLE_QUOTE || N.eqb c DOUBLE_QUOTE = false).
  { destruct (N.eqb_spec c SINGLE_QUOTE) as [->|]; [discriminate|].
    destruct (N.eqb_spec c DOUBLE_QUOTE) as [->|]; [discriminate|].
    reflexivity. }
  rewrite Hq. f_equal. lia.
Qed.

End AttributeLoop.

Lemma readableValue_quote (v : jsstring) :
  readableValue (Some v) = true ->
  exists q, isQuote q = true /\ ~ In q v
            /\ valueText (Some v) = [61%N; q] ++ v ++ [q].
Proof.
  unfold readableValue, valueText. intros H.
  apply negb_true_iff in H.
  destruct (hasChar DOUBLE_QUOTE v) eqn:Hd.
  - exists SINGLE_QUOTE. simpl in H. repeat split.
    now apply hasChar_false.
  - exists DOUBLE_QUOTE. repeat split. now apply hasChar_false.
Qed.

Lemma attributesText_cons kv attrs :
  attributesText (kv :: attrs)
  = 32%N :: fst kv ++ valueText (snd kv) ++ attributesText attrs.
Proof.
  unfold attributesText, attributeText. simpl. now rewrite <- !app_assoc.
Qed.

Lemma parseAttributes_readable (S : jsstring) (attrs : Attributes) :
  forallb readableAttribute attrs = true ->
  (forall n p acc rest,
      Splits S p (attributesText attrs ++ CLOSE_BRACKET :: rest) ->
      (2 * length attrs <= n)%nat ->
      parseAttributes S n p acc
      = Done (setAttributes acc attrs, p + jslen (attributesText attrs), false))
  /\ (forall name value n p acc rest,
      canonicalName name = true -> readableValue value = true ->
      Splits S p (name ++ valueText value ++ attributesText attrs
                    ++ CLOSE_BRACKET :: rest) ->
      (1 + 2 * length attrs <= n)%nat ->
      parseAttributes S n p acc
      = Done (setAttributes (setAttribute acc name value) attrs,
              p + jslen (name ++ valueText value ++ attributesText attrs),
              false)).
Proof.
  induction attrs as [|[name' value'] attrs IH]; intros Hall.
  - split.
    + intros n p acc rest H _. simpl in *.
      rewrite (parseAttributes_end _ _ _ _ _ H). do 3 f_equal.
      change (jslen (attributesText [])) with 0. lia.
    + intros name value n p acc rest Hname Hvalue H Hn.
      destruct n as [|n]; [lia|]. destruct value as [v|].
      * destruct (readableValue_quote v Hvalue) as [q [Hq [Hv E]]].
        rewrite E in *. simpl attributesText in *. rewrite app_nil_l in H.
        rewrite <- !app_assoc in H.
        rewrite (parseAttributes_value S n p acc name q v _ H Hname Hq Hv).
        assert (H' : Splits S (p + jslen (name ++ [61%N; q] ++ v ++ [q]))
                       (CLOSE_BRACKET :: rest)).
        { apply Splits_skip. now rewrite <- !app_assoc. }
        rewrite (parseAttributes_end _ _ _ _ _ H').
        change (attributesText []) with (@nil N).
        now rewrite app_nil_r.
      * simpl in H. simpl valueText. simpl attributesText.
        rewrite (parseAttributes_flag_end S n p acc name rest H Hname).
        rewrite (parseAttributes_end S n _ _ rest)
          by (now apply Splits_skip).
        now rewrite app_nil_r.
  - simpl in Hall. apply andb_true_iff in Hall as [Ha Hall].
    unfold readableAttribute in Ha. simpl in Ha.
    apply andb_true_iff in Ha as [Hname' Hvalue'].
    destruct (IH Hall) as [IHA IHA'].
    assert (A : forall n p acc rest,
      Splits S p (attributesText ((name', value') :: attrs)
                    ++ CLOSE_BRACKET :: rest) ->
      (2 * length ((name', value') :: attrs) <= n)%nat ->
      parseAttributes S n p acc
      = Done (setAttributes acc ((name', value') :: attrs),
              p + jslen (attributesText ((name', value') :: attrs)), false)).
    { intros n p acc rest H Hn. simpl length in Hn.
      destruct n as [|n]; [lia|].
      rewrite attributesText_cons in *. simpl fst in *. simpl snd in *.
      rewrite (parseAttributes_other S n p acc 32%N _ H) by reflexivity.
      rewrite (IHA' name' value' n (p + 1) acc rest Hname' Hvalue').
      - simpl setAttributes. do 3 f_equal. rewrite jslen_cons. lia.
      - apply Splits_next_app in H. now rewrite <- !app_assoc in H.
      - lia. }
    split; [exact A|].
    intros name value n p acc rest Hname Hvalue H Hn.
    simpl length in Hn. destruct n as [|n]; [lia|].
    destruct value as [v|].
    + destruct (readableValue_quote v Hvalue) as [q [Hq [Hv E]]].
      rewrite E in *. rewrite <- !app_assoc in H.
      rewrite (parseAttributes_value S n p acc name q v _ H Hname Hq Hv).
      rewrite (A n _ _ rest).
      * do 3 f_equal. rewrite !jslen_app. lia.
      * apply Splits_skip. now rewrite <- !app_assoc.
      * simpl length. lia.
    + simpl valueText in *. rewrite app_nil_l in *.
      rewrite attributesText_cons in *. simpl fst in *. simpl snd in *.
      destruct (canonicalName_inv _ Hname') as [c [tl [E [Hc Hn']]]].
      assert (H0 : Splits S p (name ++ 32%N :: c :: tl ++ valueText value'
                                 ++ attributesText attrs
                                 ++ CLOSE_BRACKET :: rest)).
      { rewrite E in H. cbn [app] in H. rewrite <- ?app_assoc in H.
        exact H. }
      rewrite (parseAttributes_flag_more S n p acc name c _ H0 Hname Hc).
      rewrite (IHA' name' value' n (p + jslen name + 1) _ rest Hname' Hvalue').
      * simpl setAttributes. do 3 f_equal.
        rewrite !jslen_app, jslen_cons, !jslen_app. lia.
      * apply Splits_skip in H0. apply Splits_next in H0.
        rewrite E. exact H0.
      * lia.
Qed.

Lemma memb_app_false x l1 l2 :
  memb x (l1 ++ l2) = false -> memb x l1 = false /\ memb x l2 = false.
Proof.
  unfold memb. rewrite existsb_app. apply orb_false_iff.
Qed.

Lemma uniqueNames_middle l1 x l2 :
  uniqueNames (l1 ++ x :: l2) = true -> memb x l1 = false.
Proof.
  induction l1 as [|y l1 IH]; [reflexivity|].
  simpl. intros H. apply andb_true_iff in H as [Hy H].
  apply negb_true_iff in Hy. apply memb_app_false in Hy as [_ Hy].
  simpl in Hy. apply orb_false_iff in Hy as [Hy _].
  rewrite streq_sym, Hy. simpl. now apply IH.
Qed.

Lemma setAttribute_fresh (acc : Attributes) name v :
  memb name (map fst acc) = false ->
  setAttribute acc name v = acc ++ [(name, v)].
Proof.
  induction acc as [|[k w] acc IH]; [reflexivity|].
  simpl. intros H. apply orb_false_iff in H as [Hk H].
  rewrite streq_sym, Hk. now rewrite IH.
Qed.

Lemma setAttributes_unique (acc attrs : Attributes) :
  uniqueNames (map fst (acc ++ attrs)) = true ->
  setAttributes acc attrs = acc ++ attrs.
Proof.
  revert acc. induction attrs as [|[k v] attrs IH]; intros acc H.
  - now rewrite app_nil_r.
  - change (setAttributes acc ((k, v) :: attrs))
      with (setAttributes (setAttribute acc k v) attrs).
    rewrite setAttribute_fresh.
    + rewrite IH; rewrite <- app_assoc; [reflexivity|exact H].
    + rewrite map_app in H. simpl in H. now apply uniqueNames_middle in H.
Qed.

(** The serializer writes a canonical tree as its document text. *)
Lemma writeAttribute_canonical kv :
  canonicalAttribute kv = true ->
  writeAttribute StringifyOptions.none kv = attributeText kv.
Proof.
  destruct kv as [k [v|]]; unfold canonicalAttribute; simpl fst; simpl snd;
    intros H; apply andb_true_iff in H as [_ H];
    [|unfold attributeText; simpl; now rewrite app_nil_r].
  unfold canonicalValue in H. apply andb_true_iff in H as [Ht _].
  apply streq_eq in Ht.
  unfold writeAttribute, attributeText, valueText. simpl test. cbv iota.
  rewrite includes_char, Ht. simpl fst. simpl snd.
  destruct (hasChar DOUBLE_QUOTE v) eqn:Hd; rewrite ?Hd; reflexivity.
Qed.

Lemma canonicalTag_inv tag :
  canonicalTag tag = true ->
  exists c tl, tag = c :: tl
    /\ N.eqb c QUESTION = false /\ N.eqb c EXCLAMATION = false
    /\ nameChars tag = true
    /\ streq tag (js "script") = false /\ streq tag (js "style") = false
    /\ arrayIncludes DEFAULT_SELF_CLOSING tag = false.
Proof.
  destruct tag as [|c tl]; [discriminate|]. unfold canonicalTag.
  intros H. repeat (apply andb_true_iff in H as [H ?]).
  exists c, tl. repeat split; try (now apply negb_true_iff); assumption.
Qed.

Lemma writeNode_canonical (c : Child) :
  canonical c = true ->
  forall depth compact,
    writeNode StringifyOptions.none depth compact c = documentText c.
Proof.
  induction c as [s|tag attrs ch IH] using Child_forall_ind;
    intros Hc depth compact.
  - simpl in Hc. unfold canonicalText in Hc.
    apply andb_true_iff in Hc as [Hc _]. apply andb_true_iff in Hc as [Hl Ht].
    apply streq_eq in Ht. simpl. rewrite Ht, Hl.
    now rewrite andb_false_r.
  - simpl in Hc. repeat (apply andb_true_iff in Hc as [Hc ?]).
    destruct (canonicalTag_inv _ Hc) as [c0 [tl [E [Hq _]]]].
    cbn [writeNode documentText]. simpl test. cbv iota.
    change (0 <? jslen (indent StringifyOptions.none)) with false.
    rewrite !andb_false_r, !orb_false_r. cbn [andb].
    assert (Hs : startsWith [QUESTION] tag = false).
    { subst tag. cbn [startsWith]. rewrite N.eqb_sym, Hq. reflexivity. }
    rewrite Hs.
    assert (Ha : concat (map (writeAttribute StringifyOptions.none) attrs)
                 = attributesText attrs).
    { unfold attributesText. f_equal. apply map_ext_in. intros kv Hin.
      apply writeAttribute_canonical.
      match goal with
      | Hf : forallb canonicalAttribute attrs = true |- _ =>
          rewrite forallb_forall in Hf; now apply Hf
      end. }
    rewrite Ha.
    assert (Hch : map (writeNode StringifyOptions.none (Datatypes.S depth)
                         compact) ch
                  = map documentText ch).
    { match goal with
      | Hf : forallb canonical ch = true |- _ =>
          rewrite forallb_forall in Hf; rename Hf into Hcan
      end.
      rewrite Forall_forall in IH.
      apply map_ext_in. intros c Hin. apply IH; auto. }
    rewrite Hch. reflexivity.
Qed.

Lemma jslen_documentText tag attrs ch :
  jslen (documentText (Elem tag attrs ch))
  = 1 + jslen tag + jslen (attributesText attrs) + 1
    + jslen (childrenText ch) + 3 + jslen tag.
Proof.
  change (documentText (Elem tag attrs ch))
    with ([OPEN_BRACKET] ++ tag ++ attributesText attrs ++ [CLOSE_BRACKET]
            ++ childrenText ch
            ++ [OPEN_BRACKET; SLASH] ++ tag ++ [CLOSE_BRACKET]).
  rewrite !jslen_app.
  change (jslen [OPEN_BRACKET]) with 1. change (jslen [CLOSE_BRACKET]) with 1.
  change (jslen [OPEN_BRACKET; SLASH]) with 2. lia.
Qed.

Section ReadBack.

Variable S : jsstring.
Variable keepComments keepWhitespace : bool.

Lemma isNameEnd_close : isNameEnd CLOSE_BRACKET = true.
Proof. reflexivity. Qed.

(** The turn of the loop that meets the close tag of the parent. *)
Lemma parseChildrenBody_close loop node tag p acc rest :
  Splits S p (OPEN_BRACKET :: SLASH :: tag ++ CLOSE_BRACKET :: rest) ->
  nameChars tag = true ->
  parseChildrenBody S keepComments keepWhitespace loop node tag p acc
  = Done (acc, p + 3 + jslen tag).
Proof.
  intros H Hn. unfold parseChildrenBody.
  rewrite (Splits_char _ _ _ _ H). change (N.eqb OPEN_BRACKET OPEN_BRACKET) with true.
  cbv iota.
  pose proof (Splits_next _ _ _ _ H) as H1.
  rewrite (Splits_codeIs _ _ _ _ _ H1).
  change (N.eqb SLASH SLASH) with true. cbv iota zeta.
  assert (Hidx : indexOf S [CLOSE_BRACKET] p = p + 2 + jslen tag).
  { rewrite (Splits_indexOf_char S p CLOSE_BRACKET
               (OPEN_BRACKET :: SLASH :: tag) rest).
    - rewrite !jslen_cons. lia.
    - exact H.
    - intros [E|[E|Hin]]; try discriminate.
      revert Hin. now apply nameChars_In. }
  rewrite Hidx.
  pose proof (Splits_next _ _ _ _ H1) as H2.
  replace (p + 1 + 1) with (p + 2) in H2 by lia.
  rewrite (Splits_substring _ _ _ _ H2), includes_self. cbn [negb].
  pose proof (Splits_nonneg _ _ _ H). pose proof (jslen_nonneg tag).
  destruct (Z.eqb_spec (p + 2 + jslen tag + 1) 0); [lia|].
  do 2 f_equal. lia.
Qed.

Lemma canonicalText_inv s :
  canonicalText s = true ->
  exists c s', s = c :: s' /\ N.eqb c OPEN_BRACKET = false
               /\ trim s = s /\ ~ In OPEN_BRACKET s.
Proof.
  unfold canonicalText. intros H.
  apply andb_true_iff in H as [H Hlt]. apply andb_true_iff in H as [Hl Ht].
  apply streq_eq in Ht. apply negb_true_iff in Hlt.
  destruct s as [|c s']; [discriminate|].
  exists c, s'. repeat split; try assumption.
  - simpl in Hlt. apply orb_false_iff in Hlt as [Hc _].
    now rewrite N.eqb_sym.
  - now apply hasChar_false.
Qed.

(** The turn of the loop that reads a text up to the next tag. *)
Lemma parseChildrenBody_text loop node tag p acc s rest :
  Splits S p (s ++ OPEN_BRACKET :: rest) ->
  canonicalText s = true ->
  parseChildrenBody S keepComments keepWhitespace loop node tag p acc
  = loop tag (p + jslen s) (acc ++ [Str s]).
Proof.
  intros H Hs.
  destruct (canonicalText_inv _ Hs) as [c [s' [E [Hc [Ht Hlt]]]]].
  assert (Hl : (0 <? jslen s) = true).
  { unfold canonicalText in Hs. apply andb_true_iff in Hs as [Hs _].
    now apply andb_true_iff in Hs as [Hs _]. }
  unfold parseChildrenBody.
  assert (Hchar : charCodeAt S p = Some c).
  { subst s. eapply Splits_char. exact H. }
  rewrite Hchar, Hc. unfold parseText.
  rewrite (Splits_indexOf_char _ _ _ _ _ H Hlt).
  pose proof (Splits_nonneg _ _ _ H). pose proof (jslen_nonneg s).
  destruct (Z.eqb_spec (p + jslen s - 1) (-2)); [lia|].
  replace (p + jslen s - 1 + 1) with (p + jslen s) by lia.
  rewrite (Splits_slice _ _ _ _ H), Ht, Hl.
  now destruct keepWhitespace.
Qed.

(** The turn of the loop that reads a child element. *)
Lemma parseChildrenBody_element loop node tag p acc c rest n p' :
  Splits S p (OPEN_BRACKET :: c :: rest) ->
  N.eqb c SLASH = false -> N.eqb c EXCLAMATION = false ->
  node p = Done (n, p') ->
  startsWith [QUESTION] (TNode.tagName n) = false ->
  parseChildrenBody S keepComments keepWhitespace loop node tag p acc
  = loop tag p' (acc ++ [ofNode n]).
Proof.
  intros H Hs He Hn Hq. unfold parseChildrenBody.
  rewrite (Splits_char _ _ _ _ H).
  change (N.eqb OPEN_BRACKET OPEN_BRACKET) with true. cbv iota.
  pose proof (Splits_next _ _ _ _ H) as H1.
  rewrite !(Splits_codeIs _ _ _ _ _ H1), Hs, He, Hn.
  cbn [bind]. now rewrite Hq.
Qed.

Lemma last_char (P : N -> Prop) (l : jsstring) :
  l <> [] -> (forall c, In c l -> P c) ->
  exists init c, l = init ++ [c] /\ P c.
Proof.
  intros Hl HP. destruct (exists_last Hl) as [init [c E]].
  exists init, c. split; [assumption|].
  apply HP. rewrite E. apply in_or_app. right. now left.
Qed.

Lemma nameChars_not_slash name c :
  nameChars name = true -> In c name -> N.eqb c SLASH = false.
Proof.
  intros Hn Hin. destruct (N.eqb_spec c SLASH) as [->|]; [|reflexivity].
  exfalso. revert Hin. now apply nameChars_In.
Qed.

Lemma attributesText_app a1 a2 :
  attributesText (a1 ++ a2) = attributesText a1 ++ attributesText a2.
Proof. unfold attributesText. now rewrite map_app, concat_app. Qed.

(** The text of an open tag up to its ['>'] does not end with a slash. *)
Lemma openTag_last tag attrs :
  tag <> [] -> nameChars tag = true ->
  forallb readableAttribute attrs = true ->
  exists init c, tag ++ attributesText attrs = init ++ [c]
                 /\ N.eqb c SLASH = false.
Proof.
  intros Ht Hn Ha.
  destruct attrs as [|a attrs'] using rev_ind.
  - change (attributesText []) with (@nil N). rewrite app_nil_r.
    apply last_char; [assumption|].
    intros c. now apply nameChars_not_slash.
  - clear IHattrs'. rewrite forallb_app in Ha.
    apply andb_true_iff in Ha as [_ Ha]. simpl in Ha.
    apply andb_true_iff in Ha as [Ha _].
    destruct a as [name value]. unfold readableAttribute in Ha.
    simpl in Ha. apply andb_true_iff in Ha as [Hname Hvalue].
    destruct (canonicalName_inv _ Hname) as [c [name' [En [_ Hnc]]]].
    rewrite attributesText_app, attributesText_cons.
    change (attributesText []) with (@nil N). rewrite app_nil_r.
    simpl fst. simpl snd. destruct value as [v|].
    + destruct (readableValue_quote v Hvalue) as [q [Hq [_ Ev]]].
      rewrite Ev.
      exists (tag ++ attributesText attrs' ++ 32%N :: name ++ [61%N; q] ++ v), q.
      split.
      * now norm_app.
      * unfold isQuote in Hq. apply orb_true_iff in Hq as [Hq|Hq];
          apply N.eqb_eq in Hq; now subst q.
    + simpl valueText. rewrite app_nil_r.
      destruct (last_char (fun c => N.eqb c SLASH = false) name)
        as [init [cl [El Hcl]]].
      * now subst name.
      * intros c1. now apply nameChars_not_slash.
      * exists (tag ++ attributesText attrs' ++ 32%N :: init), cl.
        split; [|assumption].
        rewrite El. now norm_app.
Qed.

Lemma attributesText_length attrs :
  forallb readableAttribute attrs = true ->
  (2 * length attrs <= length (attributesText attrs))%nat.
Proof.
  induction attrs as [|[name value] attrs IH]; intros Ha; [simpl; lia|].
  simpl in Ha. apply andb_true_iff in Ha as [Ha Hall].
  unfold readableAttribute in Ha. simpl in Ha.
  apply andb_true_iff in Ha as [Hname _].
  destruct (canonicalName_inv _ Hname) as [c [name' [En _]]].
  rewrite attributesText_cons. simpl fst. simpl snd. subst name.
  simpl length. rewrite !length_app. specialize (IH Hall). lia.
Qed.

Lemma attributesText_starts attrs rest :
  match attributesText attrs ++ CLOSE_BRACKET :: rest with
  | c :: _ => isNameEnd c = true
  | [] => True
  end.
Proof.
  destruct attrs as [|kv attrs]; [reflexivity|].
  rewrite attributesText_cons. reflexivity.
Qed.

(** [parseNode] on an open tag with readable attributes, up to the choice
    it makes on the tag name. *)
Lemma parseNodeBody_open selfClosing call p tag attrs inner :
  tag <> [] -> nameChars tag = true ->
  forallb readableAttribute attrs = true ->
  uniqueNames (map fst attrs) = true ->
  Splits S p (OPEN_BRACKET :: tag ++ attributesText attrs
                ++ CLOSE_BRACKET :: inner) ->
  let pos := p + 1 + jslen tag + jslen (attributesText attrs) in
  parseNodeBody S selfClosing call p
  = if streq tag (js "script") then
      let start := pos + 1 in
      let pos := indexOf S (js "</script>") pos in
      Done (mkTNode tag attrs [Str (slice S start pos)], pos + 9)
    else if streq tag (js "style") then
      let start := pos + 1 in
      let pos := indexOf S (js "</style>") pos in
      Done (mkTNode tag attrs [Str (slice S start pos)], pos + 8)
    else if negb (arrayIncludes selfClosing tag) then
      ' (children, pos) <- call tag (pos + 1) ;;
      Done (mkTNode tag attrs children, pos)
    else Done (mkTNode tag attrs [], pos + 1).
Proof.
  intros Ht Hn Ha Hu H pos.
  unfold parseNodeBody.
  pose proof (Splits_next _ _ _ _ H) as H1.
  rewrite (parseName_name S (p + 1) tag _ H1 Hn)
    by apply attributesText_starts.
  pose proof (Splits_skip _ _ _ _ H1) as H2.
  destruct (parseAttributes_readable S attrs Ha) as [A _].
  rewrite (A (length S) _ [] inner H2).
  2:{ pose proof (attributesText_length attrs Ha) as Hlen.
      pose proof (Splits_jslen _ _ _ H2) as Hj.
      pose proof (Splits_nonneg _ _ _ H2).
      rewrite jslen_app in Hj. pose proof (jslen_nonneg (CLOSE_BRACKET :: inner)).
      unfold jslen in *. lia. }
  cbn [bind].
  rewrite setAttributes_unique by exact Hu. cbn [app].
  (* the character before ['>'] *)
  destruct (openTag_last tag attrs Ht Hn Ha) as [init [cl [El Hcl]]].
  assert (Hprev : codeIs S (p + 1 + jslen tag + jslen (attributesText attrs) - 1)
                    SLASH = false).
  { assert (H3 : Splits S (p + 1) (init ++ cl :: CLOSE_BRACKET :: inner)).
    { replace (init ++ cl :: CLOSE_BRACKET :: inner)
        with ((init ++ [cl]) ++ CLOSE_BRACKET :: inner) by now norm_app.
      rewrite <- El. now norm_app. }
    apply Splits_skip in H3.
    assert (Hlen : jslen tag + jslen (attributesText attrs) = jslen init + 1).
    { rewrite <- jslen_app, El, jslen_app. reflexivity. }
    replace (p + 1 + jslen tag + jslen (attributesText attrs) - 1)
      with (p + 1 + jslen init) by lia.
    now rewrite (Splits_codeIs _ _ _ _ _ H3). }
  rewrite Hprev. reflexivity.
Qed.

Lemma canonical_readable attrs :
  forallb canonicalAttribute attrs = true ->
  forallb readableAttribute attrs = true.
Proof.
  rewrite !forallb_forall. intros H kv Hin. specialize (H kv Hin).
  unfold canonicalAttribute in H. unfold readableAttribute.
  apply andb_true_iff in H as [Hn Hv]. rewrite Hn. simpl.
  destruct (snd kv) as [v|]; [|reflexivity].
  unfold canonicalValue in Hv. now apply andb_true_iff in Hv as [_ Hv].
Qed.

(** [parseNode] on the open tag of a canonical element, up to the call
    that reads the children. *)
Lemma parseNodeBody_canonical call p tag attrs inner ch p' :
  canonicalTag tag = true ->
  forallb canonicalAttribute attrs = true ->
  uniqueNames (map fst attrs) = true ->
  Splits S p (OPEN_BRACKET :: tag ++ attributesText attrs
                ++ CLOSE_BRACKET :: inner) ->
  call tag (p + 1 + jslen tag + jslen (attributesText attrs) + 1)
  = Done (ch, p') ->
  parseNodeBody S DEFAULT_SELF_CLOSING call p = Done (mkTNode tag attrs ch, p').
Proof.
  intros Ht Ha Hu H Hcall.
  destruct (canonicalTag_inv _ Ht) as [c0 [tl [E [_ [_ [Hn [Hsc [Hst Hself]]]]]]]].
  rewrite (parseNodeBody_open _ call p tag attrs inner); try assumption.
  - cbv zeta. rewrite Hsc, Hst, Hself. cbn [negb]. now rewrite Hcall.
  - now subst tag.
  - now apply canonical_readable.
Qed.

Lemma parseChildren_S fuel tagName pos children :
  parseChildren S keepComments keepWhitespace DEFAULT_SELF_CLOSING
    (Datatypes.S fuel) tagName pos children
  = parseChildrenBody S keepComments keepWhitespace
      (parseChildren S keepComments keepWhitespace DEFAULT_SELF_CLOSING fuel)
      (parseNode S keepComments keepWhitespace DEFAULT_SELF_CLOSING fuel)
      tagName pos children.
Proof. reflexivity. Qed.

Lemma parseNode_S fuel pos :
  parseNode S keepComments keepWhitespace DEFAULT_SELF_CLOSING
    (Datatypes.S fuel) pos
  = parseNodeBody S DEFAULT_SELF_CLOSING
      (fun tagName pos =>
         parseChildren S keepComments keepWhitespace DEFAULT_SELF_CLOSING
           fuel tagName pos [])
      pos.
Proof. reflexivity. Qed.

(** What follows a text child starts a tag. *)
Lemma after_text_starts_tag (ch : list Child) (tail : jsstring) :
  match ch with Str _ :: _ => False | _ => True end ->
  exists rest,
    childrenText ch ++ OPEN_BRACKET :: SLASH :: tail = OPEN_BRACKET :: rest.
Proof.
  destruct ch as [|[s|tag attrs ch'] ch]; intros H.
  - now exists (SLASH :: tail).
  - contradiction.
  - unfold childrenText. simpl. eexists. reflexivity.
Qed.

(** A canonical element is read back as itself, and canonical children
    are read back up to the close tag of their parent. *)
Lemma parseNode_canonical (c : Child) :
  canonical c = true ->
  forall tag attrs ch, c = Elem tag attrs ch ->
  forall fuel p rest,
    (fuelOf c <= fuel)%nat ->
    Splits S p (documentText c ++ rest) ->
    parseNode S keepComments keepWhitespace DEFAULT_SELF_CLOSING fuel p
    = Done (mkTNode tag attrs ch, p + jslen (documentText c)).
Proof.
  induction c as [s|tag0 attrs0 ch0 IH] using Child_forall_ind;
    intros Hc tag attrs ch E; [discriminate|].
  injection E as E1 E2 E3. subst tag0 attrs0 ch0.
  cbn [canonical] in Hc.
  apply andb_true_iff in Hc as [Hc Hadj].
  apply andb_true_iff in Hc as [Hc Hch].
  apply andb_true_iff in Hc as [Hc Hu].
  apply andb_true_iff in Hc as [Ht Ha].
  destruct (canonicalTag_inv _ Ht) as [c0 [tl [Etag [_ [_ [Hn _]]]]]].
  (* the children, up to the close tag *)
  assert (Q : forall fuel p acc rest,
             (fuelOfList ch <= fuel)%nat ->
             Splits S p (childrenText ch ++ OPEN_BRACKET :: SLASH :: tag
                           ++ CLOSE_BRACKET :: rest) ->
             parseChildren S keepComments keepWhitespace DEFAULT_SELF_CLOSING
               fuel tag p acc
             = Done (acc ++ ch, p + jslen (childrenText ch) + 3 + jslen tag)).
  { clear Ha Hu. induction ch as [|c ch IHch]; intros fuel p acc rest Hf H.
    - destruct fuel as [|fuel]; [simpl in Hf; lia|].
      rewrite parseChildren_S.
      rewrite (parseChildrenBody_close _ _ _ _ _ rest H Hn).
      rewrite app_nil_r. change (jslen (childrenText [])) with 0.
      do 2 f_equal. lia.
    - destruct fuel as [|fuel]; [simpl in Hf; lia|].
      simpl in Hf. rewrite parseChildren_S.
      pose proof (Forall_inv IH) as Pc. pose proof (Forall_inv_tail IH) as Pch.
      cbn [forallb] in Hch. apply andb_true_iff in Hch as [Hcc Hch].
      assert (Hadj' : noAdjacentText ch = true).
      { simpl in Hadj. destruct c; [destruct ch as [|[|] ?]|];
          try discriminate; assumption. }
      specialize (IHch Pch Hch Hadj').
      change (childrenText (c :: ch)) with (documentText c ++ childrenText ch)
        in *.
      rewrite <- app_assoc in H.
      destruct c as [s|t a chh].
      + (* a text child *)
        destruct (after_text_starts_tag ch (tag ++ CLOSE_BRACKET :: rest))
          as [r Er].
        { simpl in Hadj. destruct ch as [|[|] ?]; try discriminate; exact I. }
        cbn [documentText] in *. rewrite Er in H.
        rewrite (parseChildrenBody_text _ _ _ _ _ _ _ H Hcc).
        rewrite (IHch fuel _ _ rest) by
          (try lia; apply Splits_skip in H; rewrite <- Er in H; exact H).
        rewrite <- app_assoc. cbn [app]. do 2 f_equal.
        rewrite jslen_app. lia.
      + (* a child element *)
        pose proof Hcc as Hcc'. cbn [canonical] in Hcc'.
        repeat (apply andb_true_iff in Hcc' as [Hcc' ?]).
        destruct (canonicalTag_inv _ Hcc')
          as [c1 [tl1 [Et [Hq [He [Hn1 _]]]]]].
        assert (Hs1 : N.eqb c1 SLASH = false).
        { apply (nameChars_not_slash t); [assumption|]. subst t. now left. }
        assert (Hnode :
          parseNode S keepComments keepWhitespace DEFAULT_SELF_CLOSING fuel p
          = Done (mkTNode t a chh, p + jslen (documentText (Elem t a chh)))).
        { eapply Pc; [assumption|reflexivity|lia|exact H]. }
        assert (H' : Splits S p (OPEN_BRACKET :: c1 :: tl1
                       ++ attributesText a ++ [CLOSE_BRACKET]
                       ++ childrenText chh
                       ++ [OPEN_BRACKET; SLASH] ++ t ++ [CLOSE_BRACKET]
                       ++ childrenText ch ++ OPEN_BRACKET :: SLASH :: tag
                       ++ CLOSE_BRACKET :: rest)).
        { cbn [documentText] in H. fold (childrenText chh) in H.
          rewrite Et in H at 1. norm_app_in H. exact H. }
        rewrite (parseChildrenBody_element _ _ _ _ _ _ _ _ _ H' Hs1 He Hnode).
        2:{ cbn [TNode.tagName]. subst t. cbn [startsWith].
            rewrite N.eqb_sym, Hq. reflexivity. }
        rewrite (IHch fuel _ _ rest) by
          (try lia; now apply Splits_skip in H).
        rewrite <- app_assoc. cbn [app]. do 2 f_equal.
        rewrite jslen_app. lia. }
  intros fuel p rest Hf H.
  destruct fuel as [|fuel]; [simpl in Hf; lia|].
  rewrite fuelOf_Elem in Hf. rewrite parseNode_S.
  cbn [documentText] in H. fold (childrenText ch) in H. norm_app_in H.
  erewrite parseNodeBody_canonical; try eassumption.
  - reflexivity.
  - rewrite (Q fuel _ [] rest).
    + cbn [app]. do 2 f_equal. rewrite jslen_documentText. lia.
    + lia.
    + apply Splits_next in H.
      apply Splits_skip in H. apply Splits_skip in H.
      apply Splits_next in H. exact H.
Qed.

End ReadBack.

(** ** The round trip *)

Lemma parse_default fuel S :
  parse ParseOptions.default fuel S
  = ' (out, pos) <- parseChildren S false false DEFAULT_SELF_CLOSING fuel [] 0 [] ;;
    Done (Nodes out).
Proof. reflexivity. Qed.






(** ** The three states of an attribute *)


Lemma elementName_inv tag :
  elementName tag = true ->
  exists c tl, tag = c :: tl
    /\ N.eqb c QUESTION = false /\ N.eqb c EXCLAMATION = false
    /\ nameChars tag = true.
Proof.
  destruct tag as [|c tl]; [discriminate|]. unfold elementName.
  intros H. repeat (apply andb_true_iff in H as [H ?]).
  exists c, tl. repeat split; try (now apply negb_true_iff); assumption.
Qed.




(** ** [script] and [style] *)

Lemma startsWith_app (pat l rest : jsstring) :
  (length pat <= length l)%nat ->
  startsWith pat (l ++ rest) = startsWith pat l.
Proof.
  revert l. induction pat as [|x pat IH]; intros l Hl; [now destruct l|].
  destruct l as [|c l]; [simpl in Hl; lia|].
  simpl in *. rewrite IH by lia. reflexivity.
Qed.

Lemma startsWith_self (pat rest : jsstring) : startsWith pat (pat ++ rest) = true.
Proof.
  induction pat as [|x pat IH]; [reflexivity|].
  simpl. now rewrite N.eqb_refl.
Qed.

Lemma indexOfFrom_range (pat l : jsstring) (i : Z) :
  indexOfFrom pat l i = -1 \/ i <= indexOfFrom pat l i.
Proof.
  revert i. induction l as [|c l IH]; intros i; cbn [indexOfFrom].
  - destruct (startsWith pat []); [right; lia|now left].
  - destruct (startsWith pat (c :: l)); [right; lia|].
    destruct (IH (i + 1)) as [H|H]; [now left|right; lia].
Qed.

Lemma indexOfFrom_offsets (pat l : jsstring) (i j : Z) :
  0 <= i -> 0 <= j ->
  (indexOfFrom pat l i = -1 -> indexOfFrom pat l j = -1)
  /\ (indexOfFrom pat l i <> -1 ->
      indexOfFrom pat l j = indexOfFrom pat l i - i + j).
Proof.
  revert i j. induction l as [|c l IH]; intros i j Hi Hj; cbn [indexOfFrom].
  - destruct (startsWith pat []); split; intros; lia.
  - destruct (startsWith pat (c :: l)); [split; intros; lia|].
    destruct (IH (i + 1) (j + 1)) as [H1 H2]; lia.
Qed.

Lemma indexOfFrom_shift (pat l : jsstring) (i k : Z) :
  0 <= i -> 0 <= k ->
  indexOfFrom pat l 0 = k -> indexOfFrom pat l i = i + k.
Proof.
  intros Hi Hk H.
  destruct (indexOfFrom_offsets pat l 0 i) as [_ H2]; lia.
Qed.

Lemma indexOfFrom_here (pat l : jsstring) (i : Z) :
  startsWith pat l = true -> indexOfFrom pat l i = i.
Proof. intros H. destruct l; cbn [indexOfFrom]; now rewrite H. Qed.

(** The first close tag of [content] followed by the close tag is the one
    at the end: then it is also the first one in the text that goes on. *)
Lemma indexOfFrom_content (pat content rest : jsstring) (i : Z) :
  indexOfFrom pat (content ++ pat ++ rest) i
  = indexOfFrom pat (content ++ pat) i.
Proof.
  revert i. induction content as [|c content IH]; intros i.
  - cbn [app]. rewrite !indexOfFrom_here; [reflexivity| |].
    + rewrite <- (app_nil_r pat) at 2. apply startsWith_self.
    + apply startsWith_self.
  - cbn [app indexOfFrom].
    assert (Hs : startsWith pat (c :: content ++ pat ++ rest)
                 = startsWith pat (c :: content ++ pat)).
    { rewrite (app_assoc content pat rest).
      apply (startsWith_app pat (c :: content ++ pat) rest).
      simpl. rewrite length_app. lia. }
    now rewrite Hs, IH.
Qed.

Lemma indexOf_0 (s pat : jsstring) : indexOf s pat 0 = indexOfFrom pat s 0.
Proof.
  unfold indexOf. pose proof (jslen_nonneg s).
  now rewrite clamp_inside by lia.
Qed.

Section ScriptStyle.

Variable S : jsstring.
Variable keepComments keepWhitespace : bool.
Variable selfClosingTags : list jsstring.

Lemma parseNode_unfold fuel pos :
  parseNode S keepComments keepWhitespace selfClosingTags
    (Datatypes.S fuel) pos
  = parseNodeBody S selfClosingTags
      (fun tagName pos =>
         parseChildren S keepComments keepWhitespace selfClosingTags
           fuel tagName pos [])
      pos.
Proof. reflexivity. Qed.

Lemma parseChildren_unfold fuel tagName pos children :
  parseChildren S keepComments keepWhitespace selfClosingTags
    (Datatypes.S fuel) tagName pos children
  = parseChildrenBody S keepComments keepWhitespace
      (parseChildren S keepComments keepWhitespace selfClosingTags fuel)
      (parseNode S keepComments keepWhitespace selfClosingTags fuel)
      tagName pos children.
Proof. reflexivity. Qed.

(** The search for the close tag, started on the ['>'] of the open tag. *)
Lemma indexOf_closeTag kind content rest q :
  indexOf (content ++ closeTagText kind) (closeTagText kind) 0
  = jslen content ->
  Splits S q (CLOSE_BRACKET :: content ++ closeTagText kind ++ rest) ->
  indexOf S (closeTagText kind) q = q + 1 + jslen content.
Proof.
  intros Hfirst H. rewrite (Splits_indexOf _ _ _ _ H).
  cbn [indexOfFrom]. unfold closeTagText at 1. cbn [app startsWith].
  change (N.eqb OPEN_BRACKET CLOSE_BRACKET) with false. cbn [andb].
  rewrite indexOfFrom_content. rewrite indexOf_0 in Hfirst.
  pose proof (Splits_nonneg _ _ _ H). pose proof (jslen_nonneg content).
  apply indexOfFrom_shift; lia.
Qed.

(** C5.  The content of a [script] or [style] element, that is the text
    between its open tag and the first close tag of its kind, is the single
    child of the element, a string equal to that text: nothing in it is
    read as a tag and no character of it is cut off. *)
Theorem script_style_verbatim
    (kind : jsstring) (attrs : Attributes) (content rest : jsstring)
    (p : Z) (fuel : nat) :
  kind = js "script" \/ kind = js "style" ->
  forallb readableAttribute attrs = true ->
  uniqueNames (map fst attrs) = true ->
  indexOf (content ++ closeTagText kind) (closeTagText kind) 0
  = jslen content ->
  Splits S p (openTagText kind attrs ++ content ++ closeTagText kind ++ rest) ->
  (1 <= fuel)%nat ->
  parseNode S keepComments keepWhitespace selfClosingTags fuel p
  = Done (mkTNode kind attrs [Str content],
          p + jslen (openTagText kind attrs ++ content ++ closeTagText kind)).
Proof.
  intros Hkind Ha Hu Hfirst H Hf.
  destruct fuel as [|fuel]; [lia|]. rewrite parseNode_unfold.
  assert (Hn : nameChars kind = true) by (destruct Hkind; now subst).
  assert (Hne : kind <> []) by (destruct Hkind; now subst).
  unfold openTagText in H. norm_app_in H.
  rewrite (parseNodeBody_open S _ _ p kind attrs _ Hne Hn Ha Hu H).
  cbv zeta.
  set (q := p + 1 + jslen kind + jslen (attributesText attrs)).
  assert (Hq : Splits S q (CLOSE_BRACKET :: content ++ closeTagText kind ++ rest)).
  { unfold q. apply Splits_next in H. apply Splits_skip in H.
    now apply Splits_skip in H. }
  pose proof (indexOf_closeTag kind content rest q Hfirst Hq) as Hidx.
  assert (Hslice : slice S (q + 1) (q + 1 + jslen content) = content).
  { apply Splits_next in Hq. exact (Splits_slice _ _ _ _ Hq). }
  assert (Hlen : jslen (openTagText kind attrs ++ content ++ closeTagText kind)
                 = 1 + jslen kind + jslen (attributesText attrs) + 1
                   + jslen content + 3 + jslen kind).
  { unfold openTagText, closeTagText. rewrite !jslen_app.
    change (jslen [OPEN_BRACKET]) with 1.
    change (jslen [CLOSE_BRACKET]) with 1.
    change (jslen [OPEN_BRACKET; SLASH]) with 2. lia. }
  destruct Hkind as [-> | ->].
  - change (streq (js "script") (js "script")) with true. cbv iota.
    change (js "</script>") with (closeTagText (js "script")).
    rewrite Hidx, Hslice, Hlen. change (jslen (js "script")) with 6 in *.
    do 2 f_equal. unfold q. change (jslen (js "script")) with 6. lia.
  - change (streq (js "style") (js "script")) with false.
    change (streq (js "style") (js "style")) with true. cbv iota.
    change (js "</style>") with (closeTagText (js "style")).
    rewrite Hidx, Hslice, Hlen. change (jslen (js "style")) with 5 in *.
    do 2 f_equal. unfold q. change (jslen (js "style")) with 5. lia.
Qed.

End ScriptStyle.

(** The documented script, whose content looks like a tag, and the
    documented style, with its last character kept. *)
Lemma script_style_documented :
  let script := js "$(" ++ dq ++ js "<div>" ++ dq ++ js ")" in
  let style := js "p { color: " ++ dq ++ js "red" ++ dq ++ js " }" in
  (parseNode (js "<test><script>" ++ script ++ js "</script></test>")
     false false DEFAULT_SELF_CLOSING 1 6
   = Done (mkTNode (js "script") [] [Str script], 33))
  /\ (parseNode (js "<style>" ++ style ++ js "</style>")
        false false DEFAULT_SELF_CLOSING 1 0
      = Done (mkTNode (js "style") [] [Str style], 33))
  /\ parse ParseOptions.default 20
       (js "<test><script>" ++ script ++ js "</script></test>")
     = Done (Nodes [Elem (js "test") []
                      [Elem (js "script") [] [Str script]]])
  /\ parse ParseOptions.default 20
       (js "<test><style>*{some:10px;}/* <tag> comment */</style></test>")
     = Done (Nodes [Elem (js "test") []
                      [Elem (js "style") []
                         [Str (js "*{some:10px;}/* <tag> comment */")]]]).
Proof.
  intros script style. split; [|split; [|split; reflexivity]].
  - refine (script_style_verbatim
              (js "<test><script>" ++ script ++ js "</script></test>")
              false false DEFAULT_SELF_CLOSING
              (js "script") [] script (js "</test>") 6 1 _ _ _ _ _ _);
      try reflexivity; [now left | now exists (js "<test>")].
  - refine (script_style_verbatim
              (js "<style>" ++ style ++ js "</style>")
              false false DEFAULT_SELF_CLOSING
              (js "style") [] style [] 0 1 _ _ _ _ _ _);
      try reflexivity; [now right | now exists []].
Defined.

(** ** Declarations *)


Section Declarations.

Variable S : jsstring.
Variable keepComments keepWhitespace : bool.
Variable selfClosingTags : list jsstring.


End Declarations.



(** ** The only error *)






Lemma includes_empty (s : jsstring) : includes s [] = true.
Proof.
  unfold includes. rewrite indexOf_0. now destruct s.
Qed.

Section OnlyError.

Variable S : jsstring.
Variable keepComments keepWhitespace : bool.
Variable selfClosingTags : list jsstring.




End OnlyError.

Section ParseErrors.

Variable options : ParseOptions.t.



End ParseErrors.

(** ** The message of the error *)










(** ** Inputs on which [parse] does not return *)

Lemma substringFrom_negative (S : jsstring) : substringFrom S (-1) = S.
Proof.
  unfold substringFrom, substring. pose proof (jslen_nonneg S).
  unfold clamp. rewrite (Z.max_r (-1) 0) by lia.
  rewrite (Z.min_l 0 (jslen S)) by lia.
  rewrite (Z.max_l (jslen S) 0), Z.min_id by lia.
  rewrite Z.min_l, Z.max_r by lia.
  rewrite Z.sub_0_r, to_nat_jslen. simpl skipn. apply firstn_all.
Qed.

(** The attribute search does not end when the match has no ['<'] before
    it: the working text stays the same. *)
Lemma searchLoop_without_bracket (options : ParseOptions.t) (S : jsstring) :
  findElements options S <> -1 ->
  lastIndexOf S [OPEN_BRACKET] (findElements options S) = -1 ->
  forall fuel out, searchLoop options fuel S out = OutOfFuel.
Proof.
  intros Hfound Hlast fuel. induction fuel as [|fuel IH]; intros out.
  - reflexivity.
  - cbn [searchLoop]. cbv zeta.
    destruct (Z.eqb_spec (findElements options S) (-1)); [contradiction|].
    rewrite Hlast. change (negb (-1 =? -1)) with false. cbv iota.
    rewrite substringFrom_negative. apply IH.
Qed.

(** The unclosed [script] sends the cursor back to position 8, before the
    tag, which is then read again. *)
Lemma unclosedScript_again (fuel : nat) :
  forall children,
    parseChildren unclosedScript false false DEFAULT_SELF_CLOSING
      fuel [] 8 children = OutOfFuel.
Proof.
  induction fuel as [|fuel IH]; intros children; [reflexivity|].
  rewrite parseChildren_unfold. unfold parseChildrenBody.
  change (charCodeAt unclosedScript 8) with (Some OPEN_BRACKET).
  change (N.eqb OPEN_BRACKET OPEN_BRACKET) with true. cbv iota.
  change (codeIs unclosedScript (8 + 1) SLASH) with false.
  change (codeIs unclosedScript (8 + 1) EXCLAMATION) with false. cbv iota.
  destruct fuel as [|fuel]; [reflexivity|].
  rewrite parseNode_unfold.
  set (call := fun tagName pos => parseChildren _ _ _ _ fuel tagName pos []).
  assert (Hnode : parseNodeBody unclosedScript DEFAULT_SELF_CLOSING call 8
                  = Done (mkTNode (js "script") [] [Str []], 8)).
  { vm_compute. reflexivity. }
  rewrite Hnode. cbn [bind]. apply IH.
Qed.

(** C10.  [parse] does not return for every input.  With no options, a
    [script] element that is not closed sends the cursor back to position
    8, and when the element starts at or after that position the same tag is
    read again without end.  In the attribute search, a match with no ['<']
    before it leaves the working text as it is, and the same match is found
    again without end.  In both cases no amount of fuel gives a result. *)
Theorem parse_does_not_return :
  (forall fuel, parse ParseOptions.default fuel unclosedScript = OutOfFuel)
  /\ (forall fuel, parse searchForX fuel attributeWithoutTag = OutOfFuel).
Proof.
  split; intros fuel.
  - rewrite parse_default. destruct fuel as [|fuel]; [reflexivity|].
    rewrite parseChildren_unfold.
    replace (parseChildrenBody unclosedScript false false
               (parseChildren unclosedScript false false DEFAULT_SELF_CLOSING fuel)
               (parseNode unclosedScript false false DEFAULT_SELF_CLOSING fuel)
               [] 0 [])
      with (parseChildren unclosedScript false false DEFAULT_SELF_CLOSING fuel
              [] 8 [Str (js "12345678")]) by reflexivity.
    now rewrite unclosedScript_again.
  - unfold parse. cbn [ParseOptions.attrValue searchForX].
    rewrite searchLoop_without_bracket; [reflexivity| |];
      vm_compute; [discriminate|reflexivity].
Qed.

(** ** The streaming adapters *)

Section StreamFacts.

Variable keepComments keepWhitespace : bool.
Variable selfClosingTags : option (list jsstring).

(** The two adapters run the same loop. *)
Lemma transformWebStreamLoop_eq fuel :
  forall data position lastPos items,
    transformWebStreamLoop keepComments keepWhitespace selfClosingTags
      fuel data position lastPos items
    = transformStreamLoop keepComments keepWhitespace selfClosingTags
        fuel data position lastPos items.
Proof.
  induction fuel as [|fuel IH]; intros; [reflexivity|].
  cbn [transformWebStreamLoop transformStreamLoop]. cbv zeta.
  repeat match goal with
         | |- (if ?x then _ else _) = (if ?x then _ else _) => destruct x
         | |- bind ?r _ = bind ?r _ => destruct r as [[? ?]| |]; cbn [bind]
         end; try reflexivity; apply IH.
Qed.

Lemma transformWebStream_eq fuel st chunk :
  transformWebStream keepComments keepWhitespace selfClosingTags fuel st chunk
  = transformStream keepComments keepWhitespace selfClosingTags fuel st chunk.
Proof. apply transformWebStreamLoop_eq. Qed.

(** The node and the cursor the adapters take from [parse]. *)
Lemma parse_nodeOptions position fuel data :
  parse (nodeOptions keepComments keepWhitespace selfClosingTags position)
    fuel data
  = ' (res, pos) <-
        parseSingleNode
          (nodeOptions keepComments keepWhitespace selfClosingTags position)
          fuel data ;;
    Done (Node res (Some pos)).
Proof. reflexivity. Qed.

End StreamFacts.

Lemma startsWith_more (pat l more : jsstring) :
  startsWith pat l = true -> startsWith pat (l ++ more) = true.
Proof.
  revert l. induction pat as [|x pat IH]; intros l H; [reflexivity|].
  destruct l as [|c l]; [discriminate|]. simpl in *.
  apply andb_true_iff in H as [Hx H]. now rewrite Hx, IH.
Qed.

(** A pattern that does not occur in a text does not occur in a prefix
    of it. *)
Lemma indexOfFrom_prefix (pat l more : jsstring) (i j : Z) :
  pat <> [] ->
  indexOfFrom pat (l ++ more) i = -1 -> 0 <= i -> indexOfFrom pat l j = -1.
Proof.
  intros Hpat. revert i j. induction l as [|c l IH]; intros i j H Hi.
  - destruct pat; [contradiction|reflexivity].
  - cbn [app indexOfFrom] in *.
    destruct (startsWith pat (c :: l)) eqn:E.
    + apply (startsWith_more _ _ more) in E. cbn [app] in E.
      rewrite E in H. lia.
    + destruct (startsWith pat (c :: l ++ more)); [lia|].
      apply (IH (i + 1)); [assumption|lia].
Qed.

Lemma sliceFrom_0 (s : jsstring) : sliceFrom s 0 = s.
Proof.
  unfold sliceFrom, slice. pose proof (jslen_nonneg s).
  rewrite !sliceIndex_inside by lia.
  rewrite Z.sub_0_r, to_nat_jslen. simpl skipn. apply firstn_all.
Qed.

Section UnterminatedComment.

Variable keepComments keepWhitespace : bool.
Variable selfClosingTags : option (list jsstring).

(** The first characters of a comment, when they come alone, are read as
    an unfinished tag that ends beyond the buffer. *)
Lemma parseNode_comment_start (data name : jsstring) (fuel : nat) :
  (data = js "<" /\ name = []) \/ (data = js "<!" /\ name = js "!")
  \/ (data = js "<!-" /\ name = js "!-") ->
  parseSingleNode
    (nodeOptions keepComments keepWhitespace selfClosingTags (0 + 1))
    (Datatypes.S (Datatypes.S fuel)) data
  = Done (mkTNode name [] [], jslen data + 1).
Proof.
  intros Hd. unfold parseSingleNode.
  change (startPos (nodeOptions keepComments keepWhitespace selfClosingTags
                      (0 + 1))) with 0.
  rewrite parseNode_unfold. unfold parseNodeBody.
  destruct Hd as [[-> ->]|[[-> ->]|[-> ->]]].
  - change (parseName (js "<") (0 + 1)) with (@nil N, 1). cbv beta iota.
    change (parseAttributes (js "<") (length (js "<")) 1 [])
      with (@Done (Attributes * Z * bool) ([], 1, false)).
    cbn [bind]. cbv beta iota. change (codeIs (js "<") (1 - 1) SLASH) with false.
    change (streq [] (js "script")) with false.
    change (streq [] (js "style")) with false. cbn [negb]. cbv iota.
    destruct (arrayIncludes _ []); cbn [negb]; [reflexivity|].
    cbv beta. rewrite parseChildren_unfold. reflexivity.
  - change (parseName (js "<!") (0 + 1)) with (js "!", 2). cbv beta iota.
    change (parseAttributes (js "<!") (length (js "<!")) 2 [])
      with (@Done (Attributes * Z * bool) ([], 2, false)).
    cbn [bind]. cbv beta iota. change (codeIs (js "<!") (2 - 1) SLASH) with false.
    change (streq (js "!") (js "script")) with false.
    change (streq (js "!") (js "style")) with false. cbn [negb]. cbv iota.
    destruct (arrayIncludes _ (js "!")); cbn [negb]; [reflexivity|].
    cbv beta. rewrite parseChildren_unfold. reflexivity.
  - change (parseName (js "<!-") (0 + 1)) with (js "!-", 3). cbv beta iota.
    change (parseAttributes (js "<!-") (length (js "<!-")) 3 [])
      with (@Done (Attributes * Z * bool) ([], 3, false)).
    cbn [bind]. cbv beta iota. change (codeIs (js "<!-") (3 - 1) SLASH) with false.
    change (streq (js "!-") (js "script")) with false.
    change (streq (js "!-") (js "style")) with false. cbn [negb]. cbv iota.
    destruct (arrayIncludes _ (js "!-")); cbn [negb]; [reflexivity|].
    cbv beta. rewrite parseChildren_unfold. reflexivity.
Qed.

(** One chunk more of a stream that is an unterminated comment: nothing
    is pushed and the adapter waits at the start of the buffer. *)
Lemma transformStreamLoop_unterminated (body data more : jsstring) (fuel : nat) :
  js "<!--" ++ body = data ++ more ->
  indexOfFrom (js "-->") body 0 = -1 ->
  (3 <= fuel)%nat ->
  transformStreamLoop keepComments keepWhitespace selfClosingTags
    fuel data 0 0 []
  = Done ([], mkState data 0).
Proof.
  intros E Hbody Hf.
  destruct fuel as [|[|[|fuel]]]; try lia.
  destruct data as [|c1 [|c2 [|c3 [|c4 body']]]]; cbn [app] in E.
  - reflexivity.
  - injection E as <- _. cbn [transformStreamLoop]. cbv zeta.
    change (indexOf [60%N] [OPEN_BRACKET] 0) with 0.
    change (0 + 1 =? 0) with false. cbv iota.
    change (codeIs [60%N] (0 + 1) SLASH) with false.
    change (codeIs [60%N] (0 + 1) EXCLAMATION) with false.
    cbn [andb]. cbv iota.
    rewrite (parseNode_comment_start (js "<") []) by (now left).
    reflexivity.
  - injection E as <- <- _. cbn [transformStreamLoop]. cbv zeta.
    change (indexOf [60%N; 33%N] [OPEN_BRACKET] 0) with 0.
    change (0 + 1 =? 0) with false. cbv iota.
    change (codeIs [60%N; 33%N] (0 + 1) SLASH) with false.
    change (codeIs [60%N; 33%N] (0 + 1 + 1) MINUS) with false.
    rewrite andb_false_r. cbn [andb]. cbv iota.
    rewrite (parseNode_comment_start (js "<!") (js "!"))
      by (right; now left).
    reflexivity.
  - injection E as <- <- <- _. cbn [transformStreamLoop]. cbv zeta.
    change (indexOf [60%N; 33%N; 45%N] [OPEN_BRACKET] 0) with 0.
    change (0 + 1 =? 0) with false. cbv iota.
    change (codeIs [60%N; 33%N; 45%N] (0 + 1) SLASH) with false.
    change (codeIs [60%N; 33%N; 45%N] (0 + 1 + 2) MINUS) with false.
    rewrite andb_false_r. cbv iota.
    rewrite (parseNode_comment_start (js "<!-") (js "!-"))
      by (right; now right).
    reflexivity.
  - injection E as <- <- <- <- E.
    set (data := 60%N :: 33%N :: 45%N :: 45%N :: body').
    cbn [transformStreamLoop]. cbv zeta.
    assert (H0 : indexOf data [OPEN_BRACKET] 0 = 0) by reflexivity.
    rewrite H0. change (0 + 1 =? 0) with false. cbv iota.
    change (codeIs data (0 + 1) SLASH) with false.
    change (codeIs data (0 + 1) EXCLAMATION) with true.
    change (codeIs data (0 + 1 + 1) MINUS) with true.
    change (codeIs data (0 + 1 + 2) MINUS) with true. cbn [andb]. cbv iota.
    assert (H4 : Splits data 4 body') by now exists (js "<!--").
    change (0 + 1 + 3) with 4. rewrite (Splits_indexOf _ _ _ _ H4).
    rewrite (indexOfFrom_prefix (js "-->") body' more 0 4);
      [|discriminate|now rewrite <- E|lia].
    change (-1 =? -1) with true. cbv iota. now rewrite sliceFrom_0.
Qed.

Lemma runStream_unterminated (body : jsstring) (fuel : nat) :
  indexOfFrom (js "-->") body 0 = -1 ->
  (3 <= fuel)%nat ->
  forall chunks buffer,
    buffer ++ concat chunks = js "<!--" ++ body ->
    runStream
      (transformStream keepComments keepWhitespace selfClosingTags)
      fuel (mkState buffer 0) chunks
    = Done [].
Proof.
  intros Hbody Hf chunks.
  induction chunks as [|chunk chunks IH]; intros buffer E; [reflexivity|].
  cbn [runStream concat] in *. unfold transformStream. cbn [data position].
  rewrite (transformStreamLoop_unterminated body (buffer ++ chunk)
             (concat chunks)); try assumption.
  - cbn [bind]. rewrite IH; [reflexivity|]. now rewrite <- app_assoc.
  - now rewrite <- app_assoc.
Qed.

End UnterminatedComment.

Lemma startsWith_split (pat l : jsstring) :
  startsWith pat l = true -> exists rest, l = pat ++ rest.
Proof.
  revert l. induction pat as [|x pat IH]; intros l H; [now exists l|].
  destruct l as [|c l]; [discriminate|]. simpl in H.
  apply andb_true_iff in H as [Hx H]. apply N.eqb_eq in Hx. subst c.
  destruct (IH l H) as [rest ->]. now exists rest.
Qed.

Lemma indexOfFrom_found (pat l : jsstring) (i r : Z) :
  indexOfFrom pat l i = r -> r <> -1 -> 0 <= i ->
  exists pre rest, l = pre ++ pat ++ rest /\ r = i + jslen pre.
Proof.
  revert i. induction l as [|c l IH]; intros i H Hr Hi; cbn [indexOfFrom] in H.
  - destruct (startsWith pat []) eqn:E; [|congruence].
    destruct (startsWith_split _ _ E) as [rest E'].
    exists [], rest. split; [exact E'|]. rewrite jslen_nil. lia.
  - destruct (startsWith pat (c :: l)) eqn:E.
    + destruct (startsWith_split _ _ E) as [rest E'].
      exists [], rest. split; [exact E'|]. rewrite jslen_nil. lia.
    + destruct (IH (i + 1) H Hr ltac:(lia)) as [pre [rest [-> ->]]].
      exists (c :: pre), rest. split; [reflexivity|].
      rewrite jslen_cons. lia.
Qed.

Lemma indexOf_found (s pat : jsstring) (from r : Z) :
  indexOf s pat from = r -> r <> -1 ->
  exists pre rest, s = pre ++ pat ++ rest /\ r = jslen pre.
Proof.
  unfold indexOf. intros H Hr.
  pose proof (jslen_nonneg s) as Hs.
  assert (Hk : 0 <= clamp s from <= jslen s) by (unfold clamp; lia).
  destruct (indexOfFrom_found _ _ _ _ H Hr (proj1 Hk)) as [pre [rest [E ->]]].
  exists (firstn (Z.to_nat (clamp s from)) s ++ pre), rest. split.
  - rewrite <- app_assoc, <- E. symmetry. apply firstn_skipn.
  - rewrite jslen_app. f_equal. unfold jslen in *.
    rewrite length_firstn. lia.
Qed.

Lemma Splits_codeIs_inv S p rest c :
  Splits S p rest -> codeIs S p c = true -> exists rest', rest = c :: rest'.
Proof.
  intros [pre [-> ->]]. unfold codeIs. rewrite charCodeAt_here.
  destruct rest as [|d rest]; [discriminate|].
  rewrite charCodeAt_0. intros H. apply N.eqb_eq in H. subst d.
  now exists rest.
Qed.

(** The text pushed for a comment has the two delimiters. *)
Lemma pushed_comment_terminated (data : jsstring) (from position commentEnd : Z) :
  position = indexOf data [OPEN_BRACKET] from + 1 ->
  position <> 0 ->
  codeIs data position EXCLAMATION = true ->
  codeIs data (position + 1) MINUS = true ->
  codeIs data (position + 2) MINUS = true ->
  commentEnd = indexOf data (js "-->") (position + 3) ->
  commentEnd <> -1 ->
  TerminatedComment (substring data (position - 1) (commentEnd + 3)).
Proof.
  intros Hp Hp0 H1 H2 H3 He He0.
  destruct (indexOf_found data [OPEN_BRACKET] from (position - 1))
    as [pre [rest [E Hpre]]]; [lia|lia|].
  assert (S0 : Splits data (position - 1) (OPEN_BRACKET :: rest)).
  { exists pre. now split. }
  pose proof (Splits_next _ _ _ _ S0) as S1.
  replace (position - 1 + 1) with position in S1 by lia.
  destruct (Splits_codeIs_inv _ _ _ _ S1 H1) as [rest1 ->].
  pose proof (Splits_next _ _ _ _ S1) as S2.
  destruct (Splits_codeIs_inv _ _ _ _ S2 H2) as [rest2 ->].
  pose proof (Splits_next _ _ _ _ S2) as S3.
  replace (position + 1 + 1) with (position + 2) in S3 by lia.
  destruct (Splits_codeIs_inv _ _ _ _ S3 H3) as [rest3 ->].
  pose proof (Splits_next _ _ _ _ S3) as S4.
  replace (position + 2 + 1) with (position + 3) in S4 by lia.
  rewrite (Splits_indexOf _ _ _ _ S4) in He.
  pose proof (Splits_nonneg _ _ _ S4).
  destruct (indexOfFrom_found _ _ _ _ (eq_sym He) He0 ltac:(lia))
    as [body [rest4 [-> Hend]]].
  exists body.
  replace (commentEnd + 3)
    with (position - 1 + jslen (js "<!--" ++ body ++ js "-->")).
  - apply (Splits_substring data (position - 1)
             (js "<!--" ++ body ++ js "-->") rest4).
    rewrite <- !app_assoc. exact S0.
  - rewrite !jslen_app. change (jslen (js "<!--")) with 4.
    change (jslen (js "-->")) with 3. lia.
Qed.

Section PushedComments.

Variable keepComments keepWhitespace : bool.
Variable selfClosingTags : option (list jsstring).

Lemma CommentsTerminated_snoc_comment items text :
  CommentsTerminated items -> TerminatedComment text ->
  CommentsTerminated (items ++ [Comment text]).
Proof.
  intros Hi Ht t Hin. apply in_app_or in Hin as [Hin|[Hin|[]]].
  - now apply Hi.
  - now injection Hin as <-.
Qed.

Lemma CommentsTerminated_snoc_parsed items res pos :
  CommentsTerminated items -> CommentsTerminated (items ++ [Parsed res pos]).
Proof.
  intros Hi t Hin. apply in_app_or in Hin as [Hin|[Hin|[]]].
  - now apply Hi.
  - discriminate.
Qed.

Lemma transformStreamLoop_comments (fuel : nat) :
  forall data position lastPos pushed items st,
    CommentsTerminated pushed ->
    transformStreamLoop keepComments keepWhitespace selfClosingTags
      fuel data position lastPos pushed = Done (items, st) ->
    CommentsTerminated items.
Proof.
  induction fuel as [|fuel IH]; intros data position lastPos pushed items st
    Hpushed H; [discriminate|].
  cbn [transformStreamLoop] in H. cbv zeta in H.
  destruct (Z.eqb_spec (indexOf data [OPEN_BRACKET] position + 1) 0) as [_|Hp0].
  { now injection H as <- _. }
  destruct (codeIs data _ SLASH).
  { eapply IH; eassumption. }
  destruct (codeIs data (_ + 1) EXCLAMATION) eqn:H1;
    [destruct (codeIs data (_ + 1 + 1) MINUS) eqn:H2;
     [destruct (codeIs data (_ + 1 + 2) MINUS) eqn:H3|]|];
    cbn [andb] in H.
  - destruct (Z.eqb_spec (indexOf data (js "-->")
                            (indexOf data [OPEN_BRACKET] position + 1 + 3))
                (-1)) as [_|He0].
    { now injection H as <- _. }
    eapply IH; [|exact H].
    destruct keepComments; [|assumption].
    apply CommentsTerminated_snoc_comment; [assumption|].
    eapply pushed_comment_terminated; try reflexivity; try eassumption.
  - destruct (parseSingleNode _ _ _) as [[res pos]| |]; cbn [bind] in H;
      try discriminate.
    destruct (_ || _); [now injection H as <- _|].
    eapply IH; [|exact H]. now apply CommentsTerminated_snoc_parsed.
  - destruct (parseSingleNode _ _ _) as [[res pos]| |]; cbn [bind] in H;
      try discriminate.
    destruct (_ || _); [now injection H as <- _|].
    eapply IH; [|exact H]. now apply CommentsTerminated_snoc_parsed.
  - destruct (parseSingleNode _ _ _) as [[res pos]| |]; cbn [bind] in H;
      try discriminate.
    destruct (_ || _); [now injection H as <- _|].
    eapply IH; [|exact H]. now apply CommentsTerminated_snoc_parsed.
Qed.

End PushedComments.

(** C9.  In both adapters every comment pushed downstream has its two
    delimiters, whatever [keepComments] is, so a comment whose terminator
    is not in the buffer is not pushed; and a stream that is, in whatever
    chunks, one comment without terminator gives no item at all, also when
    it ends there. *)
Theorem unterminated_comment_not_pushed
    (keepComments keepWhitespace : bool)
    (selfClosingTags : option (list jsstring)) :
  (forall fuel st chunk items st',
      transformStream keepComments keepWhitespace selfClosingTags
        fuel st chunk = Done (items, st') ->
      CommentsTerminated items)
  /\ (forall fuel st chunk items st',
      transformWebStream keepComments keepWhitespace selfClosingTags
        fuel st chunk = Done (items, st') ->
      CommentsTerminated items)
  /\ (forall body chunks fuel,
      indexOfFrom (js "-->") body 0 = -1 ->
      concat chunks = js "<!--" ++ body ->
      (3 <= fuel)%nat ->
      runStream (transformStream keepComments keepWhitespace selfClosingTags)
        fuel (initialState (inl 0)) chunks = Done []
      /\ runStream
           (transformWebStream keepComments keepWhitespace selfClosingTags)
           fuel (initialState (inl 0)) chunks = Done []).
Proof.
  split; [|split].
  - intros fuel st chunk items st' H. unfold transformStream in H.
    eapply transformStreamLoop_comments; [|exact H]. intros t [].
  - intros fuel st chunk items st' H. rewrite transformWebStream_eq in H.
    unfold transformStream in H.
    eapply transformStreamLoop_comments; [|exact H]. intros t [].
  - intros body chunks fuel Hbody E Hf.
    assert (R : runStream
                  (transformStream keepComments keepWhitespace selfClosingTags)
                  fuel (initialState (inl 0)) chunks = Done []).
    { apply (runStream_unterminated _ _ _ body); assumption. }
    split; exact R.
Qed.

(** A comment that is never closed, in two chunks, with comments kept. *)
Lemma unterminated_comment_in_chunks :
  let body := js " never closed <a></a>" in
  let chunks := [js "<!-"; js "- never closed <a></a>"] in
  indexOfFrom (js "-->") body 0 = -1
  /\ concat chunks = js "<!--" ++ body
  /\ runStream (transformStream true false None) 3%nat
       (initialState (inl 0)) chunks = Done []
  /\ runStream (transformWebStream true false None) 3%nat
       (initialState (inl 0)) chunks = Done [].
Proof.
  intros body chunks. split; [reflexivity|]. split; [reflexivity|].
  apply (proj2 (proj2 (unterminated_comment_not_pushed true false None))
           body chunks 3%nat); [reflexivity|reflexivity|lia].
Defined.

(** ** Documents with a wrong close tag *)

Section WrongCloseTag.

Variable S : jsstring.
Variable keepComments keepWhitespace : bool.

(** The loop reads canonical children that a tag follows, one turn for
    each. *)
Lemma parseChildren_consume (ch : list Child) :
  canonicalChildren ch = true ->
  forall n tag p acc rest,
    (fuelOfList ch <= n)%nat ->
    Splits S p (childrenText ch ++ OPEN_BRACKET :: rest) ->
    parseChildren S keepComments keepWhitespace DEFAULT_SELF_CLOSING
      (length ch + n) tag p acc
    = parseChildren S keepComments keepWhitespace DEFAULT_SELF_CLOSING
        n tag (p + jslen (childrenText ch)) (acc ++ ch).
Proof.
  unfold canonicalChildren.
  induction ch as [|c ch IH]; intros Hc n tag p acc rest Hn H.
  - cbn [length Nat.add]. change (jslen (childrenText [])) with 0.
    rewrite app_nil_r. f_equal. lia.
  - apply andb_true_iff in Hc as [Hall Hadj].
    cbn [forallb] in Hall. apply andb_true_iff in Hall as [Hcc Hall].
    assert (Hadj' : noAdjacentText ch = true).
    { simpl in Hadj. destruct c; [destruct ch as [|[|] ?]|];
        try discriminate; assumption. }
    assert (Hch : forallb canonical ch && noAdjacentText ch = true)
      by now rewrite Hall, Hadj'.
    cbn [fuelOfList] in Hn.
    change (childrenText (c :: ch)) with (documentText c ++ childrenText ch)
      in *.
    rewrite <- app_assoc in H.
    cbn [length Nat.add]. rewrite parseChildren_S.
    destruct c as [s|t a chh].
    + assert (Hnext : exists r', childrenText ch ++ OPEN_BRACKET :: rest
                                 = OPEN_BRACKET :: r').
      { destruct ch as [|[s'|t' a' ch'] ch0].
        - now exists rest.
        - simpl in Hadj. discriminate.
        - unfold childrenText. simpl. eexists. reflexivity. }
      destruct Hnext as [r' Er'].
      cbn [documentText] in *. rewrite Er' in H.
      rewrite (parseChildrenBody_text _ _ _ _ _ _ _ _ _ _ H Hcc).
      rewrite (IH Hch n tag _ _ rest) by
        (try lia; apply Splits_skip in H; rewrite <- Er' in H; exact H).
      rewrite <- app_assoc. cbn [app]. f_equal.
      rewrite jslen_app. lia.
    + pose proof Hcc as Hcc'. cbn [canonical] in Hcc'.
      repeat (apply andb_true_iff in Hcc' as [Hcc' ?]).
      destruct (canonicalTag_inv _ Hcc')
        as [c1 [tl1 [Et [Hq [He [Hn1 _]]]]]].
      assert (Hs1 : N.eqb c1 SLASH = false).
      { apply (nameChars_not_slash t); [assumption|]. subst t. now left. }
      assert (Hnode :
        parseNode S keepComments keepWhitespace DEFAULT_SELF_CLOSING
          (length ch + n) p
        = Done (mkTNode t a chh, p + jslen (documentText (Elem t a chh)))).
      { eapply parseNode_canonical; [exact Hcc|reflexivity|lia|exact H]. }
      assert (H' : exists r', Splits S p (OPEN_BRACKET :: c1 :: r')).
      { cbn [documentText] in H. rewrite Et in H at 1. norm_app_in H.
        eexists. exact H. }
      destruct H' as [r' H'].
      rewrite (parseChildrenBody_element _ _ _ _ _ _ _ _ _ _ _ _ H' Hs1 He Hnode).
      2:{ cbn [TNode.tagName]. subst t. cbn [startsWith].
          rewrite N.eqb_sym, Hq. reflexivity. }
      rewrite (IH Hch n tag _ _ rest) by
        (try lia; now apply Splits_skip in H).
      rewrite <- app_assoc. cbn [app]. f_equal.
      rewrite jslen_app. lia.
Qed.




Lemma fuelOfList_positive (ch : list Child) : (1 <= fuelOfList ch)%nat.
Proof. destruct ch; simpl; lia. Qed.


End WrongCloseTag.

(** ** Declarations that are never closed *)


Lemma codeIs_other (S : jsstring) (i : Z) (c d : N) :
  codeIs S i c = true -> N.eqb c d = false -> codeIs S i d = false.
Proof.
  unfold codeIs. destruct (charCodeAt S i) as [x|]; [|discriminate].
  intros H. apply N.eqb_eq in H. now subst x.
Qed.




Lemma Splits_at (S : jsstring) (i : Z) :
  0 <= i <= jslen S -> Splits S i (suffixFrom S i).
Proof.
  intros Hi. exists (firstn (Z.to_nat i) S). unfold suffixFrom.
  destruct (Z.ltb_spec i 0) as [?|_]; [lia|].
  split; [now rewrite firstn_skipn|].
  unfold jslen in *. rewrite length_firstn. lia.
Qed.

Lemma Splits_between (S : jsstring) (a b : Z) (l m : jsstring) :
  Splits S a l -> Splits S b m -> a <= b -> Splits l (b - a) m.
Proof.
  intros Ha Hb Hab.
  pose proof (Splits_nonneg _ _ _ Ha) as Ha0.
  pose proof (Splits_jslen _ _ _ Ha) as Hla.
  pose proof (Splits_jslen _ _ _ Hb) as Hlb.
  pose proof (jslen_nonneg m) as Hm.
  rewrite <- (Splits_suffix _ _ _ Ha), <- (Splits_suffix _ _ _ Hb).
  assert (E : suffixFrom S b = suffixFrom (suffixFrom S a) (b - a)).
  { unfold suffixFrom.
    destruct (Z.ltb_spec a 0) as [?|_]; [lia|].
    destruct (Z.ltb_spec b 0) as [?|_]; [lia|].
    destruct (Z.ltb_spec (b - a) 0) as [?|_]; [lia|].
    rewrite skipn_skipn. f_equal. lia. }
  rewrite E. apply Splits_at.
  rewrite (Splits_suffix _ _ _ Ha). lia.
Qed.

Lemma indexOfFrom_occurs (pat pre rest : jsstring) (i : Z) :
  0 <= i -> indexOfFrom pat (pre ++ pat ++ rest) i <> -1.
Proof.
  revert i. induction pre as [|c pre IH]; intros i Hi.
  - cbn [app]. rewrite indexOfFrom_here by apply startsWith_self. lia.
  - cbn [app indexOfFrom].
    destruct (startsWith pat (c :: pre ++ pat ++ rest)); [lia|].
    apply IH. lia.
Qed.


Section Unterminated.

Variable S : jsstring.
Variable keepComments keepWhitespace : bool.
Variable selfClosingTags : list jsstring.

Lemma parseChildren_end fuel tagName pos children :
  jslen S <= pos ->
  parseChildren S keepComments keepWhitespace selfClosingTags
    (Datatypes.S fuel) tagName pos children
  = Done (children, pos).
Proof.
  intros H. rewrite parseChildren_unfold. unfold parseChildrenBody.
  now rewrite charCodeAt_outside.
Qed.




(** The turn of the loop on a close tag: it throws when the text captured
    up to where the search for ['>'] ends does not contain the name, and
    returns the children when it does. *)
Lemma parseChildren_close_tag fuel tagName p children :
  charCodeAt S p = Some OPEN_BRACKET ->
  codeIs S (p + 1) SLASH = true ->
  let q := indexOf S [CLOSE_BRACKET] p in
  parseChildren S keepComments keepWhitespace selfClosingTags
    (Datatypes.S fuel) tagName p children
  = if includes (substring S (p + 2) q) tagName
    then Done (children, if q + 1 =? 0 then q else q + 1)
    else Throw (unexpectedCloseTag S q).
Proof.
  intros Hc Hs q. rewrite parseChildren_unfold. unfold parseChildrenBody.
  rewrite Hc. change (N.eqb OPEN_BRACKET OPEN_BRACKET) with true. cbv iota.
  rewrite Hs. cbv zeta. fold q.
  now destruct (includes (substring S (p + 2) q) tagName).
Qed.

End Unterminated.




(* ================================================================== *)
(** * Further properties of the code *)
(* ================================================================== *)

(** ** [filter] *)

Lemma filterChild_by_node (g : TNode -> bool) (c : Child) :
  forall depth path i,
    filterChild (fun node _ _ _ => g node) depth path i c
    = List.filter g (elementsOf c).
Proof.
  induction c as [s|tag attrs ch IH] using Child_forall_ind;
    intros depth path i; [reflexivity|].
  cbn [filterChild elementsOf List.filter]. unfold asNode.
  set (newPath := _ ++ numberToString i ++ js "." ++ tag).
  assert (E : forall j,
    (fix forEach (l : list Child) (j : Z) {struct l} : list TNode :=
       match l with
       | [] => []
       | c :: l' =>
           filterChild (fun node _ _ _ => g node) (depth + 1) newPath j c
             ++ forEach l' (j + 1)
       end) ch j
    = List.filter g (flat_map elementsOf ch)).
  { induction IH as [|c l Hc Hl IHl]; intros j; [reflexivity|].
    cbn [flat_map]. rewrite filter_app, Hc, IHl. reflexivity. }
  rewrite E. now destruct (g (mkTNode tag attrs ch)).
Qed.

(** X1.  With a predicate that looks at the node only, [filter] returns
    the elements of the tree at every depth that satisfy it, in document
    order, each element before the elements inside it. *)
Theorem filter_by_node (g : TNode -> bool) (children : list Child)
    (depth : Z) (path : jsstring) :
  filter children (fun node _ _ _ => g node) depth path
  = List.filter g (descendants children).
Proof.
  unfold filter, descendants. generalize 0.
  induction children as [|c l IH]; intros i; [reflexivity|].
  cbn [filterFrom flat_map]. now rewrite filter_app, filterChild_by_node, IH.
Qed.

Lemma filterChild_deeper (depth : Z) (c : Child) :
  forall d path i,
    depth < d ->
    filterChild (fun _ _ d' _ => d' =? depth) d path i c = [].
Proof.
  induction c as [s|tag attrs ch IH] using Child_forall_ind;
    intros d path i Hd; [reflexivity|].
  cbn [filterChild].
  set (newPath := _ ++ numberToString i ++ js "." ++ tag).
  destruct (Z.eqb_spec d depth) as [?|_]; [lia|]. cbn [app].
  generalize 0.
  induction IH as [|c l Hc Hl IHl]; intros j; [reflexivity|].
  rewrite Hc by lia. cbn [app]. apply IHl.
Qed.

(** X2.  The depth handed to the predicate is the depth [filter] was
    called with for the children themselves and a greater one for
    everything inside them: the predicate [depth === d], with [filter]
    called at depth [d], selects the element children and nothing else. *)
Theorem filter_top_level (children : list Child) (depth : Z)
    (path : jsstring) :
  filter children (fun _ _ d _ => d =? depth) depth path
  = elementChildren children.
Proof.
  unfold filter, elementChildren. generalize 0.
  induction children as [|c l IH]; intros i; [reflexivity|].
  cbn [filterFrom flat_map]. rewrite IH. f_equal.
  destruct c as [s|tag attrs ch]; [reflexivity|].
  cbn [filterChild]. rewrite Z.eqb_refl. cbn [app]. f_equal.
  set (newPath := _ ++ numberToString i ++ js "." ++ tag).
  generalize 0. induction ch as [|c ch IHch]; intros j; [reflexivity|].
  rewrite filterChild_deeper by lia. cbn [app]. apply IHch.
Qed.

(** ** [simplify] and [simplifyLostLess] *)

Lemma simplifyWith_elements (kidsOf : Child -> value) (l : list Child) :
  textOnly l = false ->
  simplifyWith kidsOf l
  = VObject
      (collapse
         (fold_left
            (fun out child =>
               match child with
               | Str _ => out
               | Elem tag attrs _ =>
                   pushKids out tag (attachAttributes attrs (kidsOf child))
               end) l [])).
Proof. destruct l as [|[s|tag attrs ch] [|c l]]; try discriminate; reflexivity. Qed.

Lemma fold_skips_text {A} (step : A -> Child -> A) (l : list Child) :
  (forall out s, step out (Str s) = out) ->
  forall out, fold_left step (List.filter isElem l) out = fold_left step l out.
Proof.
  intros Hs. induction l as [|[s|tag attrs ch] l IH]; intros out;
    [reflexivity| |]; cbn [List.filter isElem fold_left].
  - now rewrite Hs.
  - apply IH.
Qed.

Lemma textOnly_elements (l : list Child) :
  existsb isElem l = true ->
  textOnly l = false /\ textOnly (List.filter isElem l) = false.
Proof.
  intros H. split.
  - destruct l as [|[s|tag attrs ch] [|c l]]; try discriminate; reflexivity.
  - induction l as [|[s|tag attrs ch] l IH]; [discriminate| |].
    + apply IH. exact H.
    + cbn [List.filter isElem]. now destruct (List.filter isElem l).
Qed.

(** X3.  When one of the children is an element, [simplify] does not
    look at the text children: the result is that of the element
    children alone. *)
Theorem simplify_ignores_mixed_text (children : list Child) :
  existsb isElem children = true ->
  simplify children = simplify (List.filter isElem children).
Proof.
  intros H. destruct (textOnly_elements children H) as [H1 H2].
  unfold simplify. rewrite !simplifyWith_elements by assumption.
  now rewrite fold_skips_text.
Qed.

(** Text between two elements is lost. *)
Lemma simplify_ignores_mixed_text_example :
  existsb isElem [Str (js "a"); Elem (js "b") [] [Str (js "c")]; Str (js "d")]
  = true
  /\ simplify [Str (js "a"); Elem (js "b") [] [Str (js "c")]; Str (js "d")]
     = simplify [Elem (js "b") [] [Str (js "c")]].
Proof.
  split; [reflexivity|].
  apply (simplify_ignores_mixed_text
           [Str (js "a"); Elem (js "b") [] [Str (js "c")]; Str (js "d")]).
  reflexivity.
Defined.

Lemma textOnly_withoutLeafAttributes (l : list Child) :
  textOnly (map withoutLeafAttributes l) = textOnly l.
Proof. destruct l as [|[s|tag attrs ch] [|c2 l]]; reflexivity. Qed.

Lemma simplifyWith_textOnly (kidsOf : Child -> value) (l : list Child) :
  textOnly l = true -> exists s, simplifyWith kidsOf l = VString s.
Proof.
  destruct l as [|[s|tag attrs ch] [|c l]]; try discriminate; intros _;
    eexists; reflexivity.
Qed.

Lemma simplifyKids_withoutLeafAttributes (c : Child) :
  simplifyKids (withoutLeafAttributes c) = simplifyKids c.
Proof.
  induction c as [s|tag attrs ch IH] using Child_forall_ind; [reflexivity|].
  cbn [withoutLeafAttributes simplifyKids].
  pose proof (textOnly_withoutLeafAttributes ch) as Hshape.
  destruct (textOnly ch) eqn:Ht.
  - destruct ch as [|[s|t a c] [|c2 l]]; try discriminate; reflexivity.
  - rewrite !simplifyWith_elements by congruence. do 2 f_equal.
    clear Ht Hshape. generalize (@nil (jsstring * list value)).
    induction IH as [|c l Hc Hl IHl]; intros out; [reflexivity|].
    cbn [map fold_left]. rewrite IHl. f_equal.
    destruct c as [s|t a cc]; [reflexivity|].
    cbn [withoutLeafAttributes]. f_equal.
    change (simplifyKids (Elem t (if textOnly cc then [] else a)
                            (map withoutLeafAttributes cc)))
      with (simplifyKids (withoutLeafAttributes (Elem t a cc))).
    rewrite Hc. cbn [simplifyKids].
    destruct (textOnly cc) eqn:Hcc; [|reflexivity].
    destruct (simplifyWith_textOnly simplifyKids cc Hcc) as [s ->].
    now destruct a.
Qed.

(** X4.  [simplify] loses the attributes of every element whose content
    is empty or a single text: the result is the same as for the tree with
    these attributes removed. *)
Theorem simplify_loses_leaf_attributes (children : list Child) :
  simplify (map withoutLeafAttributes children) = simplify children.
Proof.
  change (simplify (map withoutLeafAttributes children))
    with (simplifyKids (withoutLeafAttributes (Elem [] [] children))).
  now rewrite simplifyKids_withoutLeafAttributes.
Qed.






(** ** [stringify] *)
















(** ** Text between tags *)

Lemma slice_to_end (S : jsstring) (p b : Z) (text : jsstring) :
  Splits S p text -> jslen S <= b -> slice S p b = text.
Proof.
  intros H Hb. pose proof (Splits_nonneg _ _ _ H) as Hp.
  pose proof (Splits_jslen _ _ _ H) as Hlen.
  pose proof (jslen_nonneg text) as Ht.
  unfold slice, sliceIndex.
  destruct (Z.ltb_spec p 0) as [?|_]; [lia|].
  destruct (Z.ltb_spec b 0) as [?|_]; [lia|].
  rewrite (Z.min_l p) by lia. rewrite (Z.min_r b) by lia.
  destruct H as [pre [-> ->]]. rewrite to_nat_jslen.
  rewrite skipn_app, skipn_all, Nat.sub_diag. cbn [skipn app].
  apply firstn_all2. rewrite jslen_app in *. unfold jslen in *. lia.
Qed.

Section TextChildren.

Variable S : jsstring.
Variable keepComments keepWhitespace : bool.
Variable selfClosingTags : list jsstring.

Lemma text_starts (text : jsstring) :
  text <> [] -> hasChar OPEN_BRACKET text = false ->
  exists c r, text = c :: r /\ N.eqb c OPEN_BRACKET = false.
Proof.
  intros Hne Hno. destruct text as [|c r]; [contradiction|].
  exists c, r. split; [reflexivity|].
  cbn [hasChar existsb] in Hno. apply orb_false_iff in Hno as [Hc _].
  now rewrite N.eqb_sym.
Qed.

(** X10.  A text between tags becomes one string child: with
    [keepWhitespace] the text as it is, otherwise the trimmed text, and
    nothing when only white space is left.  A text that runs to the end of
    the input is kept in the same way, and [parseChildren] returns there. *)
Theorem text_child
    (fuel : nat) (tagName : jsstring) (p : Z) (children : list Child)
    (text : jsstring) :
  text <> [] ->
  hasChar OPEN_BRACKET text = false ->
  (forall rest,
      Splits S p (text ++ OPEN_BRACKET :: rest) ->
      parseChildren S keepComments keepWhitespace selfClosingTags
        (Datatypes.S fuel) tagName p children
      = parseChildren S keepComments keepWhitespace selfClosingTags
          fuel tagName (p + jslen text)
          (children ++ keptText keepWhitespace text))
  /\ (Splits S p text ->
      parseChildren S keepComments keepWhitespace selfClosingTags
        (Datatypes.S (Datatypes.S fuel)) tagName p children
      = Done (children ++ keptText keepWhitespace text, jslen S + 1)).
Proof.
  intros Hne Hno.
  destruct (text_starts text Hne Hno) as [c [r [E Hc]]].
  pose proof (hasChar_false _ _ Hno) as Hin.
  pose proof (jslen_nonneg text) as Hlen.
  split.
  - intros rest H. rewrite parseChildren_unfold. unfold parseChildrenBody.
    assert (Hchar : charCodeAt S p = Some c).
    { subst text. eapply Splits_char. exact H. }
    rewrite Hchar, Hc. unfold parseText.
    rewrite (Splits_indexOf_char _ _ _ _ _ H Hin).
    pose proof (Splits_nonneg _ _ _ H).
    destruct (Z.eqb_spec (p + jslen text - 1) (-2)); [lia|].
    replace (p + jslen text - 1 + 1) with (p + jslen text) by lia.
    rewrite (Splits_slice _ _ _ _ H). unfold keptText.
    destruct keepWhitespace.
    + destruct (0 <? jslen text); [reflexivity|now rewrite app_nil_r].
    + cbv zeta. destruct (0 <? jslen (trim text));
        [reflexivity|now rewrite app_nil_r].
  - intros H. rewrite parseChildren_unfold. unfold parseChildrenBody.
    assert (Hchar : charCodeAt S p = Some c).
    { subst text. eapply Splits_char. exact H. }
    rewrite Hchar, Hc. unfold parseText.
    rewrite (Splits_indexOf _ _ _ _ H), (indexOfFrom_char_absent _ _ _ Hin).
    change (-1 - 1 =? -2) with true. cbv iota.
    rewrite (slice_to_end S p (jslen S + 1) text H) by lia.
    rewrite parseChildren_unfold. unfold parseChildrenBody.
    rewrite charCodeAt_outside by lia. unfold keptText.
    destruct keepWhitespace.
    + destruct (0 <? jslen text); [reflexivity|now rewrite app_nil_r].
    + cbv zeta. destruct (0 <? jslen (trim text));
        [reflexivity|now rewrite app_nil_r].
Qed.

End TextChildren.

(** A text with white space around it, before a tag and at the end of the
    input, with and without [keepWhitespace]. *)
Lemma text_child_example :
  let S := js " a b <c></c> d " in
  (js " a b " <> [] /\ hasChar OPEN_BRACKET (js " a b ") = false)
  /\ parseChildren S false false DEFAULT_SELF_CLOSING 5 [] 0 []
     = parseChildren S false false DEFAULT_SELF_CLOSING 4 [] 5 [Str (js "a b")]
  /\ parseChildren S false true DEFAULT_SELF_CLOSING 2 [] 12 []
     = Done ([Str (js " d ")], 16)
  /\ parse ParseOptions.default 20 S
     = Done (Nodes [Str (js "a b"); Elem (js "c") [] []; Str (js "d")]).
Proof.
  intros S. split; [split; [discriminate|reflexivity]|].
  split; [|split; [|reflexivity]].
  - apply (proj1 (text_child S false false DEFAULT_SELF_CLOSING 4 [] 0 []
                    (js " a b ") ltac:(discriminate) eq_refl)
             (js "c></c> d ")).
    now exists [].
  - apply (proj2 (text_child S false true DEFAULT_SELF_CLOSING 0 [] 12 []
                    (js " d ") ltac:(discriminate) eq_refl)).
    now exists (js " a b <c></c>").
Defined.

(** ** The attribute loop before other ends of a tag *)

Section AttributeTail.

(** The text [T] that follows the attributes, what the loop returns once
    it has reached [T] with the attributes read so far, and the number [k]
    of turns it needs for [T]. *)
Variable S : jsstring.
Variable T : jsstring.
Variable fin : Attributes -> Z -> Attributes * Z * bool.
Variable Q : option jsstring -> bool.
Variable k : nat.

Hypothesis tail_alone : forall n p acc,
  Splits S p T ->
  parseAttributes S (k + n) p acc = Done (fin acc p).

Hypothesis tail_after : forall n p acc name value,
  canonicalName name = true -> readableValue value = true ->
  Q value = true ->
  Splits S p (name ++ valueText value ++ T) ->
  parseAttributes S (Datatypes.S (k + n)) p acc
  = Done (fin (setAttribute acc name value)
            (p + jslen (name ++ valueText value))).

Lemma parseAttributes_tail (attrs : Attributes) :
  forallb readableAttribute attrs = true ->
  forallb (fun kv => Q (snd kv)) attrs = true ->
  (forall n p acc,
      Splits S p (attributesText attrs ++ T) ->
      (2 * length attrs + k <= n)%nat ->
      parseAttributes S n p acc
      = Done (fin (setAttributes acc attrs) (p + jslen (attributesText attrs))))
  /\ (forall name value n p acc,
      canonicalName name = true -> readableValue value = true ->
      Q value = true ->
      Splits S p (name ++ valueText value ++ attributesText attrs ++ T) ->
      (2 * length attrs + k + 1 <= n)%nat ->
      parseAttributes S n p acc
      = Done (fin (setAttributes (setAttribute acc name value) attrs)
                (p + jslen (name ++ valueText value ++ attributesText attrs)))).
Proof.
  induction attrs as [|[name' value'] attrs IH]; intros Hall HQ.
  - split.
    + intros n p acc H Hn. cbn [attributesText map concat app] in *.
      cbn [length Nat.mul Nat.add] in Hn.
      replace n with (k + (n - k))%nat by lia.
      rewrite (tail_alone (n - k) p acc H). cbn [setAttributes fold_left].
      do 2 f_equal. change (jslen []) with 0. lia.
    + intros name value n p acc Hname Hvalue Hq H Hn.
      cbn [attributesText map concat app] in *.
      cbn [length Nat.mul Nat.add] in Hn.
      replace n with (Datatypes.S (k + (n - k - 1)))%nat by lia.
      rewrite (tail_after (n - k - 1) p acc name value Hname Hvalue Hq H).
      cbn [setAttributes fold_left]. now rewrite app_nil_r.
  - cbn [forallb] in Hall, HQ.
    apply andb_true_iff in Hall as [Ha Hall].
    apply andb_true_iff in HQ as [Hq' HQ]. cbn [snd] in Hq'.
    unfold readableAttribute in Ha. cbn [fst snd] in Ha.
    apply andb_true_iff in Ha as [Hname' Hvalue'].
    destruct (IH Hall HQ) as [IHA IHA'].
    assert (A : forall n p acc,
      Splits S p (attributesText ((name', value') :: attrs) ++ T) ->
      (2 * length ((name', value') :: attrs) + k <= n)%nat ->
      parseAttributes S n p acc
      = Done (fin (setAttributes acc ((name', value') :: attrs))
                (p + jslen (attributesText ((name', value') :: attrs))))).
    { intros n p acc H Hn. cbn [length] in Hn.
      destruct n as [|n]; [lia|].
      rewrite attributesText_cons in *. cbn [fst snd] in *.
      cbn [app] in H.
      rewrite (parseAttributes_other S n p acc 32%N _ H) by reflexivity.
      rewrite (IHA' name' value' n (p + 1) acc Hname' Hvalue' Hq').
      - cbn [setAttributes fold_left fst snd]. do 2 f_equal.
        rewrite jslen_cons. lia.
      - apply Splits_next in H. now rewrite <- !app_assoc in H.
      - lia. }
    split; [exact A|].
    intros name value n p acc Hname Hvalue Hq H Hn.
    cbn [length] in Hn. destruct n as [|n]; [lia|].
    destruct value as [v|].
    + destruct (readableValue_quote v Hvalue) as [q [Hqq [Hv E]]].
      rewrite E in *. rewrite <- !app_assoc in H.
      rewrite (parseAttributes_value S n p acc name q v _ H Hname Hqq Hv).
      rewrite (A n _ _).
      * do 2 f_equal. rewrite !jslen_app. lia.
      * apply Splits_skip. now rewrite <- !app_assoc.
      * cbn [length]. lia.
    + cbn [valueText] in *. rewrite app_nil_l in *.
      rewrite attributesText_cons in *. cbn [fst snd] in *.
      destruct (canonicalName_inv _ Hname') as [c [tl [E [Hc Hn']]]].
      assert (H0 : Splits S p (name ++ 32%N :: c :: tl ++ valueText value'
                                 ++ attributesText attrs ++ T)).
      { rewrite E in H. cbn [app] in H. rewrite <- ?app_assoc in H.
        exact H. }
      rewrite (parseAttributes_flag_more S n p acc name c _ H0 Hname Hc).
      rewrite (IHA' name' value' n (p + jslen name + 1) _ Hname' Hvalue' Hq').
      * cbn [setAttributes fold_left fst snd]. do 2 f_equal.
        rewrite !jslen_app, jslen_cons, !jslen_app. lia.
      * apply Splits_skip in H0. apply Splits_next in H0.
        rewrite E. exact H0.
      * lia.
Qed.

End AttributeTail.

(** ** Tags that are closed where they open *)

(** [parseNode] on an open tag whose attribute names may repeat. *)
Lemma parseNodeBody_open_any S selfClosing call p tag attrs inner :
  tag <> [] -> nameChars tag = true ->
  forallb readableAttribute attrs = true ->
  Splits S p (OPEN_BRACKET :: tag ++ attributesText attrs
                ++ CLOSE_BRACKET :: inner) ->
  let pos := p + 1 + jslen tag + jslen (attributesText attrs) in
  let attributes := setAttributes [] attrs in
  parseNodeBody S selfClosing call p
  = if streq tag (js "script") then
      let start := pos + 1 in
      let pos := indexOf S (js "</script>") pos in
      Done (mkTNode tag attributes [Str (slice S start pos)], pos + 9)
    else if streq tag (js "style") then
      let start := pos + 1 in
      let pos := indexOf S (js "</style>") pos in
      Done (mkTNode tag attributes [Str (slice S start pos)], pos + 8)
    else if negb (arrayIncludes selfClosing tag) then
      ' (children, pos) <- call tag (pos + 1) ;;
      Done (mkTNode tag attributes children, pos)
    else Done (mkTNode tag attributes [], pos + 1).
Proof.
  intros Ht Hn Ha H pos attributes.
  unfold parseNodeBody.
  pose proof (Splits_next _ _ _ _ H) as H1.
  rewrite (parseName_name S (p + 1) tag _ H1 Hn)
    by apply attributesText_starts.
  pose proof (Splits_skip _ _ _ _ H1) as H2.
  destruct (parseAttributes_readable S attrs Ha) as [A _].
  rewrite (A (length S) _ [] inner H2).
  2:{ pose proof (attributesText_length attrs Ha) as Hlen.
      pose proof (Splits_jslen _ _ _ H2) as Hj.
      pose proof (Splits_nonneg _ _ _ H2).
      rewrite jslen_app in Hj. pose proof (jslen_nonneg (CLOSE_BRACKET :: inner)).
      unfold jslen in *. lia. }
  cbn [bind].
  destruct (openTag_last tag attrs Ht Hn Ha) as [init [cl [El Hcl]]].
  assert (Hprev : codeIs S (p + 1 + jslen tag + jslen (attributesText attrs) - 1)
                    SLASH = false).
  { assert (H3 : Splits S (p + 1) (init ++ cl :: CLOSE_BRACKET :: inner)).
    { replace (init ++ cl :: CLOSE_BRACKET :: inner)
        with ((init ++ [cl]) ++ CLOSE_BRACKET :: inner) by now norm_app.
      rewrite <- El. now norm_app. }
    apply Splits_skip in H3.
    assert (Hlen : jslen tag + jslen (attributesText attrs) = jslen init + 1).
    { rewrite <- jslen_app, El, jslen_app. reflexivity. }
    replace (p + 1 + jslen tag + jslen (attributesText attrs) - 1)
      with (p + 1 + jslen init) by lia.
    now rewrite (Splits_codeIs _ _ _ _ _ H3). }
  rewrite Hprev. reflexivity.
Qed.

Section VoidElements.

Variable S : jsstring.
Variable keepComments keepWhitespace : bool.
Variable selfClosingTags : list jsstring.

(** X11.  An element whose name is in [selfClosingTags] has no children
    and needs no close tag: [parseNode] returns at the ['>'] of its open
    tag, so what follows is read as its sibling. *)
Theorem void_element
    (fuel : nat) (p : Z) (tag : jsstring) (attrs : Attributes)
    (rest : jsstring) :
  arrayIncludes selfClosingTags tag = true ->
  streq tag (js "script") = false -> streq tag (js "style") = false ->
  tag <> [] -> nameChars tag = true ->
  forallb readableAttribute attrs = true ->
  Splits S p (openTagText tag attrs ++ rest) ->
  parseNode S keepComments keepWhitespace selfClosingTags
    (Datatypes.S fuel) p
  = Done (mkTNode tag (setAttributes [] attrs) [],
          p + jslen (openTagText tag attrs)).
Proof.
  intros Hv Hsc Hst Ht Hn Ha H.
  rewrite parseNode_unfold.
  unfold openTagText in H. norm_app_in H.
  rewrite (parseNodeBody_open_any S _ _ p tag attrs rest Ht Hn Ha H).
  cbv zeta. rewrite Hsc, Hst, Hv. cbn [negb].
  do 2 f_equal. unfold openTagText. rewrite !jslen_app.
  change (jslen [OPEN_BRACKET]) with 1. change (jslen [CLOSE_BRACKET]) with 1.
  lia.
Qed.

End VoidElements.

(** The documented [br] inside a paragraph: the text after it belongs to
    the paragraph. *)
Lemma void_element_example :
  let S := js "<p>a<br class=" ++ dq ++ js "x" ++ dq ++ js ">b</p>" in
  parseNode S false false DEFAULT_SELF_CLOSING 1 4
  = Done (mkTNode (js "br") [(js "class", Some (js "x"))] [], 18)
  /\ parse ParseOptions.default 20 S
     = Done (Nodes [Elem (js "p") []
                      [Str (js "a");
                       Elem (js "br") [(js "class", Some (js "x"))] [];
                       Str (js "b")]]).
Proof.
  intros S. split; [|reflexivity].
  apply (void_element S false false DEFAULT_SELF_CLOSING 0 4 (js "br")
           [(js "class", Some (js "x"))] (js "b</p>"));
    try reflexivity; [discriminate|now exists (js "<p>a")].
Defined.

(** A name without a value, before the slash of [/>]. *)
Lemma parseAttributes_flag_slash S n p acc name rest :
  Splits S p (name ++ SLASH :: CLOSE_BRACKET :: rest) ->
  canonicalName name = true ->
  parseAttributes S (Datatypes.S n) p acc
  = parseAttributes S n (p + jslen name + 1) (setAttribute acc name None).
Proof.
  intros H Hname.
  destruct (canonicalName_inv _ Hname) as [c [name' [E [Hc Hn]]]].
  assert (Hchar : charCodeAt S p = Some c).
  { subst name. eapply Splits_char. exact H. }
  cbn [parseAttributes]. rewrite Hchar, (letter_not_close _ Hc), Hc.
  rewrite (parseName_name S p name _ H Hn) by reflexivity.
  pose proof (Splits_skip _ _ _ _ H) as H1.
  rewrite (Splits_suffix _ _ _ H1). cbn [skipToValue].
  change (N.eqb SLASH 0) with false.
  change (N.eqb SLASH SINGLE_QUOTE) with false.
  change (N.eqb SLASH DOUBLE_QUOTE) with false.
  change (isLetter SLASH) with false.
  change (N.eqb SLASH CLOSE_BRACKET) with false. cbn [negb andb].
  change (N.eqb CLOSE_BRACKET CLOSE_BRACKET) with true.
  rewrite !andb_false_r.
  pose proof (Splits_next _ _ _ _ H1) as H2.
  rewrite !(Splits_codeIs _ _ _ _ _ H2).
  change (N.eqb CLOSE_BRACKET SINGLE_QUOTE) with false.
  change (N.eqb CLOSE_BRACKET DOUBLE_QUOTE) with false.
  cbn [orb]. f_equal. lia.
Qed.

(** The attribute loop before [c>], where [c] is a slash or a question
    mark. *)
Lemma parseAttributes_mark S (c : N) (attrs : Attributes) (rest : jsstring) :
  c = SLASH \/ (c = QUESTION
                /\ forallb (fun kv => match snd kv with
                                      | Some _ => true
                                      | None => false
                                      end) attrs = true) ->
  forallb readableAttribute attrs = true ->
  forall n p acc,
    Splits S p (attributesText attrs ++ c :: CLOSE_BRACKET :: rest) ->
    (2 * length attrs + 2 <= n)%nat ->
    parseAttributes S n p acc
    = Done (setAttributes acc attrs, p + jslen (attributesText attrs) + 1,
            false).
Proof.
  intros Hc Ha.
  assert (Hother : N.eqb c CLOSE_BRACKET = false /\ isLetter c = false).
  { destruct Hc as [->|[-> _]]; now split. }
  destruct Hother as [Hc1 Hc2].
  assert (E0 : forall n p acc,
             Splits S p (c :: CLOSE_BRACKET :: rest) ->
             parseAttributes S (Datatypes.S n) p acc = Done (acc, p + 1, false)).
  { intros n p acc H.
    rewrite (parseAttributes_other S n p acc c _ H Hc1 Hc2).
    apply Splits_next in H. apply (parseAttributes_end S n _ _ rest H). }
  set (Q := fun value : option jsstring =>
              match value with
              | Some _ => true
              | None => N.eqb c SLASH
              end).
  assert (HQ : forallb (fun kv => Q (snd kv)) attrs = true).
  { destruct Hc as [->|[-> Hall]].
    - apply forallb_forall. intros [k [v|]] _; reflexivity.
    - rewrite forallb_forall in *. intros kv Hin. specialize (Hall kv Hin).
      unfold Q. destruct (snd kv); [reflexivity|discriminate]. }
  assert (T0 : forall n p acc,
             Splits S p (c :: CLOSE_BRACKET :: rest) ->
             parseAttributes S (Datatypes.S (Datatypes.S n)) p acc
             = Done (acc, p + 1, false)).
  { intros n p acc H. apply E0. exact H. }
  assert (T1 : forall n p acc name value,
             canonicalName name = true -> readableValue value = true ->
             Q value = true ->
             Splits S p (name ++ valueText value ++ c :: CLOSE_BRACKET :: rest) ->
             parseAttributes S (Datatypes.S (Datatypes.S (Datatypes.S n))) p acc
             = Done (setAttribute acc name value,
                     p + jslen (name ++ valueText value) + 1, false)).
  { intros n p acc name value Hname Hvalue Hq H.
    destruct value as [v|].
    + destruct (readableValue_quote v Hvalue) as [q [Hqq [Hv E]]].
      rewrite E in *. rewrite <- !app_assoc in H.
      rewrite (parseAttributes_value S _ p acc name q v _ H Hname Hqq Hv).
      rewrite E0.
      * do 2 f_equal.
      * apply Splits_skip. now rewrite <- !app_assoc.
    + cbn [valueText app] in *. unfold Q in Hq. apply N.eqb_eq in Hq.
      subst c.
      rewrite (parseAttributes_flag_slash S _ p acc name rest H Hname).
      rewrite (parseAttributes_end S _ _ _ rest).
      * do 3 f_equal. rewrite app_nil_r. reflexivity.
      * apply Splits_skip in H. now apply Splits_next in H. }
  destruct (parseAttributes_tail S (c :: CLOSE_BRACKET :: rest)
              (fun acc t => (acc, t + 1, false)) Q 2 T0 T1 attrs Ha HQ)
    as [A _].
  exact A.
Qed.

Lemma attributesText_before_mark attrs c rest :
  isNameEnd c = true ->
  match attributesText attrs ++ c :: rest with
  | x :: _ => isNameEnd x = true
  | [] => True
  end.
Proof.
  intros Hc. destruct attrs as [|kv attrs]; [exact Hc|].
  rewrite attributesText_cons. reflexivity.
Qed.

Lemma getAttribute_setAttribute (a : Attributes) k v name :
  getAttribute (setAttribute a k v) name
  = if streq k name then Some v else getAttribute a name.
Proof.
  induction a as [|[k' w] a IH]; cbn [setAttribute getAttribute].
  - reflexivity.
  - destruct (streq k' k) eqn:E; cbn [getAttribute].
    + apply streq_eq in E. subst k'. now destruct (streq k name).
    + rewrite IH. destruct (streq k' name) eqn:E'; [|reflexivity].
      apply streq_eq in E'. subst k'. now rewrite streq_sym, E.
Qed.

Lemma getAttribute_app (a b : Attributes) name :
  getAttribute (a ++ b) name
  = match getAttribute a name with
    | Some w => Some w
    | None => getAttribute b name
    end.
Proof.
  induction a as [|[k w] a IH]; [reflexivity|].
  cbn [app getAttribute]. now destruct (streq k name).
Qed.

Lemma getAttribute_setAttributes (acc attrs : Attributes) name :
  getAttribute (setAttributes acc attrs) name
  = match getAttribute (rev attrs) name with
    | Some w => Some w
    | None => getAttribute acc name
    end.
Proof.
  revert acc. induction attrs as [|[k v] attrs IH]; intros acc; [reflexivity|].
  cbn [setAttributes fold_left fst snd rev].
  change (fold_left (fun a kv => setAttribute a (fst kv) (snd kv)) attrs
            (setAttribute acc k v))
    with (setAttributes (setAttribute acc k v) attrs).
  rewrite IH, getAttribute_app, getAttribute_setAttribute.
  cbn [getAttribute]. destruct (getAttribute (rev attrs) name); [reflexivity|].
  now destruct (streq k name).
Qed.

Lemma memb_setAttribute (a : Attributes) k v :
  map fst (setAttribute a k v)
  = if memb k (map fst a) then map fst a else map fst a ++ [k].
Proof.
  induction a as [|[k' w] a IH]; [reflexivity|].
  cbn [setAttribute map fst memb existsb].
  fold (memb k (map fst a)).
  destruct (streq k' k) eqn:E.
  - rewrite streq_sym, E. reflexivity.
  - rewrite streq_sym, E. cbn [map fst orb]. rewrite IH.
    now destruct (memb k (map fst a)).
Qed.

Lemma names_setAttributes (attrs : Attributes) :
  map fst (setAttributes [] attrs) = distinct (map fst attrs).
Proof.
  induction attrs as [|[k v] attrs IH] using rev_ind; [reflexivity|].
  unfold setAttributes. rewrite fold_left_app. cbn [fold_left fst snd].
  fold (setAttributes [] attrs).
  rewrite memb_setAttribute, IH, map_app. cbn [map fst].
  rewrite distinct_snoc, memb_distinct. reflexivity.
Qed.

Section SelfClosed.

Variable S : jsstring.
Variable keepComments keepWhitespace : bool.
Variable selfClosingTags : list jsstring.

Lemma parseNode_self_closed
    (fuel : nat) (p : Z) (tag : jsstring) (attrs : Attributes)
    (rest : jsstring) :
  nameChars tag = true ->
  forallb readableAttribute attrs = true ->
  Splits S p ([OPEN_BRACKET] ++ tag ++ attributesText attrs
                ++ [SLASH; CLOSE_BRACKET] ++ rest) ->
  parseNode S keepComments keepWhitespace selfClosingTags
    (Datatypes.S fuel) p
  = Done (mkTNode tag (setAttributes [] attrs) [],
          p + jslen ([OPEN_BRACKET] ++ tag ++ attributesText attrs
                       ++ [SLASH; CLOSE_BRACKET])).
Proof.
  intros Hn Ha H. rewrite parseNode_unfold. unfold parseNodeBody.
  cbn [app] in H. pose proof (Splits_next _ _ _ _ H) as H1.
  rewrite (parseName_name S (p + 1) tag _ H1 Hn)
    by (now apply attributesText_before_mark).
  pose proof (Splits_skip _ _ _ _ H1) as H2.
  rewrite (parseAttributes_mark S SLASH attrs rest (or_introl eq_refl) Ha
             (length S) _ [] H2).
  2:{ pose proof (attributesText_length attrs Ha) as Hlen.
      pose proof (Splits_jslen _ _ _ H2) as Hj.
      pose proof (Splits_nonneg _ _ _ H2).
      rewrite jslen_app, !jslen_cons in Hj. pose proof (jslen_nonneg rest).
      unfold jslen in *. lia. }
  cbn [bind].
  pose proof (Splits_skip _ _ _ _ H2) as H3.
  replace (p + 1 + jslen tag + jslen (attributesText attrs) + 1 - 1)
    with (p + 1 + jslen tag + jslen (attributesText attrs)) by lia.
  rewrite (Splits_codeIs _ _ _ _ _ H3).
  change (N.eqb SLASH SLASH) with true. cbn [negb].
  do 2 f_equal. rewrite !jslen_app. change (jslen [OPEN_BRACKET]) with 1.
  change (jslen [SLASH; CLOSE_BRACKET]) with 2. lia.
Qed.

(** X12.  An element written with [/>] at the end of its tag has no
    children, whatever its name is ([script] and [style] included) and
    whatever [selfClosingTags] holds; [parseNode] returns after the ['>']. *)
Theorem self_closed_element
    (fuel : nat) (p : Z) (tag : jsstring) (attrs : Attributes)
    (rest : jsstring) :
  nameChars tag = true ->
  forallb readableAttribute attrs = true ->
  Splits S p ([OPEN_BRACKET] ++ tag ++ attributesText attrs
                ++ [SLASH; CLOSE_BRACKET] ++ rest) ->
  exists attributes,
    parseNode S keepComments keepWhitespace selfClosingTags
      (Datatypes.S fuel) p
    = Done (mkTNode tag attributes [],
            p + jslen ([OPEN_BRACKET] ++ tag ++ attributesText attrs
                         ++ [SLASH; CLOSE_BRACKET]))
    /\ (uniqueNames (map fst attrs) = true -> attributes = attrs).
Proof.
  intros Hn Ha H. exists (setAttributes [] attrs). split.
  - now apply (parseNode_self_closed fuel p tag attrs rest).
  - intros Hu. now apply setAttributes_unique.
Qed.

(** X13.  When the name of an attribute is written more than once in a
    tag, the element has the attribute once, at the place of the first
    occurrence and with the value of the last one. *)
Theorem repeated_attribute
    (fuel : nat) (p : Z) (tag : jsstring) (attrs : Attributes)
    (rest : jsstring) :
  nameChars tag = true ->
  forallb readableAttribute attrs = true ->
  Splits S p ([OPEN_BRACKET] ++ tag ++ attributesText attrs
                ++ [SLASH; CLOSE_BRACKET] ++ rest) ->
  exists node pos,
    parseNode S keepComments keepWhitespace selfClosingTags
      (Datatypes.S fuel) p
    = Done (node, pos)
    /\ map fst (TNode.attributes node) = distinct (map fst attrs)
    /\ forall name,
         getAttribute (TNode.attributes node) name
         = getAttribute (rev attrs) name.
Proof.
  intros Hn Ha H. eexists. eexists. split.
  - now apply (parseNode_self_closed fuel p tag attrs rest).
  - cbn [TNode.attributes]. split; [apply names_setAttributes|].
    intros name. rewrite getAttribute_setAttributes.
    now destruct (getAttribute (rev attrs) name).
Qed.

End SelfClosed.

(** A self-closed [script] with a value-less attribute before the slash. *)
Lemma self_closed_element_example :
  let S := js "<a><script async/>b</a>" in
  (exists attributes,
      parseNode S false false DEFAULT_SELF_CLOSING 1 3
      = Done (mkTNode (js "script") attributes [], 18)
      /\ (uniqueNames (map fst ([(js "async", None)] : Attributes)) = true ->
          attributes = [(js "async", None)]))
  /\ parse ParseOptions.default 20 S
     = Done (Nodes [Elem (js "a") []
                      [Elem (js "script") [(js "async", None)] [];
                       Str (js "b")]]).
Proof.
  intros S. split; [|reflexivity].
  apply (self_closed_element S false false DEFAULT_SELF_CLOSING 0 3
           (js "script") [(js "async", None)] (js "b</a>"));
    try reflexivity.
  now exists (js "<a>").
Defined.

(** The attribute [a] written twice, around [b]. *)
Lemma repeated_attribute_example :
  let S := js "<x a=" ++ dq ++ js "1" ++ dq ++ js " b a=" ++ dq ++ js "2"
             ++ dq ++ js "/>" in
  (exists node pos,
      parseNode S false false DEFAULT_SELF_CLOSING 1 0 = Done (node, pos)
      /\ map fst (TNode.attributes node) = [js "a"; js "b"]
      /\ forall name,
           getAttribute (TNode.attributes node) name
           = getAttribute [(js "a", Some (js "2")); (js "b", None);
                           (js "a", Some (js "1"))] name)
  /\ parse ParseOptions.default 20 S
     = Done (Nodes [Elem (js "x") [(js "a", Some (js "2")); (js "b", None)]
                      []]).
Proof.
  intros S. split; [|reflexivity].
  apply (repeated_attribute S false false DEFAULT_SELF_CLOSING 0 0
           (js "x") [(js "a", Some (js "1")); (js "b", None);
                     (js "a", Some (js "2"))] []);
    try reflexivity.
  now exists [].
Defined.

(** ** A quoted value without its closing quote *)

Lemma parseAttributes_unclosed S n p acc name q v :
  Splits S p (name ++ [61%N; q] ++ v) ->
  canonicalName name = true -> isQuote q = true -> ~ In q v ->
  parseAttributes S (Datatypes.S n) p acc = Done (acc, -1, true).
Proof.
  intros H Hname Hq Hv.
  destruct (canonicalName_inv _ Hname) as [c [name' [E [Hc Hn]]]].
  assert (Hchar : charCodeAt S p = Some c).
  { subst name. eapply Splits_char. exact H. }
  cbn [parseAttributes]. rewrite Hchar, (letter_not_close _ Hc), Hc.
  rewrite (parseName_name S p name _ H Hn) by reflexivity.
  pose proof (Splits_skip _ _ _ _ H) as H1.
  rewrite (Splits_suffix _ _ _ H1).
  assert (Hskip : skipToValue ([61%N; q] ++ v) (p + jslen name)
                  = p + jslen name + 1).
  { unfold isQuote in Hq. cbn [app skipToValue].
    change (N.eqb 61 0) with false. change (N.eqb 61 SINGLE_QUOTE) with false.
    change (N.eqb 61 DOUBLE_QUOTE) with false. change (isLetter 61) with false.
    change (N.eqb 61 CLOSE_BRACKET) with false. cbn [negb andb].
    apply orb_true_iff in Hq as [Hq|Hq]; rewrite Hq;
      rewrite ?andb_false_r; reflexivity. }
  rewrite Hskip.
  pose proof (Splits_next _ _ _ _ H1) as H2.
  assert (Hcode : codeIs S (p + jslen name + 1) SINGLE_QUOTE
                  || codeIs S (p + jslen name + 1) DOUBLE_QUOTE = true).
  { rewrite !(Splits_codeIs _ _ _ _ _ H2). exact Hq. }
  rewrite Hcode. unfold parseString.
  rewrite (Splits_char _ _ _ _ H2).
  pose proof (Splits_next _ _ _ _ H2) as H3.
  rewrite (Splits_indexOf _ _ _ _ H3), (indexOfFrom_char_absent _ _ _ Hv).
  reflexivity.
Qed.

Lemma parseAttributes_before_unclosed S (attrs : Attributes) name q v :
  canonicalName name = true -> isQuote q = true -> ~ In q v ->
  forallb readableAttribute attrs = true ->
  forall n p acc,
    Splits S p (attributesText attrs ++ js " " ++ name ++ [61%N; q] ++ v) ->
    (2 * length attrs + 2 <= n)%nat ->
    parseAttributes S n p acc = Done (setAttributes acc attrs, -1, true).
Proof.
  intros Hname Hq Hv Ha.
  destruct (canonicalName_inv _ Hname) as [c [name' [E [Hc Hn]]]].
  assert (T0 : forall n p acc,
             Splits S p (js " " ++ name ++ [61%N; q] ++ v) ->
             parseAttributes S (Datatypes.S (Datatypes.S n)) p acc
             = Done (acc, -1, true)).
  { intros n p acc H. change (js " ") with [32%N] in H. cbn [app] in H.
    rewrite (parseAttributes_other S _ p acc 32%N _ H) by reflexivity.
    apply Splits_next in H.
    apply (parseAttributes_unclosed S n _ acc name q v H Hname Hq Hv). }
  assert (T1 : forall n p acc name0 value,
             canonicalName name0 = true -> readableValue value = true ->
             true = true ->
             Splits S p (name0 ++ valueText value
                           ++ js " " ++ name ++ [61%N; q] ++ v) ->
             parseAttributes S (Datatypes.S (Datatypes.S (Datatypes.S n))) p acc
             = Done (setAttribute acc name0 value, -1, true)).
  { intros n p acc name0 value Hname0 Hvalue _ H.
    destruct value as [v0|].
    - destruct (readableValue_quote v0 Hvalue) as [q0 [Hqq [Hv0 Ev]]].
      rewrite Ev in *. rewrite <- !app_assoc in H.
      rewrite (parseAttributes_value S _ p acc name0 q0 v0 _ H Hname0 Hqq Hv0).
      apply T0. apply Splits_skip. now rewrite <- !app_assoc.
    - cbn [valueText app] in H. change (js " ") with [32%N] in H.
      assert (H0 : Splits S p (name0 ++ 32%N :: c :: name' ++ [61%N; q] ++ v)).
      { rewrite E in H. exact H. }
      rewrite (parseAttributes_flag_more S _ p acc name0 c _ H0 Hname0 Hc).
      apply Splits_skip in H0. apply Splits_next in H0.
      apply (parseAttributes_unclosed S _ _ _ name q v); try assumption.
      rewrite E. exact H0. }
  assert (HQ : forallb (fun kv : jsstring * option jsstring => true) attrs
               = true).
  { apply forallb_forall. reflexivity. }
  destruct (parseAttributes_tail S (js " " ++ name ++ [61%N; q] ++ v)
              (fun acc _ => (acc, -1, true)) (fun _ => true) 2 T0 T1 attrs
              Ha HQ)
    as [A _].
  exact A.
Qed.

Section UnclosedQuote.

Variable S : jsstring.
Variable keepComments keepWhitespace : bool.
Variable selfClosingTags : list jsstring.

(** X14.  When the closing quote of an attribute value is missing up to
    the end of the input, nothing is thrown: the element is returned with
    the attributes read before that one and without children, the cursor
    is left at [-1], and [parseChildren] returns there with what it has,
    so the rest of the text is not read. *)
Theorem unclosed_attribute_value
    (fuel : nat) (tagName : jsstring) (p : Z) (children : list Child)
    (tag : jsstring) (attrs : Attributes) (name : jsstring) (q : N)
    (v : jsstring) :
  elementName tag = true ->
  forallb readableAttribute attrs = true ->
  canonicalName name = true -> isQuote q = true -> hasChar q v = false ->
  Splits S p (unclosedTagText tag attrs name q v) ->
  parseNode S keepComments keepWhitespace selfClosingTags
    (Datatypes.S fuel) p
  = Done (mkTNode tag (setAttributes [] attrs) [], -1)
  /\ parseChildren S keepComments keepWhitespace selfClosingTags
       (Datatypes.S (Datatypes.S fuel)) tagName p children
     = Done (children ++ [Elem tag (setAttributes [] attrs) []], -1).
Proof.
  intros Ht Ha Hname Hq Hv H.
  destruct (elementName_inv _ Ht) as [c [tl [E [Hc1 [Hc2 Hn]]]]].
  pose proof (hasChar_false _ _ Hv) as Hv'.
  unfold unclosedTagText in H. cbn [app] in H.
  assert (Hnode : forall n,
    parseNode S keepComments keepWhitespace selfClosingTags
      (Datatypes.S n) p
    = Done (mkTNode tag (setAttributes [] attrs) [], -1)).
  { intros n. rewrite parseNode_unfold. unfold parseNodeBody.
    pose proof (Splits_next _ _ _ _ H) as H1.
    assert (Hend : match attributesText attrs ++ js " " ++ name
                           ++ [61%N; q] ++ v with
                   | x :: _ => isNameEnd x = true
                   | [] => True
                   end).
    { destruct attrs as [|kv attrs']; [reflexivity|].
      rewrite attributesText_cons. reflexivity. }
    rewrite (parseName_name S (p + 1) tag _ H1 Hn Hend).
    pose proof (Splits_skip _ _ _ _ H1) as H2.
    rewrite (parseAttributes_before_unclosed S attrs name q v Hname Hq Hv' Ha
               (length S) _ [] H2).
    - reflexivity.
    - pose proof (attributesText_length attrs Ha) as Hlen.
      pose proof (Splits_jslen _ _ _ H2) as Hj.
      pose proof (Splits_nonneg _ _ _ H2).
      repeat (rewrite jslen_app in Hj || rewrite jslen_cons in Hj).
      pose proof (jslen_nonneg name). pose proof (jslen_nonneg v).
      unfold jslen in *. lia. }
  split; [apply Hnode|].
  rewrite parseChildren_unfold. unfold parseChildrenBody.
  rewrite (Splits_char _ _ _ _ H).
  change (N.eqb OPEN_BRACKET OPEN_BRACKET) with true. cbv iota.
  pose proof (Splits_next _ _ _ _ H) as H1.
  assert (Hs : N.eqb c SLASH = false).
  { apply (nameChars_not_slash tag); [assumption|]. subst tag. now left. }
  rewrite E in H1. cbn [app] in H1.
  rewrite !(Splits_codeIs _ _ _ _ _ H1), Hs, Hc2.
  rewrite Hnode. cbn [bind TNode.tagName TNode.attributes TNode.children].
  assert (Hq' : startsWith [QUESTION] tag = false).
  { subst tag. cbn [startsWith]. now rewrite N.eqb_sym, Hc1. }
  rewrite Hq'. rewrite parseChildren_unfold. unfold parseChildrenBody.
  reflexivity.
Qed.

End UnclosedQuote.

(** The value of [c] is never closed: [b] is returned with [id] alone,
    inside [a], and the text after the quote is not read. *)
Lemma unclosed_attribute_value_example :
  let S := js "<a><b id=" ++ dq ++ js "1" ++ dq
             ++ js " c='x></b><d></d></a>" in
  parseNode S false false DEFAULT_SELF_CLOSING 1 3
  = Done (mkTNode (js "b") [(js "id", Some (js "1"))] [], -1)
  /\ parseChildren S false false DEFAULT_SELF_CLOSING 2 (js "a") 3 []
     = Done ([Elem (js "b") [(js "id", Some (js "1"))] []], -1)
  /\ parse ParseOptions.default 20 S
     = Done (Nodes [Elem (js "a") []
                      [Elem (js "b") [(js "id", Some (js "1"))] []]]).
Proof.
  intros S.
  assert (H := unclosed_attribute_value S false false DEFAULT_SELF_CLOSING
                 0 (js "a") 3 [] (js "b") [(js "id", Some (js "1"))]
                 (js "c") SINGLE_QUOTE (js "x></b><d></d></a>")
                 eq_refl eq_refl eq_refl eq_refl eq_refl).
  destruct H as [H1 H2]; [now exists (js "<a>")|].
  split; [exact H1|]. split; [exact H2|reflexivity].
Defined.

(** ** Processing instructions *)

Lemma declarationTag_inv tag :
  declarationTag tag = true ->
  exists tl, tag = QUESTION :: tl /\ nameChars tag = true
             /\ streq tag (js "script") = false
             /\ streq tag (js "style") = false.
Proof.
  unfold declarationTag. intros H. apply andb_true_iff in H as [H Hn].
  destruct tag as [|c tl]; [discriminate|]. cbn [startsWith] in H.
  rewrite andb_true_r in H. apply N.eqb_eq in H. subst c.
  exists tl. now repeat split.
Qed.

Section ProcessingInstruction.

Variable S : jsstring.
Variable keepComments keepWhitespace : bool.
Variable selfClosingTags : list jsstring.

Lemma parseChildren_declaration
    (fuel : nat) (tagName : jsstring) (p : Z) (children : list Child)
    (tag : jsstring) (attrs : Attributes) (rest : jsstring) :
  declarationTag tag = true ->
  arrayIncludes selfClosingTags tag = false ->
  attrs <> [] -> valued attrs = true ->
  forallb readableAttribute attrs = true ->
  Splits S p (declarationText tag attrs ++ rest) ->
  parseChildren S keepComments keepWhitespace selfClosingTags
    (Datatypes.S (Datatypes.S fuel)) tagName p children
  = ' (inside, pos) <-
        parseChildren S keepComments keepWhitespace selfClosingTags
          fuel tag (p + jslen (declarationText tag attrs)) [] ;;
    parseChildren S keepComments keepWhitespace selfClosingTags
      (Datatypes.S fuel) tagName pos
      (children ++ Elem tag (setAttributes [] attrs) [] :: inside).
Proof.
  intros Ht Hself Hne Hval Ha H.
  destruct (declarationTag_inv _ Ht) as [tl [E [Hn [Hsc Hst]]]].
  unfold declarationText in H. norm_app_in H.
  assert (Hlen : jslen (declarationText tag attrs)
                 = 1 + jslen tag + jslen (attributesText attrs) + 2).
  { unfold declarationText. rewrite !jslen_app.
    change (jslen [OPEN_BRACKET]) with 1.
    change (jslen [QUESTION; CLOSE_BRACKET]) with 2. lia. }
  assert (Hnode :
    parseNode S keepComments keepWhitespace selfClosingTags
      (Datatypes.S fuel) p
    = ' (inside, pos) <-
          parseChildren S keepComments keepWhitespace selfClosingTags
            fuel tag (p + jslen (declarationText tag attrs)) [] ;;
      Done (mkTNode tag (setAttributes [] attrs) inside, pos)).
  { rewrite parseNode_unfold. unfold parseNodeBody.
    pose proof (Splits_next _ _ _ _ H) as H1.
    assert (Hend : match attributesText attrs
                           ++ QUESTION :: CLOSE_BRACKET :: rest with
                   | x :: _ => isNameEnd x = true
                   | [] => True
                   end).
    { destruct attrs as [|kv attrs']; [contradiction|].
      rewrite attributesText_cons. reflexivity. }
    rewrite (parseName_name S (p + 1) tag _ H1 Hn Hend).
    pose proof (Splits_skip _ _ _ _ H1) as H2.
    rewrite (parseAttributes_mark S QUESTION attrs rest
               (or_intror (conj eq_refl Hval)) Ha (length S) _ [] H2).
    2:{ pose proof (attributesText_length attrs Ha) as Hl.
        pose proof (Splits_jslen _ _ _ H2) as Hj.
        pose proof (Splits_nonneg _ _ _ H2).
        rewrite jslen_app, !jslen_cons in Hj. pose proof (jslen_nonneg rest).
        unfold jslen in *. lia. }
    cbn [bind].
    pose proof (Splits_skip _ _ _ _ H2) as H3.
    replace (p + 1 + jslen tag + jslen (attributesText attrs) + 1 - 1)
      with (p + 1 + jslen tag + jslen (attributesText attrs)) by lia.
    rewrite (Splits_codeIs _ _ _ _ _ H3).
    change (N.eqb QUESTION SLASH) with false. cbn [negb].
    rewrite Hsc, Hst, Hself. cbn [negb].
    replace (p + 1 + jslen tag + jslen (attributesText attrs) + 1 + 1)
      with (p + jslen (declarationText tag attrs)) by lia.
    reflexivity. }
  rewrite parseChildren_unfold. unfold parseChildrenBody.
  rewrite (Splits_char _ _ _ _ H).
  change (N.eqb OPEN_BRACKET OPEN_BRACKET) with true. cbv iota.
  pose proof (Splits_next _ _ _ _ H) as H1.
  rewrite E in H1. cbn [app] in H1.
  rewrite !(Splits_codeIs _ _ _ _ _ H1).
  change (N.eqb QUESTION SLASH) with false.
  change (N.eqb QUESTION EXCLAMATION) with false. cbv iota.
  rewrite Hnode.
  destruct (parseChildren S keepComments keepWhitespace selfClosingTags
              fuel tag (p + jslen (declarationText tag attrs)) [])
    as [[inside pos]|m|]; cbn [bind]; try reflexivity.
  cbn [TNode.tagName TNode.attributes TNode.children].
  assert (Hq : startsWith [QUESTION] tag = true) by now subst tag.
  rewrite Hq. reflexivity.
Qed.

(** X15.  What follows a processing instruction [<?name ...?>] is read
    as its content, with close tags checked against its name, and is then
    moved behind it: the instruction is left without children and the
    nodes read inside it become its siblings. *)
Theorem processing_instruction_siblings
    (fuel : nat) (tagName : jsstring) (p : Z) (children : list Child)
    (tag : jsstring) (attrs : Attributes) (rest : jsstring) :
  declarationTag tag = true ->
  arrayIncludes selfClosingTags tag = false ->
  attrs <> [] -> valued attrs = true ->
  forallb readableAttribute attrs = true ->
  Splits S p (declarationText tag attrs ++ rest) ->
  parseChildren S keepComments keepWhitespace selfClosingTags
    (Datatypes.S (Datatypes.S fuel)) tagName p children
  = ' (inside, pos) <-
        parseChildren S keepComments keepWhitespace selfClosingTags
          fuel tag (p + jslen (declarationText tag attrs)) [] ;;
    parseChildren S keepComments keepWhitespace selfClosingTags
      (Datatypes.S fuel) tagName pos
      (children ++ Elem tag (setAttributes [] attrs) [] :: inside).
Proof. apply parseChildren_declaration. Qed.

End ProcessingInstruction.

(** The XML declaration before two elements; a close tag without open
    tag after a declaration is checked against the name of the
    declaration and throws, which it does not at the top level. *)
Lemma processing_instruction_example :
  let tag := js "?xml" in
  let attrs := [(js "version", Some (js "1.0"))] in
  let decl := js "<?xml version=" ++ dq ++ js "1.0" ++ dq ++ js "?>" in
  let S := decl ++ js "<a></a><b></b>" in
  decl = declarationText tag attrs
  /\ parseChildren S false false DEFAULT_SELF_CLOSING 5 [] 0 []
     = (' (inside, pos) <-
            parseChildren S false false DEFAULT_SELF_CLOSING 3 tag
              (0 + jslen (declarationText tag attrs)) [] ;;
        parseChildren S false false DEFAULT_SELF_CLOSING 4 [] pos
          ([] ++ Elem tag (setAttributes [] attrs) [] :: inside))
  /\ parse ParseOptions.default 20 S
     = Done (Nodes [Elem tag attrs []; Elem (js "a") [] [];
                    Elem (js "b") [] []])
  /\ parse ParseOptions.default 20 (js "<a></a></b>")
     = Done (Nodes [Elem (js "a") [] []])
  /\ exists message,
       parse ParseOptions.default 20 (decl ++ js "<a></a></b>")
       = Throw message.
Proof.
  intros tag attrs decl S. split; [reflexivity|].
  split; [|split; [reflexivity|split; [reflexivity|]]].
  - assert (Hne : attrs <> []) by discriminate.
    assert (H : Splits S 0 (declarationText tag attrs ++ js "<a></a><b></b>"))
      by now exists [].
    exact (processing_instruction_siblings S false false DEFAULT_SELF_CLOSING
             3 [] 0 [] tag attrs (js "<a></a><b></b>")
             eq_refl eq_refl Hne eq_refl eq_refl H).
  - eexists. vm_compute. reflexivity.
Defined.

Lemma fuelOf_positive (c : Child) : isElem c = true -> (1 <= fuelOf c)%nat.
Proof. destruct c; [discriminate|]. intros _. rewrite fuelOf_Elem. lia. Qed.

(** The loop on a canonical element that ends the input. *)
Lemma parseChildren_element_end S keepComments keepWhitespace
    (fuel : nat) (tag : jsstring) (p : Z) (acc : list Child) (root : Child) :
  isElem root = true -> canonical root = true ->
  Splits S p (documentText root) ->
  (fuelOf root <= fuel)%nat ->
  parseChildren S keepComments keepWhitespace DEFAULT_SELF_CLOSING
    (Datatypes.S fuel) tag p acc
  = Done (acc ++ [root], jslen S).
Proof.
  intros He Hc H Hf. pose proof (fuelOf_positive root He) as Hpos.
  destruct root as [s|t a ch]; [discriminate|].
  rewrite parseChildren_unfold.
  assert (H0 : Splits S p (documentText (Elem t a ch) ++ []))
    by now rewrite app_nil_r.
  assert (Hnode :
    parseNode S keepComments keepWhitespace DEFAULT_SELF_CLOSING fuel p
    = Done (mkTNode t a ch, p + jslen (documentText (Elem t a ch)))).
  { eapply parseNode_canonical; [exact Hc|reflexivity|exact Hf|exact H0]. }
  pose proof Hc as Hc'. cbn [canonical] in Hc'.
  repeat (apply andb_true_iff in Hc' as [Hc' ?]).
  destruct (canonicalTag_inv _ Hc') as [c1 [tl1 [Et [Hq [Hx [Hn1 _]]]]]].
  assert (Hs1 : N.eqb c1 SLASH = false).
  { apply (nameChars_not_slash t); [assumption|]. subst t. now left. }
  assert (H' : exists r', Splits S p (OPEN_BRACKET :: c1 :: r')).
  { cbn [documentText] in H. rewrite Et in H at 1. norm_app_in H.
    eexists. exact H. }
  destruct H' as [r' H'].
  rewrite (parseChildrenBody_element _ _ _ _ _ _ _ _ _ _ _ _ H' Hs1 Hx Hnode).
  2:{ cbn [TNode.tagName]. subst t. cbn [startsWith].
      rewrite N.eqb_sym, Hq. reflexivity. }
  pose proof (Splits_jslen _ _ _ H) as Hlen.
  destruct fuel as [|fuel]; [lia|].
  rewrite parseChildren_end by lia.
  unfold ofNode. cbn [TNode.tagName TNode.attributes TNode.children].
  do 2 f_equal. lia.
Qed.

Lemma declarationTag_not_void tag :
  declarationTag tag = true -> arrayIncludes DEFAULT_SELF_CLOSING tag = false.
Proof.
  intros H. destruct (declarationTag_inv _ H) as [tl [-> _]]. reflexivity.
Qed.

Lemma parse_declaration (tag : jsstring) (attrs : Attributes) (root : Child) :
  declarationTag tag = true ->
  attrs <> [] -> valued attrs = true ->
  forallb readableAttribute attrs = true ->
  isElem root = true -> canonical root = true ->
  forall fuel, (3 + fuelOf root <= fuel)%nat ->
    parse ParseOptions.default fuel
      (declarationText tag attrs ++ documentText root)
    = Done (Nodes [Elem tag (setAttributes [] attrs) []; root]).
Proof.
  intros Ht Hne Hval Ha He Hc fuel Hf. rewrite parse_default.
  do 3 (destruct fuel as [|fuel]; [lia|]).
  set (S := declarationText tag attrs ++ documentText root).
  rewrite (parseChildren_declaration S false false DEFAULT_SELF_CLOSING
             (Datatypes.S fuel) [] 0 [] tag attrs (documentText root)
             Ht (declarationTag_not_void _ Ht) Hne Hval Ha (Splits_start S)).
  rewrite (parseChildren_element_end S false false fuel tag _ [] root He Hc).
  - cbn [bind app]. rewrite parseChildren_end by lia. reflexivity.
  - replace (0 + jslen (declarationText tag attrs))
      with (jslen (declarationText tag attrs)) by lia.
    apply Splits_here.
  - lia.
Qed.

Lemma stringify_declaration (tag : jsstring) (attrs : Attributes)
    (root : Child) :
  declarationTag tag = true ->
  forallb canonicalAttribute attrs = true ->
  isElem root = true -> canonical root = true ->
  stringify [Elem tag attrs []; root]
  = declarationText tag attrs ++ documentText root.
Proof.
  intros Ht Ha He Hc.
  destruct (declarationTag_inv _ Ht) as [tl [E _]].
  unfold stringify, stringifyNodes, write. cbn [map concat].
  rewrite (writeNode_canonical root Hc). rewrite app_nil_r.
  cbn [writeNode]. cbn [test StringifyOptions.skipTags StringifyOptions.none].
  change (0 <? jslen (indent StringifyOptions.none)) with false.
  rewrite !andb_false_r.
  assert (Hq : startsWith [QUESTION] tag = true) by now subst tag.
  rewrite Hq.
  assert (Hw : concat (map (writeAttribute StringifyOptions.none) attrs)
               = attributesText attrs).
  { unfold attributesText. f_equal. apply map_ext_in. intros kv Hin.
    apply writeAttribute_canonical.
    rewrite forallb_forall in Ha. now apply Ha. }
  rewrite Hw. unfold declarationText. cbn [app]. norm_app. reflexivity.
Qed.

(** X16.  A document that is an XML declaration (or another processing
    instruction with attributes that all have a value) followed by one
    canonical root element makes the round trip: [parse] returns the
    declaration without children followed by the root, and [stringify] of
    that is the document. *)
Theorem declaration_round_trip (tag : jsstring) (attrs : Attributes)
    (root : Child) :
  declarationTag tag = true ->
  attrs <> [] -> valued attrs = true ->
  forallb canonicalAttribute attrs = true ->
  uniqueNames (map fst attrs) = true ->
  isElem root = true -> canonical root = true ->
  (forall fuel, (3 + fuelOf root <= fuel)%nat ->
     parse ParseOptions.default fuel
       (declarationText tag attrs ++ documentText root)
     = Done (Nodes [Elem tag attrs []; root]))
  /\ stringify [Elem tag attrs []; root]
     = declarationText tag attrs ++ documentText root.
Proof.
  intros Ht Hne Hval Ha Hu He Hc. split.
  - intros fuel Hf.
    rewrite (parse_declaration tag attrs root Ht Hne Hval
               (canonical_readable attrs Ha) He Hc fuel Hf).
    now rewrite setAttributes_unique.
  - now apply stringify_declaration.
Qed.

(** The usual declaration before a root with an attribute and a text. *)
Lemma declaration_round_trip_example :
  let tag := js "?xml" in
  let attrs := [(js "version", Some (js "1.0"));
                (js "encoding", Some (js "UTF-8"))] in
  let root := Elem (js "note") [(js "id", Some (js "7"))] [Str (js "hello")] in
  let text := js "<?xml version=" ++ dq ++ js "1.0" ++ dq ++ js " encoding="
                ++ dq ++ js "UTF-8" ++ dq ++ js "?><note id=" ++ dq ++ js "7"
                ++ dq ++ js ">hello</note>" in
  declarationText tag attrs ++ documentText root = text
  /\ parse ParseOptions.default 10 text = Done (Nodes [Elem tag attrs []; root])
  /\ stringify [Elem tag attrs []; root] = text.
Proof.
  intros tag attrs root text.
  assert (Hne : attrs <> []) by discriminate.
  destruct (declaration_round_trip tag attrs root eq_refl Hne eq_refl eq_refl
              eq_refl eq_refl eq_refl) as [Hp Hs].
  split; [reflexivity|]. split.
  - apply (Hp 10%nat). vm_compute. lia.
  - exact Hs.
Defined.

(** ** A close tag at the top level *)

(** X17.  At the top level a close tag matches the empty name: [parse]
    throws nothing there and stops, returning what it has read, so that
    whatever follows the close tag is not parsed. *)
Theorem top_level_close_tag (ch : list Child) (rest : jsstring) (fuel : nat) :
  canonicalChildren ch = true ->
  (length ch + fuelOfList ch <= fuel)%nat ->
  parse ParseOptions.default fuel (childrenText ch ++ js "</" ++ rest)
  = Done (Nodes ch).
Proof.
  intros Hc Hf. rewrite parse_default.
  set (S := childrenText ch ++ js "</" ++ rest).
  assert (R : parseChildren S false false DEFAULT_SELF_CLOSING
                (length ch + fuelOfList ch) [] 0 []
              = Done (ch, let q := indexOf S [CLOSE_BRACKET]
                                     (0 + jslen (childrenText ch)) in
                          if q + 1 =? 0 then q else q + 1)).
  { assert (H : Splits S 0 (childrenText ch ++ OPEN_BRACKET :: SLASH :: rest))
      by apply Splits_start.
    rewrite (parseChildren_consume S false false ch Hc (fuelOfList ch) [] 0 []
               (SLASH :: rest) (Nat.le_refl _) H).
    pose proof (fuelOfList_positive ch) as Hpos.
    destruct (fuelOfList ch) as [|k]; [lia|].
    apply Splits_skip in H.
    rewrite (parseChildren_close_tag S false false DEFAULT_SELF_CLOSING k []
               _ ([] ++ ch) (Splits_char _ _ _ _ H)).
    - now rewrite includes_empty.
    - apply Splits_next in H. now rewrite (Splits_codeIs _ _ _ _ _ H). }
  rewrite (parseChildren_fuel S false false DEFAULT_SELF_CLOSING _ fuel
             _ _ _ _ R); [reflexivity|discriminate|exact Hf].
Qed.

(** What follows a close tag without open tag is lost. *)
Lemma top_level_close_tag_example :
  let ch := [Elem (js "a") [] [Str (js "x")]] in
  canonicalChildren ch = true
  /\ parse ParseOptions.default 20 (js "<a>x</a></b><c>y</c>")
     = Done (Nodes ch).
Proof.
  intros ch. split; [reflexivity|].
  apply (top_level_close_tag ch (js "b><c>y</c>") 20 eq_refl).
  vm_compute. lia.
Defined.

(** ** Comments and CDATA sections that are closed *)

Lemma indexOfFrom_char_le (c : N) (l : jsstring) (k : nat) (i : Z) :
  nth_error l k = Some c ->
  i <= indexOfFrom [c] l i <= i + Z.of_nat k.
Proof.
  revert k i. induction l as [|x l IH]; intros k i H.
  - destruct k; discriminate.
  - cbn [indexOfFrom startsWith]. destruct (N.eqb_spec c x) as [->|Hx].
    + cbn [andb]. lia.
    + cbn [andb]. destruct k as [|k].
      * cbn [nth_error] in H. congruence.
      * cbn [nth_error] in H. specialize (IH k (i + 1) H). lia.
Qed.

Lemma indexOf_char_le (S : jsstring) (c : N) (from q : Z) :
  0 <= from <= q -> charCodeAt S q = Some c ->
  from <= indexOf S [c] from <= q.
Proof.
  intros Hf Hc. pose proof (charCodeAt_Some _ _ _ Hc) as Hq.
  unfold indexOf. rewrite clamp_inside by lia.
  unfold charCodeAt in Hc. destruct (Z.ltb_spec q 0) as [?|_]; [lia|].
  pose proof (indexOfFrom_char_le c (skipn (Z.to_nat from) S)
                (Z.to_nat q - Z.to_nat from) from) as B.
  rewrite nth_error_skipn in B.
  replace (Z.to_nat from + (Z.to_nat q - Z.to_nat from))%nat
    with (Z.to_nat q) in B by lia.
  specialize (B Hc). lia.
Qed.

(** The comment loop stops on the first ['>'] with two minus signs before
    it. *)
Lemma commentLoop_found (S : jsstring) (p q : Z) :
  codeIs S q CLOSE_BRACKET && codeIs S (q - 1) MINUS
    && codeIs S (q - 2) MINUS = true ->
  (forall q', p <= q' < q ->
     codeIs S q' CLOSE_BRACKET && codeIs S (q' - 1) MINUS
       && codeIs S (q' - 2) MINUS = false) ->
  forall n pos,
    0 <= pos -> p <= pos <= q ->
    (Z.to_nat (q - pos) <= n)%nat ->
    commentLoop S n pos = Done q.
Proof.
  intros Hq Hbefore.
  assert (Hcq : charCodeAt S q = Some CLOSE_BRACKET).
  { apply andb_true_iff in Hq as [Hq _]. apply andb_true_iff in Hq as [Hq _].
    unfold codeIs in Hq. destruct (charCodeAt S q) as [x|]; [|discriminate].
    apply N.eqb_eq in Hq. now subst x. }
  induction n as [|n IH]; intros pos H0 Hp Hn.
  - assert (pos = q) by lia. subst pos. cbn [commentLoop].
    now rewrite Hq, orb_true_r.
  - destruct (Z.eq_dec pos q) as [->|Hne].
    + cbn [commentLoop]. now rewrite Hq, orb_true_r.
    + cbn [commentLoop]. rewrite (Hbefore pos) by lia.
      destruct (Z.eqb_spec pos (-1)) as [?|_]; [lia|]. cbn [orb].
      assert (B : pos + 1 <= indexOf S [CLOSE_BRACKET] (pos + 1) <= q).
      { apply indexOf_char_le; [lia|exact Hcq]. }
      apply IH; lia.
Qed.

(** Where a comment can end after [<!]. *)
Lemma comment_end_occurrence (S : jsstring) (p q : Z) (body : jsstring) :
  Splits S p (js "<!" ++ body) -> p <= q ->
  codeIs S q CLOSE_BRACKET && codeIs S (q - 1) MINUS
    && codeIs S (q - 2) MINUS = true ->
  exists pre post, body = pre ++ js "-->" ++ post
                   /\ jslen pre = q - 2 - (p + 2).
Proof.
  intros H Hq Hc.
  apply andb_true_iff in Hc as [Hc E2]. apply andb_true_iff in Hc as [E0 E1].
  change (js "<!" ++ body) with (OPEN_BRACKET :: EXCLAMATION :: body) in H.
  pose proof (Splits_next _ _ _ _ H) as H1.
  pose proof (Splits_next _ _ _ _ H1) as H2.
  replace (p + 1 + 1) with (p + 2) in H2 by lia.
  assert (Hq4 : p + 4 <= q).
  { destruct (Z.eq_dec q p) as [->|].
    { rewrite (Splits_codeIs _ _ _ _ _ H) in E0. discriminate. }
    destruct (Z.eq_dec q (p + 1)) as [->|].
    { rewrite (Splits_codeIs _ _ _ _ _ H1) in E0. discriminate. }
    destruct (Z.eq_dec q (p + 2)) as [->|].
    { replace (p + 2 - 1) with (p + 1) in E1 by lia.
      rewrite (Splits_codeIs _ _ _ _ _ H1) in E1. discriminate. }
    destruct (Z.eq_dec q (p + 3)) as [->|]; [|lia].
    replace (p + 3 - 2) with (p + 1) in E2 by lia.
    rewrite (Splits_codeIs _ _ _ _ _ H1) in E2. discriminate. }
  assert (Hr : 0 <= q - 2 <= jslen S).
  { unfold codeIs in E0. destruct (charCodeAt S q) eqn:Ec; [|discriminate].
    apply charCodeAt_Some in Ec. pose proof (Splits_nonneg _ _ _ H). lia. }
  pose proof (Splits_at S (q - 2) Hr) as Hs.
  destruct (Splits_codeIs_inv _ _ _ _ Hs E2) as [r2 Er2]. rewrite Er2 in Hs.
  pose proof (Splits_next _ _ _ _ Hs) as Hs1.
  replace (q - 2 + 1) with (q - 1) in Hs1 by lia.
  destruct (Splits_codeIs_inv _ _ _ _ Hs1 E1) as [r1 Er1]. subst r2.
  pose proof (Splits_next _ _ _ _ Hs1) as Hs0.
  replace (q - 1 + 1) with q in Hs0 by lia.
  destruct (Splits_codeIs_inv _ _ _ _ Hs0 E0) as [r0 Er0]. subst r1.
  pose proof (Splits_between S (p + 2) (q - 2) _ _ H2 Hs) as Hin.
  assert (Hle : p + 2 <= q - 2) by lia. specialize (Hin Hle).
  destruct Hin as [pre [Epre Hlen]].
  exists pre, r0. split; [exact Epre|]. lia.
Qed.

Lemma indexOfFrom_first (pat pre post : jsstring) (i : Z) :
  0 <= i ->
  i <= indexOfFrom pat (pre ++ pat ++ post) i <= i + jslen pre.
Proof.
  revert i. induction pre as [|c pre IH]; intros i Hi.
  - cbn [app]. rewrite indexOfFrom_here by apply startsWith_self.
    rewrite jslen_nil. lia.
  - cbn [app indexOfFrom]. rewrite jslen_cons. pose proof (jslen_nonneg pre).
    destruct (startsWith pat (c :: pre ++ pat ++ post)); [lia|].
    specialize (IH (i + 1)). lia.
Qed.

Section ClosedDeclarations.

Variable S : jsstring.
Variable keepComments keepWhitespace : bool.
Variable selfClosingTags : list jsstring.

(** X18.  A comment runs from [<!-] to the first [-->] after the [<!],
    whose minus signs may be those that open the comment ([<!-->] is a
    whole comment).  It is dropped, or with [keepComments] kept as one
    string with its delimiters, and the loop goes on behind it. *)
Theorem comment_child
    (fuel : nat) (tagName : jsstring) (p : Z) (children : list Child)
    (inner rest : jsstring) :
  Splits S p (js "<!" ++ inner ++ js "-->" ++ rest) ->
  startsWith [MINUS] (inner ++ js "-->") = true ->
  indexOfFrom (js "-->") (inner ++ js "-->") 0 = jslen inner ->
  parseChildren S keepComments keepWhitespace selfClosingTags
    (Datatypes.S fuel) tagName p children
  = parseChildren S keepComments keepWhitespace selfClosingTags
      fuel tagName (p + jslen (js "<!" ++ inner ++ js "-->"))
      (if keepComments
       then children ++ [Str (js "<!" ++ inner ++ js "-->")]
       else children).
Proof.
  intros H Hstart Hfirst.
  pose proof (Splits_nonneg _ _ _ H) as Hp.
  pose proof (jslen_nonneg inner) as Hi.
  set (q := p + 2 + jslen inner + 2).
  assert (H0 : Splits S p (OPEN_BRACKET :: EXCLAMATION
                             :: inner ++ js "-->" ++ rest)) by exact H.
  pose proof (Splits_next _ _ _ _ H0) as H1.
  pose proof (Splits_next _ _ _ _ H1) as H2.
  replace (p + 1 + 1) with (p + 2) in H2 by lia.
  pose proof (Splits_skip _ _ _ _ H2) as H3.
  change (js "-->" ++ rest) with (MINUS :: MINUS :: CLOSE_BRACKET :: rest) in H3.
  pose proof (Splits_next _ _ _ _ H3) as H4.
  pose proof (Splits_next _ _ _ _ H4) as H5.
  assert (Hq : codeIs S q CLOSE_BRACKET && codeIs S (q - 1) MINUS
                 && codeIs S (q - 2) MINUS = true).
  { unfold q.
    replace (p + 2 + jslen inner + 2) with (p + 2 + jslen inner + 1 + 1) by lia.
    rewrite (Splits_codeIs _ _ _ _ _ H5).
    replace (p + 2 + jslen inner + 1 + 1 - 1) with (p + 2 + jslen inner + 1)
      by lia.
    rewrite (Splits_codeIs _ _ _ _ _ H4).
    replace (p + 2 + jslen inner + 1 + 1 - 2) with (p + 2 + jslen inner)
      by lia.
    rewrite (Splits_codeIs _ _ _ _ _ H3). reflexivity. }
  assert (Hbefore : forall q', p <= q' < q ->
             codeIs S q' CLOSE_BRACKET && codeIs S (q' - 1) MINUS
               && codeIs S (q' - 2) MINUS = false).
  { intros q' Hq'.
    destruct (codeIs S q' CLOSE_BRACKET && codeIs S (q' - 1) MINUS
                && codeIs S (q' - 2) MINUS) eqn:E; [|reflexivity].
    exfalso.
    destruct (comment_end_occurrence S p q' _ H (proj1 Hq') E)
      as [pre [post [Eb Hlen]]].
    pose proof (indexOfFrom_first (js "-->") pre post 0 (Z.le_refl 0)) as B.
    rewrite <- Eb in B.
    rewrite indexOfFrom_content, Hfirst in B. unfold q in Hq'. lia. }
  rewrite parseChildren_unfold. unfold parseChildrenBody.
  rewrite (Splits_char _ _ _ _ H0).
  change (N.eqb OPEN_BRACKET OPEN_BRACKET) with true. cbv iota.
  rewrite !(Splits_codeIs _ _ _ _ _ H1).
  change (N.eqb EXCLAMATION SLASH) with false.
  change (N.eqb EXCLAMATION EXCLAMATION) with true. cbv iota.
  assert (Hm : codeIs S (p + 2) MINUS = true).
  { destruct (inner ++ js "-->") as [|x r] eqn:Ex; [discriminate|].
    cbn [startsWith] in Hstart. rewrite andb_true_r in Hstart.
    rewrite app_assoc in H2. rewrite Ex in H2. cbn [app] in H2.
    rewrite (Splits_codeIs _ _ _ _ _ H2). now rewrite N.eqb_sym. }
  rewrite Hm.
  pose proof (Splits_jslen _ _ _ H5) as HlenS. pose proof (jslen_nonneg rest).
  rewrite (commentLoop_found S p q Hq Hbefore)
    by (unfold q, jslen in *; lia).
  cbn [bind]. destruct (Z.eqb_spec q (-1)) as [?|_]; [unfold q in *; lia|].
  assert (Hlen : jslen (js "<!" ++ inner ++ js "-->") = 2 + jslen inner + 3).
  { rewrite !jslen_app. change (jslen (js "<!")) with 2.
    change (jslen (js "-->")) with 3. lia. }
  assert (Hsub : substring S p (q + 1) = js "<!" ++ inner ++ js "-->").
  { replace (q + 1) with (p + jslen (js "<!" ++ inner ++ js "-->"))
      by (unfold q; lia).
    apply (Splits_substring S p _ rest). now rewrite <- !app_assoc. }
  rewrite Hsub. f_equal. unfold q. lia.
Qed.

Lemma not_close_square_in_word (word : jsstring) :
  streq (toLowerCase word) (js "cdata") = true ->
  forall x, In x word -> N.eqb CLOSE_SQUARE x = false.
Proof.
  intros H x Hin. apply streq_eq in H.
  assert (Hl : In (if (65 <=? x) && (x <=? 90) then x + 32 else x)%N
                 (js "cdata")).
  { rewrite <- H. unfold toLowerCase.
    apply (in_map (fun c => if (65 <=? c) && (c <=? 90) then c + 32 else c)%N).
    exact Hin. }
  destruct (N.eqb_spec CLOSE_SQUARE x) as [<-|]; [|reflexivity].
  exfalso. cbn in Hl. repeat destruct Hl as [Hl|Hl]; try discriminate; easy.
Qed.

Lemma indexOfFrom_skip (c : N) (pat pre l : jsstring) (i : Z) :
  (forall x, In x pre -> N.eqb c x = false) ->
  indexOfFrom (c :: pat) (pre ++ l) i
  = indexOfFrom (c :: pat) l (i + jslen pre).
Proof.
  revert i. induction pre as [|x pre IH]; intros i Hpre.
  - cbn [app]. f_equal. rewrite jslen_nil. lia.
  - cbn [app indexOfFrom startsWith]. rewrite (Hpre x) by now left.
    cbn [andb]. rewrite IH by (intros y Hy; apply Hpre; now right).
    f_equal. rewrite jslen_cons. lia.
Qed.

(** X19.  The content of a CDATA section, from [<![CDATA[] (in any case)
    to the first [\]\]>], is one string child, not trimmed and kept also
    when it is empty or white space, whatever [keepWhitespace] is; the
    loop goes on behind the [\]\]>]. *)
Theorem cdata_child
    (fuel : nat) (tagName : jsstring) (p : Z) (children : list Child)
    (word body rest : jsstring) :
  Splits S p (js "<![" ++ word ++ js "[" ++ body ++ js "]]>" ++ rest) ->
  length word = 5%nat ->
  streq (toLowerCase word) (js "cdata") = true ->
  indexOfFrom (js "]]>") (body ++ js "]]>") 0 = jslen body ->
  parseChildren S keepComments keepWhitespace selfClosingTags
    (Datatypes.S fuel) tagName p children
  = parseChildren S keepComments keepWhitespace selfClosingTags
      fuel tagName (p + 9 + jslen body + 3) (children ++ [Str body]).
Proof.
  intros H Hw Hlow Hfirst.
  pose proof (Splits_nonneg _ _ _ H) as Hp.
  pose proof (jslen_nonneg body) as Hb.
  assert (Hj : jslen word = 5) by (unfold jslen; lia).
  assert (Hidx : indexOf S [CLOSE_SQUARE; CLOSE_SQUARE; CLOSE_BRACKET] p
                 = p + 9 + jslen body).
  { rewrite (Splits_indexOf _ _ _ _ H).
    replace (js "<![" ++ word ++ js "[" ++ body ++ js "]]>" ++ rest)
      with ((js "<![" ++ word ++ js "[") ++ body ++ js "]]>" ++ rest)
      by now rewrite <- !app_assoc.
    assert (Hpre : jslen (js "<![" ++ word ++ js "[") = 9).
    { rewrite !jslen_app, Hj. reflexivity. }
    rewrite indexOfFrom_skip.
    - change [CLOSE_SQUARE; CLOSE_SQUARE; CLOSE_BRACKET] with (js "]]>").
      rewrite indexOfFrom_content, Hpre.
      rewrite (indexOfFrom_shift (js "]]>") (body ++ js "]]>") (p + 9)
                 (jslen body)); [reflexivity|lia|lia|exact Hfirst].
    - intros x Hin. apply in_app_or in Hin as [Hin|Hin].
      + cbn in Hin. destruct Hin as [<-|[<-|[<-|[]]]]; reflexivity.
      + apply in_app_or in Hin as [Hin|Hin].
        * now apply (not_close_square_in_word word).
        * cbn in Hin. destruct Hin as [<-|[]]. reflexivity. }
  rewrite parseChildren_unfold. unfold parseChildrenBody.
  pose proof H as H0.
  change (js "<![" ++ word ++ js "[" ++ body ++ js "]]>" ++ rest)
    with (OPEN_BRACKET :: EXCLAMATION :: OPEN_SQUARE
            :: word ++ OPEN_SQUARE :: body ++ js "]]>" ++ rest) in H0.
  rewrite (Splits_char _ _ _ _ H0).
  change (N.eqb OPEN_BRACKET OPEN_BRACKET) with true. cbv iota.
  pose proof (Splits_next _ _ _ _ H0) as H1.
  rewrite !(Splits_codeIs _ _ _ _ _ H1).
  change (N.eqb EXCLAMATION SLASH) with false.
  change (N.eqb EXCLAMATION EXCLAMATION) with true. cbv iota.
  pose proof (Splits_next _ _ _ _ H1) as H2.
  replace (p + 1 + 1) with (p + 2) in H2 by lia.
  rewrite !(Splits_codeIs _ _ _ _ _ H2).
  change (N.eqb OPEN_SQUARE MINUS) with false.
  change (N.eqb OPEN_SQUARE OPEN_SQUARE) with true. cbv iota.
  pose proof (Splits_next _ _ _ _ H2) as H3.
  replace (p + 2 + 1) with (p + 3) in H3 by lia.
  pose proof (Splits_skip _ _ _ _ H3) as H8. rewrite Hj in H8.
  replace (p + 3 + 5) with (p + 8) in H8 by lia.
  rewrite (Splits_codeIs _ _ _ _ _ H8).
  change (N.eqb OPEN_SQUARE OPEN_SQUARE) with true.
  replace (p + 8) with (p + 3 + jslen word) at 1 by lia.
  rewrite (Splits_substring _ _ _ _ H3), Hlow. cbn [andb]. cbv zeta.
  rewrite Hidx.
  destruct (Z.eqb_spec (p + 9 + jslen body) (-1)) as [?|_]; [lia|].
  pose proof (Splits_next _ _ _ _ H8) as H9.
  replace (p + 8 + 1) with (p + 9) in H9 by lia.
  now rewrite (Splits_substring _ _ _ _ H9).
Qed.

End ClosedDeclarations.

(** A comment closed by its own minus signs, and a comment that holds a
    ['>']; a CDATA section that holds a tag and white space. *)
Lemma comment_child_example :
  let S := js "<a><!--><!-- b > c --></a>" in
  parseChildren S true false DEFAULT_SELF_CLOSING 5 (js "a") 3 []
  = parseChildren S true false DEFAULT_SELF_CLOSING 4 (js "a")
      (3 + jslen (js "<!" ++ [] ++ js "-->"))
      ([] ++ [Str (js "<!" ++ [] ++ js "-->")])
  /\ parseChildren S true false DEFAULT_SELF_CLOSING 4 (js "a") 8
       [Str (js "<!-->")]
     = parseChildren S true false DEFAULT_SELF_CLOSING 3 (js "a")
         (8 + jslen (js "<!" ++ js "-- b > c " ++ js "-->"))
         ([Str (js "<!-->")]
            ++ [Str (js "<!" ++ js "-- b > c " ++ js "-->")])
  /\ parse (ParseOptions.mk None None None false true false false false
              None None None) 20 S
     = Done (Nodes [Elem (js "a") []
                      [Str (js "<!-->"); Str (js "<!-- b > c -->")]])
  /\ parse ParseOptions.default 20 S = Done (Nodes [Elem (js "a") [] []]).
Proof.
  intros S. split; [|split; [|split; reflexivity]].
  - assert (H : Splits S 3 (js "<!" ++ [] ++ js "-->"
                              ++ js "<!-- b > c --></a>"))
      by now exists (js "<a>").
    exact (comment_child S true false DEFAULT_SELF_CLOSING 4 (js "a") 3 []
             [] (js "<!-- b > c --></a>") H eq_refl eq_refl).
  - assert (H : Splits S 8 (js "<!" ++ js "-- b > c " ++ js "-->"
                              ++ js "</a>"))
      by now exists (js "<a><!-->").
    exact (comment_child S true false DEFAULT_SELF_CLOSING 3 (js "a") 8
             [Str (js "<!-->")] (js "-- b > c ") (js "</a>") H eq_refl eq_refl).
Defined.

Lemma cdata_child_example :
  let S := js "<a><![cDaTa[ <b> ]]></a>" in
  parseChildren S false false DEFAULT_SELF_CLOSING 5 (js "a") 3 []
  = parseChildren S false false DEFAULT_SELF_CLOSING 4 (js "a")
      (3 + 9 + jslen (js " <b> ") + 3) ([] ++ [Str (js " <b> ")])
  /\ parse ParseOptions.default 20 S
     = Done (Nodes [Elem (js "a") [] [Str (js " <b> ")]]).
Proof.
  intros S. split; [|reflexivity].
  assert (H : Splits S 3 (js "<![" ++ js "cDaTa" ++ js "[" ++ js " <b> "
                            ++ js "]]>" ++ js "</a>"))
    by now exists (js "<a>").
  exact (cdata_child S false false DEFAULT_SELF_CLOSING 4 (js "a") 3 []
           (js "cDaTa") (js " <b> ") (js "</a>") H eq_refl eq_refl eq_refl).
Defined.

(** ** Elements in a stream *)

Section StreamElements.

Variable keepComments keepWhitespace : bool.

(** One turn of the loop for each element that something follows. *)
Lemma transformStreamLoop_elements (els : list Child) :
  canonicalElements els = true ->
  forall n data p pushed after,
    after <> [] ->
    Splits data p (childrenText els ++ after) ->
    (fuelOfList els <= n)%nat ->
    transformStreamLoop keepComments keepWhitespace None
      (length els + n) data p p pushed
    = transformStreamLoop keepComments keepWhitespace None
        n data (p + jslen (childrenText els)) (p + jslen (childrenText els))
        (pushed ++ pushedElements p els).
Proof.
  unfold canonicalElements.
  induction els as [|c els IH]; intros Hc n data p pushed after Hne H Hn.
  - cbn [length Nat.add pushedElements]. change (jslen (childrenText [])) with 0.
    rewrite app_nil_r. f_equal; lia.
  - cbn [forallb] in Hc. apply andb_true_iff in Hc as [Hcc Hall].
    apply andb_true_iff in Hcc as [He Hcan].
    destruct c as [s|t a ch]; [discriminate|].
    cbn [fuelOfList] in Hn.
    change (childrenText (Elem t a ch :: els))
      with (documentText (Elem t a ch) ++ childrenText els) in *.
    rewrite <- app_assoc in H.
    pose proof Hcan as Hcan'. cbn [canonical] in Hcan'.
    repeat (apply andb_true_iff in Hcan' as [Hcan' ?]).
    destruct (canonicalTag_inv _ Hcan') as [c1 [tl1 [Et [Hq [Hx [Hn1 _]]]]]].
    assert (Hs1 : N.eqb c1 SLASH = false).
    { apply (nameChars_not_slash t); [assumption|]. subst t. now left. }
    assert (H' : exists r', Splits data p (OPEN_BRACKET :: c1 :: r')).
    { cbn [documentText] in H. rewrite Et in H at 1. norm_app_in H.
      eexists. exact H. }
    destruct H' as [r' H'].
    pose proof (Splits_nonneg _ _ _ H) as Hp.
    cbn [length Nat.add transformStreamLoop]. cbv zeta.
    rewrite (Splits_indexOf_char data p OPEN_BRACKET [] (c1 :: r') H')
      by (intros []).
    rewrite jslen_nil.
    destruct (Z.eqb_spec (p + 0 + 1) 0) as [?|_]; [lia|].
    pose proof (Splits_next _ _ _ _ H') as Hnext.
    replace (p + 0 + 1) with (p + 1) by lia.
    rewrite !(Splits_codeIs _ _ _ _ _ Hnext), Hs1, Hx. cbn [andb].
    set (pos := p + jslen (documentText (Elem t a ch))).
    assert (Hnode :
      parseSingleNode (nodeOptions keepComments keepWhitespace None (p + 1))
        (length els + n) data
      = Done (mkTNode t a ch, pos)).
    { unfold parseSingleNode.
      change (startPos (nodeOptions keepComments keepWhitespace None (p + 1)))
        with (p + 1 - 1).
      change (selfClosingTags
                (nodeOptions keepComments keepWhitespace None (p + 1)))
        with DEFAULT_SELF_CLOSING.
      replace (p + 1 - 1) with p by lia.
      eapply parseNode_canonical; [exact Hcan|reflexivity|lia|exact H]. }
    rewrite Hnode. cbn [bind].
    pose proof (Splits_jslen _ _ _ H) as Hlen.
    rewrite !jslen_app in Hlen.
    assert (Hafter : 1 <= jslen after).
    { destruct after; [contradiction|]. rewrite jslen_cons.
      pose proof (jslen_nonneg after). lia. }
    pose proof (jslen_nonneg (childrenText els)).
    pose proof (jslen_nonneg (documentText (Elem t a ch))).
    destruct (Z.ltb_spec (jslen data - 1) pos) as [?|_]; [unfold pos in *; lia|].
    destruct (Z.ltb_spec pos p) as [?|_]; [unfold pos in *; lia|].
    cbn [orb].
    rewrite (IH Hall n data pos _ after Hne).
    + cbn [pushedElements]. fold pos. rewrite <- app_assoc. cbn [app].
      rewrite jslen_app. f_equal; unfold pos; lia.
    + unfold pos. now apply Splits_skip in H.
    + lia.
Qed.

Lemma transformStreamLoop_idle (n : nat) data p pushed tail :
  hasChar OPEN_BRACKET tail = false ->
  Splits data p tail ->
  transformStreamLoop keepComments keepWhitespace None
    (Datatypes.S n) data p p pushed
  = Done (pushed, mkState data p).
Proof.
  intros Hno H. cbn [transformStreamLoop]. cbv zeta.
  rewrite (Splits_indexOf _ _ _ _ H),
    (indexOfFrom_char_absent _ _ _ (hasChar_false _ _ Hno)).
  reflexivity.
Qed.

Lemma transformStreamLoop_pushes (els : list Child) (tail : jsstring)
    (fuel : nat) :
  canonicalElements els = true ->
  tail <> [] -> hasChar OPEN_BRACKET tail = false ->
  (length els + fuelOfList els <= fuel)%nat ->
  transformStreamLoop keepComments keepWhitespace None
    fuel (childrenText els ++ tail) 0 0 []
  = Done (pushedElements 0 els,
          mkState (childrenText els ++ tail) (jslen (childrenText els))).
Proof.
  intros Hc Hne Hno Hf.
  replace fuel with (length els + (fuel - length els))%nat by lia.
  rewrite (transformStreamLoop_elements els Hc _ _ 0 [] tail Hne
             (Splits_start _)) by lia.
  pose proof (fuelOfList_positive els).
  destruct (fuel - length els)%nat as [|n] eqn:E; [lia|].
  rewrite (transformStreamLoop_idle n _ _ _ tail Hno).
  - reflexivity.
  - replace (0 + jslen (childrenText els)) with (jslen (childrenText els))
      by lia.
    apply Splits_here.
Qed.

Lemma transformStreamLoop_withholds (init : list Child) (last : Child)
    (fuel : nat) :
  canonicalElements (init ++ [last]) = true ->
  (length init + fuelOfList (init ++ [last]) <= fuel)%nat ->
  transformStreamLoop keepComments keepWhitespace None
    fuel (childrenText init ++ documentText last) 0 0 []
  = Done (pushedElements 0 init, mkState (documentText last) 0).
Proof.
  intros Hc Hf. unfold canonicalElements in Hc. rewrite forallb_app in Hc.
  apply andb_true_iff in Hc as [Hinit Hlast]. cbn [forallb] in Hlast.
  rewrite andb_true_r in Hlast. apply andb_true_iff in Hlast as [He Hcan].
  destruct last as [s|t a ch]; [discriminate|].
  assert (Hfl : (fuelOfList init + fuelOf (Elem t a ch) <= fuelOfList
                   (init ++ [Elem t a ch]))%nat).
  { clear. induction init as [|c init IH]; cbn [app fuelOfList]; lia. }
  assert (Hne : documentText (Elem t a ch) <> []) by discriminate.
  pose proof (fuelOfList_positive init) as Hpos.
  pose proof (fuelOf_positive (Elem t a ch) eq_refl) as Hpos'.
  set (data := childrenText init ++ documentText (Elem t a ch)).
  replace fuel with (length init + (fuel - length init))%nat by lia.
  rewrite (transformStreamLoop_elements init Hinit _ data 0 [] _ Hne
             (Splits_start _)) by lia.
  destruct (fuel - length init)%nat as [|n] eqn:E; [lia|].
  set (p := 0 + jslen (childrenText init)).
  assert (H : Splits data p (documentText (Elem t a ch))).
  { unfold p. replace (0 + jslen (childrenText init))
      with (jslen (childrenText init)) by lia. apply Splits_here. }
  pose proof Hcan as Hcan'. cbn [canonical] in Hcan'.
  repeat (apply andb_true_iff in Hcan' as [Hcan' ?]).
  destruct (canonicalTag_inv _ Hcan') as [c1 [tl1 [Et [Hq [Hx [Hn1 _]]]]]].
  assert (Hs1 : N.eqb c1 SLASH = false).
  { apply (nameChars_not_slash t); [assumption|]. subst t. now left. }
  assert (H' : exists r', Splits data p (OPEN_BRACKET :: c1 :: r')).
  { cbn [documentText] in H. rewrite Et in H at 1. norm_app_in H.
    eexists. exact H. }
  destruct H' as [r' H'].
  pose proof (Splits_nonneg _ _ _ H) as Hp.
  cbn [transformStreamLoop]. cbv zeta.
  rewrite (Splits_indexOf_char data p OPEN_BRACKET [] (c1 :: r') H')
    by (intros []).
  rewrite jslen_nil.
  destruct (Z.eqb_spec (p + 0 + 1) 0) as [?|_]; [lia|].
  pose proof (Splits_next _ _ _ _ H') as Hnext.
  replace (p + 0 + 1) with (p + 1) by lia.
  rewrite !(Splits_codeIs _ _ _ _ _ Hnext), Hs1, Hx. cbn [andb].
  assert (Hnode :
    parseSingleNode (nodeOptions keepComments keepWhitespace None (p + 1))
      n data
    = Done (mkTNode t a ch, p + jslen (documentText (Elem t a ch)))).
  { unfold parseSingleNode.
    change (startPos (nodeOptions keepComments keepWhitespace None (p + 1)))
      with (p + 1 - 1).
    change (selfClosingTags
              (nodeOptions keepComments keepWhitespace None (p + 1)))
      with DEFAULT_SELF_CLOSING.
    replace (p + 1 - 1) with p by lia.
    eapply parseNode_canonical; [exact Hcan|reflexivity|lia|].
    now rewrite app_nil_r. }
  rewrite Hnode. cbn [bind].
  pose proof (Splits_jslen _ _ _ H) as Hlen.
  destruct (Z.ltb_spec (jslen data - 1)
              (p + jslen (documentText (Elem t a ch)))) as [_|?]; [|lia].
  cbn [orb app]. unfold sliceFrom.
  rewrite (slice_to_end data p (jslen data) _ H) by lia. reflexivity.
Qed.

End StreamElements.

Lemma fuelOfList_last (init : list Child) (last : Child) :
  (fuelOfList [last] <= fuelOfList (init ++ [last]))%nat.
Proof. induction init as [|c init IH]; cbn [app fuelOfList] in *; lia. Qed.

(** X20.  A chunk that holds canonical elements one after the other,
    followed by at least one character and no further ['<'], makes both
    adapters push every one of these elements, in order, each with the
    position behind it; the whole chunk stays in the buffer and the
    position is left behind the last element. *)
Theorem stream_pushes_elements
    (keepComments keepWhitespace : bool) (els : list Child) (tail : jsstring)
    (fuel : nat) :
  canonicalElements els = true ->
  tail <> [] -> hasChar OPEN_BRACKET tail = false ->
  (length els + fuelOfList els <= fuel)%nat ->
  transformStream keepComments keepWhitespace None fuel
    (initialState (inl 0)) (childrenText els ++ tail)
  = Done (pushedElements 0 els,
          mkState (childrenText els ++ tail) (jslen (childrenText els)))
  /\ transformWebStream keepComments keepWhitespace None fuel
       (initialState (inl 0)) (childrenText els ++ tail)
     = Done (pushedElements 0 els,
             mkState (childrenText els ++ tail) (jslen (childrenText els))).
Proof.
  intros Hc Hne Hno Hf.
  assert (R : transformStream keepComments keepWhitespace None fuel
                (initialState (inl 0)) (childrenText els ++ tail)
              = Done (pushedElements 0 els,
                      mkState (childrenText els ++ tail)
                        (jslen (childrenText els)))).
  { unfold transformStream. cbn [data position initialState app].
    now apply transformStreamLoop_pushes. }
  split; exact R.
Qed.

(** Two elements and a line feed in one chunk. *)
Lemma stream_pushes_elements_example :
  let els := [Elem (js "a") [] [Str (js "x")]; Elem (js "b") [] []] in
  let chunk := js "<a>x</a><b></b>" ++ [LINE_FEED] in
  (canonicalElements els = true /\ childrenText els ++ [LINE_FEED] = chunk)
  /\ transformStream false false None 10 (initialState (inl 0)) chunk
     = Done ([Parsed (mkTNode (js "a") [] [Str (js "x")]) 8;
              Parsed (mkTNode (js "b") [] []) 15],
             mkState chunk 15).
Proof.
  intros els chunk. split; [now split|].
  assert (Hne : [LINE_FEED] <> []) by discriminate.
  apply (proj1 (stream_pushes_elements false false els [LINE_FEED] 10
                  eq_refl Hne eq_refl ltac:(vm_compute; lia))).
Defined.

(** X21.  An element that ends exactly where the buffer ends is not
    pushed yet: both adapters push the elements before it, cut the buffer
    down to the text of that element and wait.  It is pushed when a later
    chunk brings at least one more character, and never if the stream ends
    there. *)
Theorem stream_withholds_last_element
    (keepComments keepWhitespace : bool) (init : list Child) (last : Child)
    (tail : jsstring) (fuel : nat) :
  canonicalElements (init ++ [last]) = true ->
  tail <> [] -> hasChar OPEN_BRACKET tail = false ->
  (1 + length init + fuelOfList (init ++ [last]) <= fuel)%nat ->
  let text := childrenText init ++ documentText last in
  (transformStream keepComments keepWhitespace None fuel
     (initialState (inl 0)) text
   = Done (pushedElements 0 init, mkState (documentText last) 0)
   /\ runStream (transformStream keepComments keepWhitespace None) fuel
        (initialState (inl 0)) [text]
      = Done (pushedElements 0 init)
   /\ runStream (transformStream keepComments keepWhitespace None) fuel
        (initialState (inl 0)) [text; tail]
      = Done (pushedElements 0 init ++ pushedElements 0 [last]))
  /\ (transformWebStream keepComments keepWhitespace None fuel
        (initialState (inl 0)) text
      = Done (pushedElements 0 init, mkState (documentText last) 0)
      /\ runStream (transformWebStream keepComments keepWhitespace None) fuel
           (initialState (inl 0)) [text]
         = Done (pushedElements 0 init)
      /\ runStream (transformWebStream keepComments keepWhitespace None) fuel
           (initialState (inl 0)) [text; tail]
         = Done (pushedElements 0 init ++ pushedElements 0 [last])).
Proof.
  intros Hc Hne Hno Hf text.
  assert (A : transformStream keepComments keepWhitespace None fuel
                (initialState (inl 0)) text
              = Done (pushedElements 0 init, mkState (documentText last) 0)).
  { unfold transformStream. cbn [data position initialState app].
    apply transformStreamLoop_withholds; [exact Hc|lia]. }
  assert (B : transformStream keepComments keepWhitespace None fuel
                (mkState (documentText last) 0) tail
              = Done (pushedElements 0 [last],
                      mkState (documentText last ++ tail)
                        (jslen (childrenText [last])))).
  { unfold transformStream. cbn [data position].
    assert (E : documentText last = childrenText [last]).
    { unfold childrenText. cbn [map concat]. now rewrite app_nil_r. }
    rewrite E. apply transformStreamLoop_pushes; try assumption.
    - unfold canonicalElements in *. rewrite forallb_app in Hc.
      now apply andb_true_iff in Hc as [_ Hc].
    - pose proof (fuelOfList_last init last). cbn [length]. lia. }
  assert (R1 : runStream (transformStream keepComments keepWhitespace None)
                 fuel (initialState (inl 0)) [text]
               = Done (pushedElements 0 init)).
  { cbn [runStream]. rewrite A. cbn [bind]. now rewrite app_nil_r. }
  assert (R2 : runStream (transformStream keepComments keepWhitespace None)
                 fuel (initialState (inl 0)) [text; tail]
               = Done (pushedElements 0 init ++ pushedElements 0 [last])).
  { cbn [runStream]. rewrite A. cbn [bind]. rewrite B. cbn [bind].
    now rewrite app_nil_r. }
  split; (split; [exact A|split; [exact R1|exact R2]]).
Qed.

(** The element [b] ends the first chunk and is pushed with the second. *)
Lemma stream_withholds_last_element_example :
  let init := [Elem (js "a") [] [Str (js "x")]] in
  let last := Elem (js "b") [] [] in
  (canonicalElements (init ++ [last]) = true
   /\ childrenText init ++ documentText last = js "<a>x</a><b></b>")
  /\ runStream (transformStream false false None) 10 (initialState (inl 0))
       [js "<a>x</a><b></b>"]
     = Done [Parsed (mkTNode (js "a") [] [Str (js "x")]) 8]
  /\ runStream (transformStream false false None) 10 (initialState (inl 0))
       [js "<a>x</a><b></b>"; js " "]
     = Done [Parsed (mkTNode (js "a") [] [Str (js "x")]) 8;
             Parsed (mkTNode (js "b") [] []) 7].
Proof.
  intros init last. split; [now split|].
  assert (Hne : js " " <> []) by discriminate.
  destruct (stream_withholds_last_element false false init last (js " ") 10
              eq_refl Hne eq_refl ltac:(vm_compute; lia))
    as [[_ [R1 R2]] _].
  split; [exact R1|exact R2].
Defined.

(** ** The attribute search *)



Section Search.

Variable options : ParseOptions.t.

Hypothesis default_tags : selfClosingTags options = DEFAULT_SELF_CLOSING.


End Search.





(** ** Close tags that hold more than the name *)

Lemma includes_occurs (pre pat post : jsstring) :
  includes (pre ++ pat ++ post) pat = true.
Proof.
  unfold includes. rewrite indexOf_0.
  pose proof (indexOfFrom_occurs pat pre post 0 (Z.le_refl 0)) as H.
  destruct (Z.eqb_spec (indexOfFrom pat (pre ++ pat ++ post) 0) (-1));
    [contradiction|reflexivity].
Qed.

Section LenientCloseTag.

Variable S : jsstring.
Variable keepComments keepWhitespace : bool.
Variable selfClosingTags : list jsstring.

(** X24.  A close tag closes the element being read as soon as its text
    contains the name of the element: the name may have any characters
    before and after it. *)
Theorem close_tag_contains_name
    (fuel : nat) (tagName : jsstring) (p : Z) (children : list Child)
    (before after rest : jsstring) :
  hasChar CLOSE_BRACKET (before ++ tagName ++ after) = false ->
  Splits S p (js "</" ++ before ++ tagName ++ after ++ js ">" ++ rest) ->
  parseChildren S keepComments keepWhitespace selfClosingTags
    (Datatypes.S fuel) tagName p children
  = Done (children,
          p + jslen (js "</" ++ before ++ tagName ++ after ++ js ">")).
Proof.
  intros Hno H.
  assert (H0 : Splits S p (OPEN_BRACKET :: SLASH
                             :: (before ++ tagName ++ after)
                             ++ CLOSE_BRACKET :: rest)).
  { cbn [app]. rewrite <- !app_assoc. exact H. }
  pose proof (Splits_next _ _ _ _ H0) as H1.
  pose proof (Splits_next _ _ _ _ H1) as H2.
  replace (p + 1 + 1) with (p + 2) in H2 by lia.
  rewrite (parseChildren_close_tag S _ _ _ fuel tagName p children
             (Splits_char _ _ _ _ H0))
    by (now rewrite (Splits_codeIs _ _ _ _ _ H1)).
  cbv zeta.
  assert (Hidx : indexOf S [CLOSE_BRACKET] p
                 = p + 2 + jslen (before ++ tagName ++ after)).
  { rewrite (Splits_indexOf_char S p CLOSE_BRACKET
               (OPEN_BRACKET :: SLASH :: before ++ tagName ++ after) rest).
    - rewrite !jslen_cons. lia.
    - exact H0.
    - intros [E|[E|Hin]]; try discriminate.
      revert Hin. now apply hasChar_false. }
  rewrite Hidx, (Splits_substring _ _ _ _ H2), includes_occurs.
  pose proof (Splits_nonneg _ _ _ H).
  pose proof (jslen_nonneg (before ++ tagName ++ after)).
  destruct (Z.eqb_spec (p + 2 + jslen (before ++ tagName ++ after) + 1) 0);
    [lia|].
  do 2 f_equal. rewrite !jslen_app. change (jslen (js "</")) with 2.
  change (jslen (js ">")) with 1. lia.
Qed.

End LenientCloseTag.

(** The element [b] closed by [</bold>], and by a close tag with an
    attribute. *)
Lemma close_tag_contains_name_example :
  parseChildren (js "<b>x</bold>y") false false DEFAULT_SELF_CLOSING 1
    (js "b") 4 [Str (js "x")]
  = Done ([Str (js "x")], 4 + jslen (js "</" ++ [] ++ js "b" ++ js "old"
                                       ++ js ">"))
  /\ parse ParseOptions.default 20 (js "<b>x</bold>y")
     = Done (Nodes [Elem (js "b") [] [Str (js "x")]; Str (js "y")])
  /\ parse ParseOptions.default 20 (js "<b>x</a b c>")
     = Done (Nodes [Elem (js "b") [] [Str (js "x")]]).
Proof.
  split; [|split; reflexivity].
  assert (H : Splits (js "<b>x</bold>y") 4
                (js "</" ++ [] ++ js "b" ++ js "old" ++ js ">" ++ js "y"))
    by now exists (js "<b>x").
  exact (close_tag_contains_name (js "<b>x</bold>y") false false
           DEFAULT_SELF_CLOSING 0 (js "b") 4 [Str (js "x")] [] (js "old")
           (js "y") eq_refl H).
Defined.

(** ** A [script] or [style] element that is never closed *)

Lemma slice_without_last (S : jsstring) (p : Z) (content : jsstring) :
  Splits S p content -> slice S p (-1) = removelast content.
Proof.
  intros H. pose proof (Splits_nonneg _ _ _ H) as Hp.
  pose proof (Splits_jslen _ _ _ H) as Hlen.
  pose proof (jslen_nonneg content) as Hc.
  unfold slice, sliceIndex.
  destruct (Z.ltb_spec p 0) as [?|_]; [lia|].
  change (-1 <? 0) with true. cbv iota.
  rewrite (Z.min_l p) by lia.
  destruct H as [pre [-> ->]]. rewrite to_nat_jslen.
  rewrite skipn_app, skipn_all, Nat.sub_diag. cbn [skipn app].
  rewrite removelast_firstn_len. f_equal.
  rewrite jslen_app in *. unfold jslen in *. lia.
Qed.

Lemma indexOfFrom_after_bracket (kind content : jsstring) (i : Z) :
  indexOfFrom (closeTagText kind) content 0 = -1 ->
  0 <= i ->
  indexOfFrom (closeTagText kind) (CLOSE_BRACKET :: content) i = -1.
Proof.
  intros H Hi. cbn [indexOfFrom]. unfold closeTagText at 1.
  cbn [app startsWith].
  change (N.eqb OPEN_BRACKET CLOSE_BRACKET) with false. cbn [andb].
  assert (A := indexOfFrom_offsets (closeTagText kind) content 0 (i + 1)
                 (Z.le_refl 0) ltac:(lia)).
  destruct A as [A _]. now apply A.
Qed.

Section UnclosedScript.

Variable S : jsstring.
Variable keepComments keepWhitespace : bool.
Variable selfClosingTags : list jsstring.

(** X25.  When a [script] or [style] element has no close tag of its
    kind up to the end of the input, nothing is thrown: its child is the
    rest of the input without its last character, and the cursor is put at
    position 8 of the text for [script] and 7 for [style], wherever the
    element is, so that the caller goes on reading from there. *)
Theorem unclosed_script_element
    (fuel : nat) (p : Z) (kind : jsstring) (attrs : Attributes)
    (content : jsstring) :
  kind = js "script" \/ kind = js "style" ->
  forallb readableAttribute attrs = true ->
  indexOfFrom (closeTagText kind) content 0 = -1 ->
  Splits S p (openTagText kind attrs ++ content) ->
  parseNode S keepComments keepWhitespace selfClosingTags
    (Datatypes.S fuel) p
  = Done (mkTNode kind (setAttributes [] attrs) [Str (removelast content)],
          if streq kind (js "script") then 8 else 7).
Proof.
  intros Hkind Ha Hno H. rewrite parseNode_unfold.
  assert (Hn : nameChars kind = true) by (destruct Hkind; now subst).
  assert (Hne : kind <> []) by (destruct Hkind; now subst).
  unfold openTagText in H. norm_app_in H.
  rewrite (parseNodeBody_open_any S _ _ p kind attrs content Hne Hn Ha H).
  cbv zeta.
  set (q := p + 1 + jslen kind + jslen (attributesText attrs)).
  assert (Hq : Splits S q (CLOSE_BRACKET :: content)).
  { unfold q. apply Splits_next in H. apply Splits_skip in H.
    now apply Splits_skip in H. }
  pose proof (Splits_nonneg _ _ _ Hq) as Hq0.
  assert (Hidx : indexOf S (closeTagText kind) q = -1).
  { rewrite (Splits_indexOf _ _ _ _ Hq).
    now apply indexOfFrom_after_bracket. }
  pose proof (slice_without_last S (q + 1) content (Splits_next _ _ _ _ Hq))
    as Hslice.
  destruct Hkind as [-> | ->].
  - change (streq (js "script") (js "script")) with true. cbv iota.
    change (js "</script>") with (closeTagText (js "script")).
    now rewrite Hidx, Hslice.
  - change (streq (js "style") (js "script")) with false.
    change (streq (js "style") (js "style")) with true. cbv iota.
    change (js "</style>") with (closeTagText (js "style")).
    now rewrite Hidx, Hslice.
Qed.

End UnclosedScript.

(** A script that is never closed, inside [a]: its content loses the last
    character, and what is behind position 8 is read again as the content
    of [a]. *)
Lemma unclosed_script_element_example :
  let S := js "<a><script>alert(1)" in
  parseNode S false false DEFAULT_SELF_CLOSING 1 3
  = Done (mkTNode (js "script") [] [Str (js "alert(1")], 8)
  /\ parse ParseOptions.default 20 S
     = Done (Nodes [Elem (js "a") []
                      [Elem (js "script") [] [Str (js "alert(1")];
                       Str (js "pt>alert(1)")]]).
Proof.
  intros S. split; [|reflexivity].
  assert (H : Splits S 3 (openTagText (js "script") [] ++ js "alert(1)"))
    by now exists (js "<a>").
  exact (unclosed_script_element S false false DEFAULT_SELF_CLOSING 0 3
           (js "script") [] (js "alert(1)") (or_introl eq_refl) eq_refl
           eq_refl H).
Defined.

(** ** One node *)

(** X26.  In [parseNode] mode [parse] reads one element, starting at
    [pos], and returns it alone; what follows the element is not read, a
    [filter] is not applied, and with [setPos] the result carries the
    position behind the element. *)
Theorem parse_single_node
    (setPos keepComments keepWhitespace : bool) (f : option Predicate)
    (p : Z) (S : jsstring) (root : Child) (rest : jsstring) (fuel : nat) :
  isElem root = true -> canonical root = true ->
  Splits S p (documentText root ++ rest) ->
  (fuelOf root <= fuel)%nat ->
  exists node,
    ofNode node = root
    /\ parse (ParseOptions.mk (Some p) None None setPos keepComments
                keepWhitespace false true None None f) fuel S
       = Done (Node node
                 (if setPos then Some (p + jslen (documentText root))
                  else None)).
Proof.
  intros He Hc H Hf. destruct root as [s|t a ch]; [discriminate|].
  exists (mkTNode t a ch). split; [reflexivity|].
  unfold parse, parseSingleNode.
  cbn [ParseOptions.attrValue ParseOptions.parseNode ParseOptions.simplify
         ParseOptions.setPos].
  change (startPos (ParseOptions.mk (Some p) None None setPos keepComments
                      keepWhitespace false true None None f)) with p.
  change (selfClosingTags
            (ParseOptions.mk (Some p) None None setPos keepComments
               keepWhitespace false true None None f))
    with DEFAULT_SELF_CLOSING.
  rewrite (parseNode_canonical S _ _ (Elem t a ch) Hc t a ch eq_refl
             fuel p rest Hf H).
  cbn [bind]. now destruct setPos.
Qed.

(** The second of two elements, read from its position. *)
Lemma parse_single_node_example :
  let S := js "<a></a><b>x</b><c></c>" in
  let root := Elem (js "b") [] [Str (js "x")] in
  exists node,
    ofNode node = root
    /\ parse (ParseOptions.mk (Some 7) None None true false false false true
                None None None) 5 S
       = Done (Node node (if true then Some (7 + jslen (documentText root))
                          else None)).
Proof.
  intros S root.
  assert (H : Splits S 7 (documentText root ++ js "<c></c>"))
    by now exists (js "<a></a>").
  exact (parse_single_node true false false None 7 S root (js "<c></c>") 5
           eq_refl eq_refl H ltac:(vm_compute; lia)).
Defined.

(** ** A value without quotes *)

Lemma parseAttributes_unquoted S n p acc name word rest :
  Splits S p (name ++ js "=" ++ word ++ CLOSE_BRACKET :: rest) ->
  canonicalName name = true -> canonicalName word = true ->
  parseAttributes S (Datatypes.S (Datatypes.S n)) p acc
  = Done (setAttribute (setAttribute acc name None) word None,
          p + jslen (name ++ js "=" ++ word), false).
Proof.
  intros H Hname Hword.
  destruct (canonicalName_inv _ Hname) as [c [name' [E [Hc Hn]]]].
  destruct (canonicalName_inv _ Hword) as [w [word' [Ew [Hw Hnw]]]].
  assert (Hchar : charCodeAt S p = Some c).
  { subst name. eapply Splits_char. exact H. }
  set (m := Datatypes.S n).
  cbn [parseAttributes]. rewrite Hchar, (letter_not_close _ Hc), Hc.
  subst m.
  change (js "=") with [61%N] in H.
  rewrite (parseName_name S p name _ H Hn) by reflexivity.
  pose proof (Splits_skip _ _ _ _ H) as H1.
  rewrite (Splits_suffix _ _ _ H1).
  assert (Hskip : skipToValue ([61%N] ++ word ++ CLOSE_BRACKET :: rest)
                    (p + jslen name)
                  = p + jslen name + 1).
  { rewrite Ew. cbn [app skipToValue].
    change (N.eqb 61 0) with false. change (N.eqb 61 SINGLE_QUOTE) with false.
    change (N.eqb 61 DOUBLE_QUOTE) with false. change (isLetter 61) with false.
    change (N.eqb 61 CLOSE_BRACKET) with false. cbn [negb andb].
    rewrite Hw. now rewrite !andb_false_r. }
  rewrite Hskip.
  pose proof (Splits_next _ _ _ _ H1) as H2.
  assert (Hcode : codeIs S (p + jslen name + 1) SINGLE_QUOTE
                  || codeIs S (p + jslen name + 1) DOUBLE_QUOTE = false).
  { pose proof H2 as H2'. rewrite Ew in H2'. cbn [app] in H2'.
    rewrite !(Splits_codeIs _ _ _ _ _ H2').
    destruct (N.eqb_spec w SINGLE_QUOTE) as [->|]; [discriminate|].
    destruct (N.eqb_spec w DOUBLE_QUOTE) as [->|]; [discriminate|].
    reflexivity. }
  rewrite Hcode.
  replace (p + jslen name + 1 - 1 + 1) with (p + jslen name + 1) by lia.
  rewrite (parseAttributes_flag_end S n _ _ word rest H2 Hword).
  rewrite (parseAttributes_end S n _ _ rest) by (now apply Splits_skip in H2).
  do 2 f_equal. change (js "=") with [61%N]. rewrite !jslen_app.
  change (jslen [61%N]) with 1. f_equal. lia.
Qed.

Lemma parseAttributes_before_unquoted S (attrs : Attributes) name word rest :
  canonicalName name = true -> canonicalName word = true ->
  forallb readableAttribute attrs = true ->
  forall n p acc,
    Splits S p (attributesText attrs ++ js " " ++ name ++ js "=" ++ word
                  ++ CLOSE_BRACKET :: rest) ->
    (2 * length attrs + 3 <= n)%nat ->
    parseAttributes S n p acc
    = Done (setAttribute (setAttribute (setAttributes acc attrs) name None)
              word None,
            p + jslen (attributesText attrs)
              + jslen (js " " ++ name ++ js "=" ++ word),
            false).
Proof.
  intros Hname Hword Ha.
  destruct (canonicalName_inv _ Hname) as [c [name' [E [Hc Hn]]]].
  set (T := js " " ++ name ++ js "=" ++ word ++ CLOSE_BRACKET :: rest).
  set (fin := fun (acc : Attributes) (t : Z) =>
                (setAttribute (setAttribute acc name None) word None,
                 t + jslen (js " " ++ name ++ js "=" ++ word), false)).
  assert (Unq : forall n p acc,
             Splits S p (name ++ js "=" ++ word ++ CLOSE_BRACKET :: rest) ->
             parseAttributes S (Datatypes.S (Datatypes.S n)) p acc
             = Done (fin acc (p - 1))).
  { intros n p acc H.
    rewrite (parseAttributes_unquoted S n p acc name word rest H Hname Hword).
    unfold fin. do 3 f_equal. rewrite !jslen_app.
    change (jslen (js " ")) with 1. lia. }
  assert (T0 : forall n p acc,
             Splits S p T ->
             parseAttributes S (3 + n) p acc = Done (fin acc p)).
  { intros n p acc H. unfold T in H. change (js " ") with [32%N] in H.
    cbn [app] in H. cbn [Nat.add].
    rewrite (parseAttributes_other S _ p acc 32%N _ H) by reflexivity.
    apply Splits_next in H. replace p with (p + 1 - 1) at 2 by lia.
    now apply Unq. }
  assert (T1 : forall n p acc name0 value,
             canonicalName name0 = true -> readableValue value = true ->
             true = true ->
             Splits S p (name0 ++ valueText value ++ T) ->
             parseAttributes S (Datatypes.S (3 + n)) p acc
             = Done (fin (setAttribute acc name0 value)
                       (p + jslen (name0 ++ valueText value)))).
  { intros n p acc name0 value Hname0 Hvalue _ H.
    destruct value as [v0|].
    - destruct (readableValue_quote v0 Hvalue) as [q0 [Hqq [Hv0 Ev]]].
      rewrite Ev in *. rewrite <- !app_assoc in H.
      rewrite (parseAttributes_value S _ p acc name0 q0 v0 _ H Hname0 Hqq Hv0).
      apply T0. apply Splits_skip. now rewrite <- !app_assoc.
    - cbn [valueText app] in H. unfold T in H.
      change (js " ") with [32%N] in H.
      assert (H0 : Splits S p (name0 ++ 32%N :: c :: name' ++ js "=" ++ word
                                 ++ CLOSE_BRACKET :: rest)).
      { rewrite E in H. exact H. }
      cbn [Nat.add].
      rewrite (parseAttributes_flag_more S _ p acc name0 c _ H0 Hname0 Hc).
      apply Splits_skip in H0. apply Splits_next in H0.
      rewrite (Unq _ (p + jslen name0 + 1)) by (rewrite E; exact H0).
      do 2 f_equal. cbn [valueText]. rewrite app_nil_r. lia. }
  assert (HQ : forallb (fun kv : jsstring * option jsstring => true) attrs
               = true).
  { apply forallb_forall. reflexivity. }
  destruct (parseAttributes_tail S T fin (fun _ => true) 3 T0 T1 attrs Ha HQ)
    as [A _].
  exact A.
Qed.

Section UnquotedValue.

Variable S : jsstring.
Variable keepComments keepWhitespace : bool.
Variable selfClosingTags : list jsstring.

(** X27.  A value written without quotes is not read as the value of its
    attribute: [name=word] gives two attributes without value, [name] and
    [word] (here in the tag of an element of [selfClosingTags], where the
    element ends with its tag). *)
Theorem unquoted_attribute_value
    (fuel : nat) (p : Z) (tag : jsstring) (attrs : Attributes)
    (name word rest : jsstring) :
  arrayIncludes selfClosingTags tag = true ->
  streq tag (js "script") = false -> streq tag (js "style") = false ->
  nameChars tag = true ->
  forallb readableAttribute attrs = true ->
  canonicalName name = true -> canonicalName word = true ->
  Splits S p (unquotedTagText tag attrs name word ++ rest) ->
  parseNode S keepComments keepWhitespace selfClosingTags
    (Datatypes.S fuel) p
  = Done (mkTNode tag
            (setAttribute (setAttribute (setAttributes [] attrs) name None)
               word None) [],
          p + jslen (unquotedTagText tag attrs name word)).
Proof.
  intros Hv Hsc Hst Hn Ha Hname Hword H.
  rewrite parseNode_unfold. unfold parseNodeBody.
  unfold unquotedTagText in H. norm_app_in H.
  pose proof (Splits_next _ _ _ _ H) as H1.
  assert (Hend : match attributesText attrs ++ js " " ++ name ++ js "="
                         ++ word ++ CLOSE_BRACKET :: rest with
                 | x :: _ => isNameEnd x = true
                 | [] => True
                 end).
  { destruct attrs as [|kv attrs']; [reflexivity|].
    rewrite attributesText_cons. reflexivity. }
  rewrite (parseName_name S (p + 1) tag _ H1 Hn Hend).
  pose proof (Splits_skip _ _ _ _ H1) as H2.
  rewrite (parseAttributes_before_unquoted S attrs name word rest Hname Hword
             Ha (length S) _ [] H2).
  2:{ pose proof (attributesText_length attrs Ha) as Hlen.
      pose proof (Splits_jslen _ _ _ H2) as Hj.
      pose proof (Splits_nonneg _ _ _ H2).
      destruct (canonicalName_inv _ Hname) as [c [name' [E _]]].
      destruct (canonicalName_inv _ Hword) as [w [word' [Ew _]]].
      subst name word.
      repeat (rewrite jslen_app in Hj || rewrite jslen_cons in Hj).
      pose proof (jslen_nonneg name'). pose proof (jslen_nonneg word').
      pose proof (jslen_nonneg rest).
      unfold jslen in *. lia. }
  cbn [bind].
  (* the character before ['>'] is the last one of [word] *)
  destruct (canonicalName_inv _ Hword) as [w [word' [Ew [_ Hnw]]]].
  destruct (last_char (fun x => N.eqb x SLASH = false) word)
    as [init [cl [El Hcl]]].
  { now subst word. }
  { intros x. now apply nameChars_not_slash. }
  set (q := p + 1 + jslen tag + jslen (attributesText attrs)).
  assert (H3 : Splits S (q + jslen (js " " ++ name ++ js "=" ++ init))
                 (cl :: CLOSE_BRACKET :: rest)).
  { unfold q. apply Splits_skip in H2.
    apply (Splits_skip S _ (js " " ++ name ++ js "=" ++ init)).
    rewrite El in H2. norm_app_in H2. norm_app. exact H2. }
  assert (Hlen : jslen (js " " ++ name ++ js "=" ++ word)
                 = jslen (js " " ++ name ++ js "=" ++ init) + 1).
  { rewrite El, !jslen_app. change (jslen [cl]) with 1. lia. }
  fold q. rewrite Hlen.
  replace (q + (jslen (js " " ++ name ++ js "=" ++ init) + 1) - 1)
    with (q + jslen (js " " ++ name ++ js "=" ++ init)) by lia.
  rewrite (Splits_codeIs _ _ _ _ _ H3), Hcl. cbn [negb].
  rewrite Hsc, Hst, Hv. cbn [negb].
  do 2 f_equal. unfold unquotedTagText, q.
  rewrite El. rewrite !jslen_app. change (jslen [OPEN_BRACKET]) with 1.
  change (jslen [CLOSE_BRACKET]) with 1. change (jslen [cl]) with 1. lia.
Qed.

End UnquotedValue.

(** The usual [input] with a type and no quotes. *)
Lemma unquoted_attribute_value_example :
  let S := js "<input id=" ++ dq ++ js "i" ++ dq ++ js " type=text>x" in
  parseNode S false false DEFAULT_SELF_CLOSING 1 0
  = Done (mkTNode (js "input")
            [(js "id", Some (js "i")); (js "type", None); (js "text", None)]
            [],
          0 + jslen (unquotedTagText (js "input") [(js "id", Some (js "i"))]
                       (js "type") (js "text"))).
Proof.
  intros S.
  assert (H : Splits S 0 (unquotedTagText (js "input")
                            [(js "id", Some (js "i"))] (js "type") (js "text")
                            ++ js "x"))
    by now exists [].
  exact (unquoted_attribute_value S false false DEFAULT_SELF_CLOSING 0 0
           (js "input") [(js "id", Some (js "i"))] (js "type") (js "text")
           (js "x") eq_refl eq_refl eq_refl eq_refl eq_refl eq_refl eq_refl H).
Defined.

(** ** The offset of an adapter *)

Section StreamOffset.

Variable keepComments keepWhitespace : bool.

(** The turn of the loop on an element that something follows, when the
    last position is not behind the cursor. *)
Lemma transformStreamLoop_element (c : Child) :
  isElem c = true -> canonical c = true ->
  forall n data p lastPos pushed after,
    after <> [] -> lastPos <= p ->
    Splits data p (documentText c ++ after) ->
    (fuelOf c <= n)%nat ->
    transformStreamLoop keepComments keepWhitespace None
      (Datatypes.S n) data p lastPos pushed
    = transformStreamLoop keepComments keepWhitespace None
        n data (p + jslen (documentText c)) (p + jslen (documentText c))
        (pushed ++ pushedElements p [c]).
Proof.
  intros He Hcan n data p lastPos pushed after Hne Hlast H Hn.
  destruct c as [s|t a ch]; [discriminate|].
  pose proof Hcan as Hcan'. cbn [canonical] in Hcan'.
  repeat (apply andb_true_iff in Hcan' as [Hcan' ?]).
  destruct (canonicalTag_inv _ Hcan') as [c1 [tl1 [Et [Hq [Hx [Hn1 _]]]]]].
  assert (Hs1 : N.eqb c1 SLASH = false).
  { apply (nameChars_not_slash t); [assumption|]. subst t. now left. }
  assert (H' : exists r', Splits data p (OPEN_BRACKET :: c1 :: r')).
  { cbn [documentText] in H. rewrite Et in H at 1. norm_app_in H.
    eexists. exact H. }
  destruct H' as [r' H'].
  pose proof (Splits_nonneg _ _ _ H) as Hp.
  cbn [transformStreamLoop]. cbv zeta.
  rewrite (Splits_indexOf_char data p OPEN_BRACKET [] (c1 :: r') H')
    by (intros []).
  rewrite jslen_nil.
  destruct (Z.eqb_spec (p + 0 + 1) 0) as [?|_]; [lia|].
  pose proof (Splits_next _ _ _ _ H') as Hnext.
  replace (p + 0 + 1) with (p + 1) by lia.
  rewrite !(Splits_codeIs _ _ _ _ _ Hnext), Hs1, Hx. cbn [andb].
  set (pos := p + jslen (documentText (Elem t a ch))).
  assert (Hnode :
    parseSingleNode (nodeOptions keepComments keepWhitespace None (p + 1))
      n data
    = Done (mkTNode t a ch, pos)).
  { unfold parseSingleNode.
    change (startPos (nodeOptions keepComments keepWhitespace None (p + 1)))
      with (p + 1 - 1).
    change (selfClosingTags
              (nodeOptions keepComments keepWhitespace None (p + 1)))
      with DEFAULT_SELF_CLOSING.
    replace (p + 1 - 1) with p by lia.
    eapply parseNode_canonical; [exact Hcan|reflexivity|lia|exact H]. }
  rewrite Hnode. cbn [bind].
  pose proof (Splits_jslen _ _ _ H) as Hlen.
  rewrite !jslen_app in Hlen.
  assert (Hafter : 1 <= jslen after).
  { destruct after; [contradiction|]. rewrite jslen_cons.
    pose proof (jslen_nonneg after). lia. }
  pose proof (jslen_nonneg (documentText (Elem t a ch))).
  destruct (Z.ltb_spec (jslen data - 1) pos) as [?|_]; [unfold pos in *; lia|].
  destruct (Z.ltb_spec pos lastPos) as [?|_]; [unfold pos in *; lia|].
  cbn [orb pushedElements]. reflexivity.
Qed.

(** X28.  An adapter made with an offset, given as a string whose
    length counts, does not look at the characters before the offset: when
    the first chunk starts with such a string, whatever it holds, and goes
    on with canonical elements and at least one more character, the
    elements are pushed and nothing is pushed for the string. *)
Theorem stream_offset
    (header : jsstring) (first : Child) (els : list Child) (tail : jsstring)
    (fuel : nat) :
  canonicalElements (first :: els) = true ->
  tail <> [] -> hasChar OPEN_BRACKET tail = false ->
  (2 + length els + fuelOfList (first :: els) <= fuel)%nat ->
  let chunk := header ++ childrenText (first :: els) ++ tail in
  transformStream keepComments keepWhitespace None fuel
    (initialState (inr header)) chunk
  = Done (pushedElements (jslen header) (first :: els),
          mkState chunk (jslen header + jslen (childrenText (first :: els))))
  /\ transformWebStream keepComments keepWhitespace None fuel
       (initialState (inr header)) chunk
     = Done (pushedElements (jslen header) (first :: els),
             mkState chunk
               (jslen header + jslen (childrenText (first :: els)))).
Proof.
  intros Hc Hne Hno Hf chunk.
  assert (R : transformStream keepComments keepWhitespace None fuel
                (initialState (inr header)) chunk
              = Done (pushedElements (jslen header) (first :: els),
                      mkState chunk
                        (jslen header
                         + jslen (childrenText (first :: els))))).
  { unfold transformStream. cbn [data position initialState app].
    pose proof Hc as Hc'. unfold canonicalElements in Hc'.
    cbn [forallb] in Hc'. apply andb_true_iff in Hc' as [Hfirst Hels].
    apply andb_true_iff in Hfirst as [He Hcan].
    cbn [fuelOfList] in Hf.
    change (childrenText (first :: els))
      with (documentText first ++ childrenText els) in *.
    assert (H : Splits chunk (jslen header)
                  (documentText first ++ childrenText els ++ tail)).
    { unfold chunk. rewrite <- app_assoc. apply Splits_here. }
    assert (Hafter : childrenText els ++ tail <> []).
    { destruct (childrenText els); [exact Hne|discriminate]. }
    pose proof (jslen_nonneg header) as Hh.
    replace fuel with (Datatypes.S (length els + (fuel - length els - 1)))%nat
      by lia.
    rewrite (transformStreamLoop_element first He Hcan _ chunk (jslen header)
               0 [] _ Hafter Hh H) by lia.
    rewrite (transformStreamLoop_elements keepComments keepWhitespace els Hels
               _ chunk _ _ tail Hne (Splits_skip _ _ _ _ H)) by lia.
    pose proof (fuelOfList_positive els).
    destruct (fuel - length els - 1)%nat as [|n] eqn:E; [lia|].
    rewrite (transformStreamLoop_idle keepComments keepWhitespace n _ _ _ tail
               Hno).
    - cbn [app]. destruct first as [s|t a ch]; [discriminate|].
      cbn [pushedElements]. rewrite jslen_app. do 3 f_equal. lia.
    - apply Splits_skip in H. now apply Splits_skip in H. }
  split; exact R.
Qed.

End StreamOffset.

(** A header that looks like a tag, skipped by its length. *)
Lemma stream_offset_example :
  let header := js "<?xml?>" in
  let first := Elem (js "a") [] [Str (js "x")] in
  let chunk := js "<?xml?><a>x</a> " in
  (canonicalElements [first] = true
   /\ header ++ childrenText [first] ++ js " " = chunk)
  /\ transformStream false false None 10 (initialState (inr header)) chunk
     = Done ([Parsed (mkTNode (js "a") [] [Str (js "x")]) 15],
             mkState chunk 15).
Proof.
  intros header first chunk. split; [now split|].
  assert (Hne : js " " <> []) by discriminate.
  apply (proj1 (stream_offset false false header first [] (js " ") 10
                  eq_refl Hne eq_refl ltac:(vm_compute; lia))).
Defined.

(** ** Chunks without a tag *)

Section StreamAgain.

Variable keepComments keepWhitespace : bool.

Lemma transformStreamLoop_rest (n : nat) data position lastPos pushed rest :
  hasChar OPEN_BRACKET rest = false ->
  Splits data position rest ->
  transformStreamLoop keepComments keepWhitespace None
    (Datatypes.S n) data position lastPos pushed
  = Done (pushed, mkState data lastPos).
Proof.
  intros Hno H. cbn [transformStreamLoop]. cbv zeta.
  rewrite (Splits_indexOf _ _ _ _ H),
    (indexOfFrom_char_absent _ _ _ (hasChar_false _ _ Hno)).
  reflexivity.
Qed.

Lemma hasChar_app (c : N) (a b : jsstring) :
  hasChar c (a ++ b) = hasChar c a || hasChar c b.
Proof. unfold hasChar. apply existsb_app. Qed.

(** X29.  The position an adapter keeps is reset to the start of its
    buffer by a chunk in which no ['<'] is found behind it, while the
    buffer still holds what was read: after elements were pushed from a
    first chunk and a second chunk without ['<'] came in, a third chunk
    makes both adapters push the same elements once more. *)
Theorem stream_pushes_again
    (els : list Child) (tail second third : jsstring) (fuel : nat) :
  canonicalElements els = true ->
  tail <> [] ->
  hasChar OPEN_BRACKET tail = false ->
  hasChar OPEN_BRACKET second = false ->
  hasChar OPEN_BRACKET third = false ->
  (length els + fuelOfList els <= fuel)%nat ->
  runStream (transformStream keepComments keepWhitespace None) fuel
    (initialState (inl 0)) [childrenText els ++ tail; second]
  = Done (pushedElements 0 els)
  /\ runStream (transformStream keepComments keepWhitespace None) fuel
       (initialState (inl 0)) [childrenText els ++ tail; second; third]
     = Done (pushedElements 0 els ++ pushedElements 0 els)
  /\ runStream (transformWebStream keepComments keepWhitespace None) fuel
       (initialState (inl 0)) [childrenText els ++ tail; second; third]
     = Done (pushedElements 0 els ++ pushedElements 0 els).
Proof.
  intros Hc Hne Hno H2 H3 Hf.
  pose proof (fuelOfList_positive els) as Hpos.
  set (text := childrenText els).
  assert (A : transformStream keepComments keepWhitespace None fuel
                (initialState (inl 0)) (text ++ tail)
              = Done (pushedElements 0 els,
                      mkState (text ++ tail) (jslen text))).
  { unfold transformStream. cbn [data position initialState app].
    now apply transformStreamLoop_pushes. }
  assert (B : transformStream keepComments keepWhitespace None fuel
                (mkState (text ++ tail) (jslen text)) second
              = Done ([], mkState ((text ++ tail) ++ second) 0)).
  { unfold transformStream. cbn [data position].
    destruct fuel as [|n]; [lia|].
    apply (transformStreamLoop_rest n _ _ _ _ (tail ++ second)).
    - now rewrite hasChar_app, Hno, H2.
    - rewrite <- app_assoc. apply Splits_here. }
  assert (C : transformStream keepComments keepWhitespace None fuel
                (mkState ((text ++ tail) ++ second) 0) third
              = Done (pushedElements 0 els,
                      mkState (text ++ tail ++ second ++ third)
                        (jslen text))).
  { unfold transformStream. cbn [data position].
    replace (((text ++ tail) ++ second) ++ third)
      with (text ++ tail ++ second ++ third) by now rewrite <- !app_assoc.
    apply transformStreamLoop_pushes; try assumption.
    - destruct tail; [contradiction|discriminate].
    - now rewrite !hasChar_app, Hno, H2, H3. }
  assert (R2 : runStream (transformStream keepComments keepWhitespace None)
                 fuel (initialState (inl 0)) [text ++ tail; second]
               = Done (pushedElements 0 els)).
  { cbn [runStream]. rewrite A. cbn [bind]. rewrite B. cbn [bind app].
    now rewrite app_nil_r. }
  assert (R3 : runStream (transformStream keepComments keepWhitespace None)
                 fuel (initialState (inl 0)) [text ++ tail; second; third]
               = Done (pushedElements 0 els ++ pushedElements 0 els)).
  { cbn [runStream]. rewrite A. cbn [bind]. rewrite B. cbn [bind].
    rewrite C. cbn [bind app]. now rewrite app_nil_r. }
  split; [exact R2|]. split; exact R3.
Qed.

End StreamAgain.

(** One element and a line feed, then two chunks of white space: the
    element is pushed twice. *)
Lemma stream_pushes_again_example :
  let els := [Elem (js "a") [] []] in
  (canonicalElements els = true
   /\ childrenText els ++ [LINE_FEED] = js "<a></a>" ++ [LINE_FEED])
  /\ runStream (transformStream false false None) 10 (initialState (inl 0))
       [js "<a></a>" ++ [LINE_FEED]; js " "; js " "]
     = Done [Parsed (mkTNode (js "a") [] []) 7;
             Parsed (mkTNode (js "a") [] []) 7].
Proof.
  intros els. split; [now split|].
  assert (Hne : [LINE_FEED] <> []) by discriminate.
  apply (proj1 (proj2 (stream_pushes_again false false els [LINE_FEED]
                         (js " ") (js " ") 10 eq_refl Hne eq_refl eq_refl
                         eq_refl ltac:(vm_compute; lia)))).
Defined.

(** ** Comments in a stream *)

Section StreamComment.

Variable keepComments keepWhitespace : bool.

(** The turn of the loop on a comment that is closed in the buffer. *)
Lemma transformStreamLoop_comment (n : nat) data p lastPos pushed body rest :
  Splits data p (js "<!--" ++ body ++ js "-->" ++ rest) ->
  indexOfFrom (js "-->") (body ++ js "-->") 0 = jslen body ->
  transformStreamLoop keepComments keepWhitespace None
    (Datatypes.S n) data p lastPos pushed
  = transformStreamLoop keepComments keepWhitespace None
      n data (p + 4 + jslen body + 1) (p + 4 + jslen body)
      (if keepComments
       then pushed ++ [Comment (js "<!--" ++ body ++ js "-->")]
       else pushed).
Proof.
  intros H Hfirst.
  pose proof (Splits_nonneg _ _ _ H) as Hp.
  pose proof (jslen_nonneg body) as Hb.
  pose proof H as H0.
  change (js "<!--" ++ body ++ js "-->" ++ rest)
    with (OPEN_BRACKET :: EXCLAMATION :: MINUS :: MINUS
            :: body ++ js "-->" ++ rest) in H0.
  cbn [transformStreamLoop]. cbv zeta.
  rewrite (Splits_indexOf_char data p OPEN_BRACKET [] _ H0) by (intros []).
  rewrite jslen_nil.
  destruct (Z.eqb_spec (p + 0 + 1) 0) as [?|_]; [lia|].
  replace (p + 0 + 1) with (p + 1) by lia.
  pose proof (Splits_next _ _ _ _ H0) as H1.
  pose proof (Splits_next _ _ _ _ H1) as H2.
  pose proof (Splits_next _ _ _ _ H2) as H3.
  pose proof (Splits_next _ _ _ _ H3) as H4.
  replace (p + 1 + 1 + 1) with (p + 1 + 2) in H3 by lia.
  replace (p + 1 + 1 + 1 + 1) with (p + 1 + 3) in H4 by lia.
  rewrite !(Splits_codeIs _ _ _ _ _ H1), (Splits_codeIs _ _ _ _ _ H2),
    (Splits_codeIs _ _ _ _ _ H3).
  change (N.eqb EXCLAMATION SLASH) with false.
  change (N.eqb EXCLAMATION EXCLAMATION) with true.
  change (N.eqb MINUS MINUS) with true. cbn [andb]. cbv iota.
  assert (Hidx : indexOf data (js "-->") (p + 1 + 3) = p + 4 + jslen body).
  { rewrite (Splits_indexOf _ _ _ _ H4), indexOfFrom_content.
    rewrite (indexOfFrom_shift (js "-->") (body ++ js "-->") (p + 1 + 3)
               (jslen body)); [lia|lia|lia|exact Hfirst]. }
  rewrite Hidx.
  destruct (Z.eqb_spec (p + 4 + jslen body) (-1)) as [?|_]; [lia|].
  replace (p + 1 - 1) with p by lia.
  replace (p + 4 + jslen body + 3)
    with (p + jslen (js "<!--" ++ body ++ js "-->"))
    by (rewrite !jslen_app; change (jslen (js "<!--")) with 4;
        change (jslen (js "-->")) with 3; lia).
  replace (js "<!--" ++ body ++ js "-->" ++ rest)
    with ((js "<!--" ++ body ++ js "-->") ++ rest) in H
    by now rewrite <- !app_assoc.
  now rewrite (Splits_substring _ _ _ _ H).
Qed.

(** Characters other than ['<'] behind the cursor are passed over. *)
Lemma transformStreamLoop_gap (n : nat) data p lastPos pushed gap rest :
  Splits data p (gap ++ OPEN_BRACKET :: rest) ->
  hasChar OPEN_BRACKET gap = false ->
  transformStreamLoop keepComments keepWhitespace None
    (Datatypes.S n) data p lastPos pushed
  = transformStreamLoop keepComments keepWhitespace None
      (Datatypes.S n) data (p + jslen gap) lastPos pushed.
Proof.
  intros H Hno. cbn [transformStreamLoop]. cbv zeta.
  rewrite (Splits_indexOf_char data p OPEN_BRACKET gap rest H)
    by now apply hasChar_false.
  rewrite (Splits_indexOf_char data (p + jslen gap) OPEN_BRACKET [] rest
             (Splits_skip _ _ _ _ H)) by (intros []).
  rewrite jslen_nil. now rewrite Z.add_0_r.
Qed.

(** X30.  A comment that is closed in the buffer, from [<!--] to the
    first [-->] behind these four characters, is pushed as its text when
    [keepComments] is set and passed over otherwise, whatever it holds;
    the elements behind it are pushed as they are without it.  Behind a
    comment that no element follows the adapter keeps the position of the
    [-->]. *)
Theorem stream_comment
    (body : jsstring) (els : list Child) (tail : jsstring) (fuel : nat) :
  indexOfFrom (js "-->") (body ++ js "-->") 0 = jslen body ->
  canonicalElements els = true ->
  tail <> [] -> hasChar OPEN_BRACKET tail = false ->
  (2 + length els + fuelOfList els <= fuel)%nat ->
  let comment := js "<!--" ++ body ++ js "-->" in
  let chunk := comment ++ childrenText els ++ tail in
  let items :=
    (if keepComments then [Comment comment] else [])
      ++ pushedElements (jslen comment) els in
  let st :=
    mkState chunk
      (match els with
       | [] => jslen comment - 3
       | _ :: _ => jslen comment + jslen (childrenText els)
       end) in
  transformStream keepComments keepWhitespace None fuel
    (initialState (inl 0)) chunk = Done (items, st)
  /\ transformWebStream keepComments keepWhitespace None fuel
       (initialState (inl 0)) chunk = Done (items, st).
Proof.
  intros Hfirst Hc Hne Hno Hf comment chunk items st.
  assert (Hlen : jslen comment = 4 + jslen body + 3).
  { unfold comment. rewrite !jslen_app. change (jslen (js "<!--")) with 4.
    change (jslen (js "-->")) with 3. lia. }
  pose proof (jslen_nonneg body) as Hb.
  assert (H : Splits chunk 0
                (js "<!--" ++ body ++ js "-->" ++ childrenText els ++ tail)).
  { unfold chunk, comment. rewrite <- !app_assoc. apply Splits_start. }
  assert (Hc1 : Splits chunk (0 + 4 + jslen body + 1)
                  (js "->" ++ childrenText els ++ tail)).
  { replace (0 + 4 + jslen body + 1)
      with (jslen (js "<!--" ++ body ++ js "-")).
    - unfold chunk, comment.
      replace ((js "<!--" ++ body ++ js "-->") ++ childrenText els ++ tail)
        with ((js "<!--" ++ body ++ js "-")
                ++ js "->" ++ childrenText els ++ tail).
      + apply Splits_here.
      + rewrite <- !app_assoc. reflexivity.
    - rewrite !jslen_app. change (jslen (js "<!--")) with 4.
      change (jslen (js "-")) with 1. lia. }
  assert (R : transformStream keepComments keepWhitespace None fuel
                (initialState (inl 0)) chunk = Done (items, st)).
  { unfold transformStream. cbn [data position initialState app].
    destruct fuel as [|fuel]; [lia|].
    rewrite (transformStreamLoop_comment fuel chunk 0 0 [] body _ H Hfirst).
    cbn [app].
    destruct els as [|first els].
    - destruct fuel as [|fuel]; [lia|].
      rewrite (transformStreamLoop_rest keepComments keepWhitespace fuel _ _ _
                 _ (js "->" ++ tail)).
      + unfold items, st. cbn [pushedElements]. rewrite app_nil_r.
        do 3 f_equal. lia.
      + now rewrite hasChar_app, Hno.
      + exact Hc1.
    - pose proof Hc as Hc'. unfold canonicalElements in Hc'.
      cbn [forallb] in Hc'. apply andb_true_iff in Hc' as [Hfst Hels].
      apply andb_true_iff in Hfst as [He Hcan].
      cbn [fuelOfList length] in Hf.
      change (childrenText (first :: els))
        with (documentText first ++ childrenText els) in *.
      rewrite <- app_assoc in Hc1.
      assert (Hstart : exists r, documentText first ++ childrenText els ++ tail
                                 = OPEN_BRACKET :: r).
      { destruct first as [s|t a ch]; [discriminate|].
        cbn [documentText]. norm_app. now eexists. }
      destruct Hstart as [r Er].
      destruct fuel as [|fuel]; [lia|].
      rewrite (transformStreamLoop_gap fuel chunk _ _ _ (js "->") r).
      2:{ rewrite <- Er. exact Hc1. }
      2:{ reflexivity. }
      assert (H2 : Splits chunk (0 + 4 + jslen body + 1 + jslen (js "->"))
                     (documentText first ++ childrenText els ++ tail)).
      { now apply Splits_skip in Hc1. }
      assert (Hafter : childrenText els ++ tail <> []).
      { destruct (childrenText els); [exact Hne|discriminate]. }
      assert (Hle : 0 + 4 + jslen body
                    <= 0 + 4 + jslen body + 1 + jslen (js "->")).
      { change (jslen (js "->")) with 2. lia. }
      rewrite (transformStreamLoop_element keepComments keepWhitespace first
                 He Hcan fuel chunk _ _ _ _ Hafter Hle H2) by lia.
      replace fuel with (length els + (fuel - length els))%nat by lia.
      rewrite (transformStreamLoop_elements keepComments keepWhitespace els
                 Hels _ chunk _ _ tail Hne (Splits_skip _ _ _ _ H2)) by lia.
      pose proof (fuelOfList_positive els).
      destruct (fuel - length els)%nat as [|n] eqn:E; [lia|].
      rewrite (transformStreamLoop_idle keepComments keepWhitespace n _ _ _
                 tail Hno).
      + unfold items, st. change (jslen (js "->")) with 2.
        replace (0 + 4 + jslen body + 1 + 2) with (jslen comment) by lia.
        destruct first as [s|t a ch]; [discriminate|].
        cbn [pushedElements]. rewrite jslen_app.
        destruct keepComments; cbn [app]; rewrite <- ?app_assoc; cbn [app];
          do 3 f_equal; lia.
      + apply Splits_skip in H2. now apply Splits_skip in H2. }
  split; exact R.
Qed.

End StreamComment.

(** A comment that holds a tag, before an element; without
    [keepComments] the element alone is pushed. *)
Lemma stream_comment_example :
  let body := js " <b> " in
  let els := [Elem (js "a") [] [Str (js "x")]] in
  let comment := js "<!--" ++ body ++ js "-->" in
  let chunk := comment ++ childrenText els ++ js " " in
  let st := mkState chunk (jslen comment + jslen (childrenText els)) in
  chunk = js "<!-- <b> --><a>x</a> "
  /\ (transformStream true false None 10 (initialState (inl 0)) chunk
      = Done ([Comment comment] ++ pushedElements (jslen comment) els, st)
      /\ transformWebStream true false None 10 (initialState (inl 0)) chunk
         = Done ([Comment comment] ++ pushedElements (jslen comment) els, st))
  /\ (transformStream false false None 10 (initialState (inl 0)) chunk
      = Done ([] ++ pushedElements (jslen comment) els, st)
      /\ transformWebStream false false None 10 (initialState (inl 0)) chunk
         = Done ([] ++ pushedElements (jslen comment) els, st)).
Proof.
  intros body els comment chunk st.
  assert (Hne : js " " <> []) by discriminate.
  assert (Hf : (2 + length els + fuelOfList els <= 10)%nat)
    by (vm_compute; lia).
  split; [reflexivity|]. split.
  - exact (stream_comment true false body els (js " ") 10 eq_refl eq_refl Hne
             eq_refl Hf).
  - exact (stream_comment false false body els (js " ") 10 eq_refl eq_refl Hne
             eq_refl Hf).
Defined.

